(** * pidgin-chime: session renewal, websocket negotiation and chat rooms

    A shallow embedding of [chime.c] (request queue, token renewal,
    login, websocket negotiation), [chat.c] (chat rooms: mentions,
    message de-duplication, membership paging, join and leave, the
    device channel) and the PIN formatting of [prpl/meeting.c], with the
    properties of the natural-language specification stated over it.

    Conventions.
    - A nullable C pointer is an [option]; [None] is [NULL].
    - A C string is a [string] (a sequence of bytes without NUL).
    - A C [int] is the [Z] it holds; counting past [INT_MAX] wraps.
    - Calls that leave the translated code (libpurple, libsoup, the
      juggernaut channel) are recorded, in program order, as a list of
      calls returned next to the new state.
    - [printf] diagnostics are not modelled. *)

From stdpp Require Import gmap strings list fin_maps.
From Stdlib Require Import ZArith Ascii.

Set Warnings "-register-all".
Open Scope Z_scope.

(** The result of a C function that may read through [NULL] or past the
    end of an array: [Undefined] stands for such a run. *)
Inductive outcome (A : Type) : Type :=
| Returns (a : A)
| Undefined.
Arguments Returns {A} a.
Arguments Undefined {A}.

(** A C [int] is the integer it holds, within [INT_MIN .. INT_MAX].
    [int_wrap z] is what an [int] holds after arithmetic that gives [z]:
    the 32 bits of the two's complement, as the compiled code keeps
    them. *)
Definition INT_MAX : Z := 2147483647.
Definition INT_MIN : Z := -2147483648.
Definition int_wrap (z : Z) : Z := (z - INT_MIN) mod 4294967296 + INT_MIN.

(** ** Strings *)

Module Str.

Fixpoint take (n : nat) (s : string) : string :=
  match n, s with
  | S n', String c s' => String c (take n' s')
  | _, _ => ""
  end.

Fixpoint drop (n : nat) (s : string) : string :=
  match n, s with
  | S n', String _ s' => drop n' s'
  | _, _ => s
  end.

(** No byte of the string is NUL (true of every C string). *)
Fixpoint nul_free (s : string) : bool :=
  match s with
  | "" => true
  | String c s' => bool_decide (nat_of_ascii c ≠ 0%nat) && nul_free s'
  end.

End Str.

(** ** The GLib and libc string functions the plugin calls *)

Module Glib.

(** [strstr]: the offset of the first occurrence of [needle], if any. *)
Fixpoint strstr (haystack needle : string) : option nat :=
  if String.prefix needle haystack then Some 0%nat
  else match haystack with
       | "" => None
       | String _ h => S <$> strstr h needle
       end.

(** [strncmp], as the difference of the first two bytes that differ
    among the first [n]; the end of a string compares as byte 0. *)
Fixpoint strncmp (s1 s2 : string) (n : nat) : Z :=
  match n with
  | O => 0
  | S n' =>
      match s1, s2 with
      | "", "" => 0
      | "", String d _ => - Z.of_nat (nat_of_ascii d)
      | String c _, "" => Z.of_nat (nat_of_ascii c)
      | String c s1', String d s2' =>
          if decide (c = d) then strncmp s1' s2' n'
          else Z.of_nat (nat_of_ascii c) - Z.of_nat (nat_of_ascii d)
      end
  end.

Fixpoint g_str_has_suffix (str suffix : string) : bool :=
  if decide (str = suffix) then true
  else match str with
       | "" => false
       | String _ s => g_str_has_suffix s suffix
       end.

(** The loop of [g_strsplit]: cut a token at each occurrence of the
    delimiter, while [--max_tokens] is not zero when there is a limit
    ([None]: no limit).  Every turn consumes at least one byte of the
    remainder, which bounds the turns by [fuel]. *)
Fixpoint strsplit_loop (fuel : nat) (max_tokens : option Z) (remainder delimiter : string)
  : list string * string :=
  match fuel with
  | O => ([], remainder)
  | S fuel' =>
      let max_tokens := (λ n, n - 1) <$> max_tokens in
      if decide (max_tokens = Some 0) then ([], remainder)
      else match strstr remainder delimiter with
           | None => ([], remainder)
           | Some len =>
               let '(tokens, rest) :=
                 strsplit_loop fuel' max_tokens
                   (Str.drop (len + String.length delimiter) remainder) delimiter in
               (Str.take len remainder :: tokens, rest)
           end
  end.

(** [g_strsplit string delimiter max_tokens].  [NULL] for a [NULL]
    string or an empty delimiter; the empty vector for the empty string;
    with [max_tokens] less than 1 the string is split completely,
    otherwise the last token takes the remainder. *)
Definition g_strsplit (string_ : option string) (delimiter : string) (max_tokens : Z)
  : option (list string) :=
  match string_ with
  | None => None
  | Some s =>
      if decide (delimiter = "") then None
      else
        let max_tokens := if max_tokens <? 1 then None else Some max_tokens in
        let '(tokens, remainder) :=
          strsplit_loop (S (String.length s)) max_tokens s delimiter in
        Some (if decide (s = "") then tokens else tokens ++ [remainder])
  end.

Fixpoint strjoin (separator : string) (l : list string) : string :=
  match l with
  | [] => ""
  | [x] => x
  | x :: l' => x +:+ separator +:+ strjoin separator l'
  end.

(** [g_strjoinv separator str_array]: [NULL] for a [NULL] vector. *)
Definition g_strjoinv (separator : string) (str_array : option (list string))
  : option string :=
  strjoin separator <$> str_array.

End Glib.

(** ** JSON nodes (json-glib) *)

Module Json.

(** A JSON document.  An object holds each member name once; numbers
    are integers here (nothing below reads a number). *)
Inductive JsonNode : Type :=
| JsonNull
| JsonBool (b : bool)
| JsonInt (z : Z)
| JsonString (s : string)
| JsonArray (elements : list JsonNode)
| JsonObject (members : list (string * JsonNode)).

Definition JsonObject_t := list (string * JsonNode).

(** [json_node_get_object]: [NULL] unless the node holds an object. *)
Definition json_node_get_object (node : option JsonNode) : option JsonObject_t :=
  match node with
  | Some (JsonObject members) => Some members
  | _ => None
  end.

Fixpoint assoc (name : string) (members : list (string * JsonNode)) : option JsonNode :=
  match members with
  | [] => None
  | (k, v) :: rest => if decide (k = name) then Some v else assoc name rest
  end.

(** [json_object_get_member]: [NULL] for a [NULL] object or a missing member. *)
Definition json_object_get_member (obj : option JsonObject_t) (name : string)
  : option JsonNode :=
  match obj with
  | Some members => assoc name members
  | None => None
  end.

(** [json_node_get_string]: [NULL] unless the node holds a string. *)
Definition json_node_get_string (node : option JsonNode) : option string :=
  match node with
  | Some (JsonString s) => Some s
  | _ => None
  end.

(** [json_node_get_array]: [NULL] unless the node holds an array. *)
Definition json_node_get_array (node : option JsonNode) : option (list JsonNode) :=
  match node with
  | Some (JsonArray elements) => Some elements
  | _ => None
  end.

(** [parse_string] (chime.c): the helper that reads a string member of a
    JSON child node.  [res] is the content of [*res] on entry; the
    result pairs the returned gboolean with the content of [*res] on
    exit. *)
Definition parse_string (parent : option JsonNode) (name : string) (res : option string)
  : bool * option string :=
  match parent with
  | None => (false, res)
  | Some _ =>
      match json_node_get_object parent with
      | None => (false, res)
      | Some obj =>
          match json_object_get_member (Some obj) name with
          | None => (false, res)
          | Some node =>
              match json_node_get_string (Some node) with
              | None => (false, res)
              | Some str => (true, Some str)
              end
          end
      end
  end.

Global Arguments parse_string : simpl never.
Global Arguments json_object_get_member : simpl never.
Global Arguments json_node_get_object : simpl never.

End Json.

(** ** chime.c: the request queue, token renewal and websocket negotiation *)

Module Chime.
Import Json Glib.

Record SoupURI := {
  uri_string : string;
  uri_query : list (string * string);
}.

(** [soup_uri_new_printf base format ...]; [append] is the formatted tail. *)
Definition soup_uri_new_printf (base append : string) : SoupURI :=
  {| uri_string :=
       base +:+ (if g_str_has_suffix base "/" then "" else "/")
            +:+ (match append with
                 | String "/"%char rest => rest
                 | _ => append
                 end);
     uri_query := [] |}.

Definition soup_uri_new (url : string) : SoupURI :=
  {| uri_string := url; uri_query := [] |}.

(** [soup_uri_set_query_from_fields uri name value NULL]: a [NULL] value
    ends the field list. *)
Definition soup_uri_set_query_from_fields (uri : SoupURI) (name : string)
    (value : option string) : SoupURI :=
  {| uri_string := uri_string uri;
     uri_query := match value with Some v => [(name, v)] | None => [] end |}.

(** A [SoupMessage]: the request, and the response once it has come back. *)
Record SoupMessage := {
  method : string;
  uri : SoupURI;
  request_headers : list (string * string);
  request_body : option JsonNode;
  status_code : Z;
  reason_phrase : string;
  response_content_type : option string;
  response_body_data : option string;
}.

Definition soup_message_new_from_uri (method_ : string) (uri_ : SoupURI) : SoupMessage :=
  {| method := method_; uri := uri_; request_headers := []; request_body := None;
     status_code := 0; reason_phrase := "";
     response_content_type := None; response_body_data := None |}.

Definition set_request_headers (msg : SoupMessage) (h : list (string * string)) : SoupMessage :=
  {| method := method msg; uri := uri msg; request_headers := h;
     request_body := request_body msg; status_code := status_code msg;
     reason_phrase := reason_phrase msg;
     response_content_type := response_content_type msg;
     response_body_data := response_body_data msg |}.

Definition soup_message_set_request (msg : SoupMessage) (body : JsonNode) : SoupMessage :=
  {| method := method msg; uri := uri msg; request_headers := request_headers msg;
     request_body := Some body; status_code := status_code msg;
     reason_phrase := reason_phrase msg;
     response_content_type := response_content_type msg;
     response_body_data := response_body_data msg |}.

Definition soup_message_headers_append (msg : SoupMessage) (name value : string)
  : SoupMessage :=
  set_request_headers msg (request_headers msg ++ [(name, value)]).

(** [soup_message_headers_replace]: drop every header of that name, then append. *)
Definition soup_message_headers_replace (msg : SoupMessage) (name value : string)
  : SoupMessage :=
  set_request_headers msg
    (filter (λ h, h.1 ≠ name) (request_headers msg) ++ [(name, value)]).

(** The completion callbacks of this file. *)
Inductive SoupSessionCallback := renew_cb_ptr | ws_cb_ptr | register_cb_ptr.

Inductive GError :=
| CHIME_ERROR_REQUEST_FAILED (status : Z) (reason : string)
| CHIME_ERROR_BAD_RESPONSE (content_type : option string)
| JSON_PARSER_ERROR (message : string).

(** The text handed to [purple_connection_error_reason]. *)
Inductive error_text :=
| Token_renewal (e : GError)
| Failed_to_renew_session_token
| Websocket_connection_error (status : Z) (reason : string)
| Unexpected_response_in_WebSocket_setup.

(** Calls into libsoup and libpurple, in program order. *)
Inductive call :=
| soup_session_queue_message (msg : SoupMessage) (cb : SoupSessionCallback)
| purple_connection_error_reason_NETWORK_ERROR (description : error_text)
| purple_account_set_string (name value : string)
| purple_connection_update_progress (text : string) (step count : Z)
| soup_session_websocket_connect_async (msg : SoupMessage) (protocols : option (list string)).

(** [struct chime_msg_queue], at the address [g_new0] returned for it. *)
Record chime_msg_queue := {
  cmsg_addr : nat;
  cmsg_msg : SoupMessage;
  cmsg_cb : SoupSessionCallback;
}.

(** The fields of [struct chime_connection] this part of the file uses.
    [next_addr] counts the structs [g_new0] has handed out. *)
Record chime_connection := {
  session_token : option string;
  session_id : option string;
  profile_url : string;
  websocket_url : string;
  msg_queue : list chime_msg_queue;
  next_addr : nat;
}.

Definition set_msg_queue (cxn : chime_connection) (q : list chime_msg_queue) (n : nat)
  : chime_connection :=
  {| session_token := session_token cxn; session_id := session_id cxn;
     profile_url := profile_url cxn; websocket_url := websocket_url cxn;
     msg_queue := q; next_addr := n |}.

Definition set_session_token (cxn : chime_connection) (tok : option string)
  : chime_connection :=
  {| session_token := tok; session_id := session_id cxn;
     profile_url := profile_url cxn; websocket_url := websocket_url cxn;
     msg_queue := msg_queue cxn; next_addr := next_addr cxn |}.

(** [g_list_remove list data]: unlink the first element whose data
    pointer is [data]. *)
Fixpoint g_list_remove (l : list chime_msg_queue) (data : chime_msg_queue)
  : list chime_msg_queue :=
  match l with
  | [] => []
  | x :: l' =>
      if decide (cmsg_addr x = cmsg_addr data) then l' else x :: g_list_remove l' data
  end.

Definition CONNECT_STEPS : Z := 3.

Section WithParser.

(** [json_parser_load_from_data] followed by [json_parser_get_root]:
    a parse error, or the root of the document, which is [NULL] for
    an empty document. *)
Variable json_parser : string → GError + option JsonNode.

(** [process_soup_response]: the node returned and the [GError] set. *)
Definition process_soup_response (msg : SoupMessage)
  : option JsonNode * option GError :=
  if decide (status_code msg ≠ 200 ∧ status_code msg ≠ 201) then
    (None, Some (CHIME_ERROR_REQUEST_FAILED (status_code msg) (reason_phrase msg)))
  else if decide (response_content_type msg ≠ Some "application/json") then
    (None, Some (CHIME_ERROR_BAD_RESPONSE (response_content_type msg)))
  else
    match response_body_data msg with
    | None => (None, None)
    | Some data =>
        match json_parser data with
        | inl e => (None, Some e)
        | inr root => (root, None)
        end
    end.

(** The [while] loop of [renew_cb]: re-issue the first queued request
    with the new cookie and unlink it, until the queue is empty. *)
Fixpoint renew_flush (fuel : nat) (queue : list chime_msg_queue) (cookie_hdr : string)
  : list chime_msg_queue * list call :=
  match fuel with
  | O => (queue, [])
  | S fuel' =>
      match queue with
      | [] => ([], [])
      | cmsg :: _ =>
          let msg := soup_message_headers_replace (cmsg_msg cmsg) "Cookie" cookie_hdr in
          let '(queue', calls) :=
            renew_flush fuel' (g_list_remove queue cmsg) cookie_hdr in
          (queue', soup_session_queue_message msg (cmsg_cb cmsg) :: calls)
      end
  end.

Definition renew_cb (cxn : chime_connection) (msg : SoupMessage)
  : outcome (chime_connection * list call) :=
  match process_soup_response msg with
  | (None, Some error) =>
      Returns (cxn, [purple_connection_error_reason_NETWORK_ERROR (Token_renewal error)])
  | (None, None) => Undefined (* error->message with error == NULL *)
  | (Some tok_node, _) =>
      match parse_string (Some tok_node) "SessionToken" None with
      | (true, Some sess_tok) =>
          let cxn := set_session_token cxn (Some sess_tok) in
          let cookie_hdr := "_aws_wt_session=" +:+ sess_tok in
          let '(queue, calls) :=
            renew_flush (length (msg_queue cxn)) (msg_queue cxn) cookie_hdr in
          Returns (set_msg_queue cxn queue (next_addr cxn),
                   purple_account_set_string "token" sess_tok :: calls)
      | _ =>
          Returns (cxn, [purple_connection_error_reason_NETWORK_ERROR
                           Failed_to_renew_session_token])
      end
  end.

End WithParser.

Definition chime_queue_http_request (cxn : chime_connection) (node : option JsonNode)
    (uri_ : SoupURI) (callback : SoupSessionCallback) : list call :=
  let msg := soup_message_new_from_uri (match node with Some _ => "POST" | None => "GET" end) uri_ in
  let msg := match session_token cxn with
             | Some tok => soup_message_headers_append msg "Cookie" ("_aws_wt_session=" +:+ tok)
             | None => msg
             end in
  let msg := match node with
             | Some body => soup_message_set_request msg body
             | None => msg
             end in
  [soup_session_queue_message msg callback].

Definition json_string_value (s : option string) : JsonNode :=
  match s with Some s => JsonString s | None => JsonNull end.

Definition chime_renew_token (cxn : chime_connection) : list call :=
  let node := JsonObject [("Token", json_string_value (session_token cxn))] in
  let uri_ := soup_uri_new_printf (profile_url cxn) "/tokens" in
  let uri_ := soup_uri_set_query_from_fields uri_ "Token" (session_token cxn) in
  chime_queue_http_request cxn (Some node) uri_ renew_cb_ptr.

Definition resubmit_msg_for_auth (cxn : chime_connection) (msg : SoupMessage)
    (cb : SoupSessionCallback) : chime_connection * list call :=
  let cmsg := {| cmsg_addr := next_addr cxn; cmsg_msg := msg; cmsg_cb := cb |} in
  match msg_queue cxn with
  | _ :: _ =>
      (* Already renewing; just add to the list *)
      (set_msg_queue cxn (msg_queue cxn ++ [cmsg]) (S (next_addr cxn)), [])
  | [] =>
      let cxn := set_msg_queue cxn (msg_queue cxn ++ [cmsg]) (S (next_addr cxn)) in
      (cxn, chime_renew_token cxn)
  end.

Definition ws_cb (cxn : chime_connection) (msg : SoupMessage)
  : outcome (chime_connection * list call) :=
  if decide (status_code msg = 401) then
    Returns (resubmit_msg_for_auth cxn msg ws_cb_ptr)
  else if decide (status_code msg ≠ 200) then
    Returns (cxn, [purple_connection_error_reason_NETWORK_ERROR
                     (Websocket_connection_error (status_code msg) (reason_phrase msg))])
  else
    let ws_opts := match response_body_data msg with
                   | Some data => g_strsplit (Some data) ":" 4
                   | None => None
                   end in
    let unexpected :=
      Returns (cxn, [purple_connection_error_reason_NETWORK_ERROR
                       Unexpected_response_in_WebSocket_setup]) in
    match ws_opts with
    | None => unexpected
    | Some [] => Undefined (* ws_opts[1] lies past the terminator of the vector *)
    | Some (_ :: opts) =>
        match opts with
        | opt1 :: _ :: opt3 :: _ =>
            if decide (strncmp opt3 "websocket," 10 ≠ 0) then unexpected
            else
              let url := websocket_url cxn +:+ "/1/websocket/" +:+ opt1 in
              let uri_ := soup_uri_new url in
              let uri_ := soup_uri_set_query_from_fields uri_ "session_uuid" (session_id cxn) in
              let msg := soup_message_new_from_uri "GET" uri_ in
              let protos := g_strsplit (Some opt3) "," 0 in
              Returns (cxn,
                       [purple_connection_update_progress
                          "Establishing WebSocket connection..." 4 CONNECT_STEPS;
                        soup_session_websocket_connect_async msg protos])
        | _ => unexpected
        end
    end.



Definition parked (cmsg : chime_msg_queue) : SoupMessage * SoupSessionCallback :=
  (cmsg_msg cmsg, cmsg_cb cmsg).


(** The ways a token renewal fails, as [renew_cb] meets them: a status
    other than 200 and 201, a content type other than application/json,
    a body the parser rejects, and a document whose root holds no
    SessionToken string. *)
Inductive renewal_fails (json_parser : string → GError + option JsonNode)
    (msg : SoupMessage) : Prop :=
| non_success_status :
    status_code msg ≠ 200 → status_code msg ≠ 201 → renewal_fails json_parser msg
| wrong_content_type :
    response_content_type msg ≠ Some "application/json" → renewal_fails json_parser msg
| malformed_json data e :
    response_body_data msg = Some data → json_parser data = inl e →
    renewal_fails json_parser msg
| no_session_token data tok_node :
    response_body_data msg = Some data → json_parser data = inr (Some tok_node) →
    (parse_string (Some tok_node) "SessionToken" None).1 = false →
    renewal_fails json_parser msg.

Definition is_connection_error (c : call) : bool :=
  match c with purple_connection_error_reason_NETWORK_ERROR _ => true | _ => false end.

Definition is_upgrade (c : call) : bool :=
  match c with soup_session_websocket_connect_async _ _ => true | _ => false end.

(** What a run of [ws_cb] did: tried the websocket upgrade, or reported
    a connection error. *)
Definition attempts_upgrade (o : outcome (chime_connection * list call)) : Prop :=
  ∃ cxn calls, o = Returns (cxn, calls) ∧ existsb is_upgrade calls = true.

Definition reports_connection_error (o : outcome (chime_connection * list call)) : Prop :=
  ∃ cxn calls, o = Returns (cxn, calls) ∧
    existsb is_connection_error calls = true ∧ existsb is_upgrade calls = false.

(** Sample data for the examples below. *)
Module Sample.

Definition parser (_ : string) : GError + option JsonNode :=
  inr (Some (JsonObject [("SessionToken", JsonString "fresh")])).

Definition cxn : chime_connection :=
  {| session_token := Some "stale"; session_id := Some "sess-1";
     profile_url := "https://profile.example/"; websocket_url := "https://ws.example";
     msg_queue := []; next_addr := 0 |}.

Definition request (path : string) : SoupMessage :=
  soup_message_headers_append
    (soup_message_new_from_uri "GET" (soup_uri_new path))
    "Cookie" "_aws_wt_session=stale".


Definition response (status : Z) (reason : string) (body : string) : SoupMessage :=
  {| method := "POST"; uri := soup_uri_new "https://profile.example/tokens";
     request_headers := []; request_body := None;
     status_code := status; reason_phrase := reason;
     response_content_type := Some "application/json";
     response_body_data := Some body |}.

Definition negotiation (body : string) : SoupMessage :=
  {| method := "GET"; uri := soup_uri_new "https://ws.example/1";
     request_headers := []; request_body := None;
     status_code := 200; reason_phrase := "OK";
     response_content_type := Some "text/plain";
     response_body_data := Some body |}.

Definition cxn_parked : chime_connection :=
  set_msg_queue cxn
    [{| cmsg_addr := 0; cmsg_msg := request "/a"; cmsg_cb := ws_cb_ptr |}] 1.

End Sample.

End Chime.

(** ** chime.c: login and device registration *)

Module Login.
Import Json Glib.

(** [struct chime_connection] while the plugin logs in: the registration
    document, the websocket, and the strings [parse_regnode] fills.
    Every field is [NULL] after [g_new0]. *)
Record chime_connection := {
  reg_node : option JsonNode;
  ws_conn : option nat;
  session_token : option string;
  session_id : option string;
  profile_channel : option string;
  device_id : option string;
  device_channel : option string;
  presence_url : option string;
  reachability_url : option string;
  websocket_url : option string;
  profile_url : option string;
  contacts_url : option string;
  messaging_url : option string;
  conference_url : option string;
}.

Definition g_new0 : chime_connection :=
  {| reg_node := None; ws_conn := None; session_token := None; session_id := None;
     profile_channel := None; device_id := None; device_channel := None;
     presence_url := None; reachability_url := None; websocket_url := None;
     profile_url := None; contacts_url := None; messaging_url := None;
     conference_url := None |}.

(** The address of a string field, as in [&cxn->session_id]. *)
Inductive field :=
| session_token_ptr | session_id_ptr | profile_channel_ptr | device_id_ptr
| device_channel_ptr | presence_url_ptr | reachability_url_ptr | websocket_url_ptr
| profile_url_ptr | contacts_url_ptr | messaging_url_ptr | conference_url_ptr.

#[global] Instance field_eq_dec : EqDecision field.
Proof. solve_decision. Defined.

Definition load (cxn : chime_connection) (p : field) : option string :=
  match p with
  | session_token_ptr => session_token cxn
  | session_id_ptr => session_id cxn
  | profile_channel_ptr => profile_channel cxn
  | device_id_ptr => device_id cxn
  | device_channel_ptr => device_channel cxn
  | presence_url_ptr => presence_url cxn
  | reachability_url_ptr => reachability_url cxn
  | websocket_url_ptr => websocket_url cxn
  | profile_url_ptr => profile_url cxn
  | contacts_url_ptr => contacts_url cxn
  | messaging_url_ptr => messaging_url cxn
  | conference_url_ptr => conference_url cxn
  end.

Definition store (cxn : chime_connection) (p : field) (v : option string)
  : chime_connection :=
  let at_ q old := if decide (p = q) then v else old in
  {| reg_node := reg_node cxn; ws_conn := ws_conn cxn;
     session_token := at_ session_token_ptr (session_token cxn);
     session_id := at_ session_id_ptr (session_id cxn);
     profile_channel := at_ profile_channel_ptr (profile_channel cxn);
     device_id := at_ device_id_ptr (device_id cxn);
     device_channel := at_ device_channel_ptr (device_channel cxn);
     presence_url := at_ presence_url_ptr (presence_url cxn);
     reachability_url := at_ reachability_url_ptr (reachability_url cxn);
     websocket_url := at_ websocket_url_ptr (websocket_url cxn);
     profile_url := at_ profile_url_ptr (profile_url cxn);
     contacts_url := at_ contacts_url_ptr (contacts_url cxn);
     messaging_url := at_ messaging_url_ptr (messaging_url cxn);
     conference_url := at_ conference_url_ptr (conference_url cxn) |}.

Definition set_reg_node (cxn : chime_connection) (node : option JsonNode)
  : chime_connection :=
  {| reg_node := node; ws_conn := ws_conn cxn;
     session_token := session_token cxn; session_id := session_id cxn;
     profile_channel := profile_channel cxn; device_id := device_id cxn;
     device_channel := device_channel cxn; presence_url := presence_url cxn;
     reachability_url := reachability_url cxn; websocket_url := websocket_url cxn;
     profile_url := profile_url cxn; contacts_url := contacts_url cxn;
     messaging_url := messaging_url cxn; conference_url := conference_url cxn |}.

Definition set_ws_conn (cxn : chime_connection) (ws : option nat) : chime_connection :=
  {| reg_node := reg_node cxn; ws_conn := ws;
     session_token := session_token cxn; session_id := session_id cxn;
     profile_channel := profile_channel cxn; device_id := device_id cxn;
     device_channel := device_channel cxn; presence_url := presence_url cxn;
     reachability_url := reachability_url cxn; websocket_url := websocket_url cxn;
     profile_url := profile_url cxn; contacts_url := contacts_url cxn;
     messaging_url := messaging_url cxn; conference_url := conference_url cxn |}.

(** A step of [parse_regnode]: the gboolean it yields and the connection
    it leaves.  [a &> b] runs [b] only after [a] yielded TRUE, as the
    [if (!a || !b) return FALSE;] of the source does. *)
Definition step : Type := chime_connection → bool * chime_connection.

Definition and_then (a b : step) : step :=
  λ cxn, let '(ok, cxn) := a cxn in if ok then b cxn else (false, cxn).

Infix "&>" := and_then (at level 41, right associativity).

(** [parse_string (parent, name, &cxn->field)]. *)
Definition parse_string_at (parent : option JsonNode) (name : string) (res : field) : step :=
  λ cxn, let '(ok, str) := parse_string parent name (load cxn res) in (ok, store cxn res str).

(** [if (!node) return FALSE;] *)
Definition non_null (node : option JsonNode) : step :=
  λ cxn, (bool_decide (is_Some node), cxn).

(** [parse_regnode].  The source reads [cxn->reg_node], not its second
    parameter (the caller passes the same node). *)
Definition parse_regnode (cxn : chime_connection)
  : bool * chime_connection * list Chime.call :=
  let obj := json_node_get_object (reg_node cxn) in
  let sess_node := json_object_get_member obj "Session" in
  match sess_node with
  | None => (false, cxn, [])
  | Some _ =>
      match parse_string sess_node "SessionToken" None with
      | (true, Some sess_tok) =>
          let cxn := store cxn session_token_ptr (Some sess_tok) in
          let obj := json_node_get_object sess_node in
          let profile := json_object_get_member obj "Profile" in
          let device := json_object_get_member obj "Device" in
          let config := json_object_get_member obj "ServiceConfig" in
          let obj := json_node_get_object config in
          let member name := json_object_get_member obj name in
          let '(ok, cxn) :=
            (parse_string_at profile "id" session_id_ptr
             &> parse_string_at profile "profile_channel" profile_channel_ptr
             &> parse_string_at device "DeviceId" device_id_ptr
             &> parse_string_at device "Channel" device_channel_ptr
             &> non_null config
             &> parse_string_at (member "Presence") "RestUrl" presence_url_ptr
             &> parse_string_at (member "Push") "ReachabilityUrl" reachability_url_ptr
             &> parse_string_at (member "Push") "WebsocketUrl" websocket_url_ptr
             &> parse_string_at (member "Profile") "RestUrl" profile_url_ptr
             &> parse_string_at (member "Contacts") "RestUrl" contacts_url_ptr
             &> parse_string_at (member "Messaging") "RestUrl" messaging_url_ptr
             &> parse_string_at (member "Presence") "RestUrl" presence_url_ptr
             &> parse_string_at (member "Conference") "RestUrl" conference_url_ptr) cxn in
          (ok, cxn, [Chime.purple_account_set_string "token" sess_tok])
      | _ => (false, cxn, [])
      end
  end.

(** A step that leaves the registration document and the websocket alone. *)
Definition keeps_document (a : step) : Prop :=
  ∀ cxn, reg_node (a cxn).2 = reg_node cxn ∧ ws_conn (a cxn).2 = ws_conn cxn.

(** The member reached from [node] by the names of [path], object by object. *)
Fixpoint json_path (node : option JsonNode) (path : list string) : option JsonNode :=
  match path with
  | [] => node
  | name :: rest => json_path (json_object_get_member (json_node_get_object node) name) rest
  end.

Definition string_at (node : option JsonNode) (path : list string) : option string :=
  json_node_get_string (json_path node path).

(** Where a registration document holds each string of the connection. *)
Definition registration_paths : list (list string * field) :=
  [(["Session"; "SessionToken"], session_token_ptr);
   (["Session"; "Profile"; "id"], session_id_ptr);
   (["Session"; "Profile"; "profile_channel"], profile_channel_ptr);
   (["Session"; "Device"; "DeviceId"], device_id_ptr);
   (["Session"; "Device"; "Channel"], device_channel_ptr);
   (["Session"; "ServiceConfig"; "Presence"; "RestUrl"], presence_url_ptr);
   (["Session"; "ServiceConfig"; "Push"; "ReachabilityUrl"], reachability_url_ptr);
   (["Session"; "ServiceConfig"; "Push"; "WebsocketUrl"], websocket_url_ptr);
   (["Session"; "ServiceConfig"; "Profile"; "RestUrl"], profile_url_ptr);
   (["Session"; "ServiceConfig"; "Contacts"; "RestUrl"], contacts_url_ptr);
   (["Session"; "ServiceConfig"; "Messaging"; "RestUrl"], messaging_url_ptr);
   (["Session"; "ServiceConfig"; "Conference"; "RestUrl"], conference_url_ptr)].

(** The text handed to [purple_connection_error_reason] while logging in. *)
Inductive error_text :=
| Device_registration_failed (e : Chime.GError)
| Failed_to_process_registration_response
| Websocket_connection_error (message : string).

Inductive PurpleConnectionState :=
| PURPLE_DISCONNECTED | PURPLE_CONNECTED | PURPLE_CONNECTING.

(** Calls into libsoup, GLib and libpurple, in program order; [chime_call]
    is a call the request code of [Chime] records. *)
Inductive call :=
| chime_call (c : Chime.call)
| purple_connection_error_reason_NETWORK_ERROR (description : error_text)
| purple_connection_set_protocol_data
| soup_session_add_feature_logger
| g_object_set_ssl_strict (strict : bool)
| g_signal_connect_closed (ws : nat)
| purple_connection_set_state (state : PurpleConnectionState).

(** The connection as the request code of [Chime] reads it once
    registration has filled it: no request is parked yet.  (A URL still
    [NULL] is written as the empty string; [register_cb] and [ws_cb]
    read the URLs only after [parse_regnode] has set them.) *)
Definition established (cxn : chime_connection) : Chime.chime_connection :=
  {| Chime.session_token := session_token cxn;
     Chime.session_id := session_id cxn;
     Chime.profile_url := default "" (profile_url cxn);
     Chime.websocket_url := default "" (websocket_url cxn);
     Chime.msg_queue := []; Chime.next_addr := 0 |}.

Definition chime_device_register_req : JsonNode :=
  JsonObject
    [("Device",
      JsonObject [("Platform", JsonString "android");
                  ("DeviceToken", JsonString "not-a-real-device-not-even-android");
                  ("UaChannelToken", JsonString "blah42");
                  ("Capabilities", JsonInt 1234)])].

(** [result] is what [soup_session_websocket_connect_finish] gives: the
    connection, or the message of the error it set. *)
Definition ws2_cb (cxn : chime_connection) (result : string + nat)
  : chime_connection * list call :=
  match result with
  | inl message =>
      (set_ws_conn cxn None,
       [purple_connection_error_reason_NETWORK_ERROR (Websocket_connection_error message)])
  | inr ws =>
      (set_ws_conn cxn (Some ws),
       [g_signal_connect_closed ws; purple_connection_set_state PURPLE_CONNECTED])
  end.

Section WithParser.

Variable json_parser : string → Chime.GError + option JsonNode.

Definition register_cb (cxn : chime_connection) (msg : Chime.SoupMessage)
  : outcome (chime_connection * list call) :=
  match Chime.process_soup_response json_parser msg with
  | (None, Some error) =>
      Returns (set_reg_node cxn None,
               [purple_connection_error_reason_NETWORK_ERROR
                  (Device_registration_failed error)])
  | (None, None) => Undefined (* error->message with error == NULL *)
  | (Some node, _) =>
      let cxn := set_reg_node cxn (Some node) in
      let '(ok, cxn, calls) := parse_regnode cxn in
      if negb ok then
        Returns (cxn,
                 (chime_call <$> calls)
                 ++ [purple_connection_error_reason_NETWORK_ERROR
                       Failed_to_process_registration_response])
      else
        let uri := Chime.soup_uri_new_printf (Chime.websocket_url (established cxn)) "/1" in
        let uri := Chime.soup_uri_set_query_from_fields uri "session_uuid" (session_id cxn) in
        Returns (cxn,
                 (chime_call <$> calls)
                 ++ [chime_call (Chime.purple_connection_update_progress
                                   "Obtaining WebSocket params..." 2 Chime.CONNECT_STEPS)]
                 ++ (chime_call <$> Chime.chime_queue_http_request (established cxn)
                                      None uri Chime.ws_cb_ptr))
  end.

End WithParser.

Definition SIGNIN_DEFAULT : string := "https://signin.id.ue1.app.chime.aws/".

(** [chime_purple_login].  [account] holds the settings of the account
    ([purple_account_get_string] looks a name up in it); [chime_debug] is
    [atoi (getenv ("CHIME_DEBUG"))], [None] when the variable is unset. *)
Definition chime_purple_login (account : gmap string string) (chime_debug : option Z)
  : outcome (chime_connection * list call) :=
  match account !! "token" with
  | None => Undefined (* cxn->prpl_conn, read before cxn is assigned *)
  | Some token =>
      let cxn := g_new0 in
      let debug :=
        match chime_debug with
        | Some level =>
            if 0 <? level then [soup_session_add_feature_logger; g_object_set_ssl_strict false]
            else []
        | None => []
        end in
      let node := chime_device_register_req in
      let uri := Chime.soup_uri_new_printf
                   (default SIGNIN_DEFAULT (account !! "server")) "/sessions" in
      let uri := Chime.soup_uri_set_query_from_fields uri "Token" (Some token) in
      Returns (cxn,
               [purple_connection_set_protocol_data] ++ debug
               ++ [chime_call (Chime.purple_connection_update_progress
                                 "Connecting..." 1 Chime.CONNECT_STEPS)]
               ++ (chime_call <$> Chime.chime_queue_http_request (established cxn)
                                    (Some node) uri Chime.register_cb_ptr))
  end.

(** The progress steps a run reported to the host, and whether it
    reported a connection error. *)
Definition progress_steps (calls : list call) : list (Z * Z) :=
  omap (λ c, match c with
             | chime_call (Chime.purple_connection_update_progress _ step count) =>
                 Some (step, count)
             | _ => None
             end) calls.

Definition is_connection_error (c : call) : bool :=
  match c with
  | purple_connection_error_reason_NETWORK_ERROR _ => true
  | chime_call (Chime.purple_connection_error_reason_NETWORK_ERROR _) => true
  | _ => false
  end.

Definition queued_requests (calls : list call)
  : list (Chime.SoupMessage * Chime.SoupSessionCallback) :=
  omap (λ c, match c with
             | chime_call (Chime.soup_session_queue_message msg cb) => Some (msg, cb)
             | _ => None
             end) calls.

Module Sample.

Definition registration : JsonNode :=
  JsonObject
    [("Session",
      JsonObject
        [("SessionToken", JsonString "tok-1");
         ("Profile", JsonObject [("id", JsonString "prof-1");
                                 ("profile_channel", JsonString "chan-prof")]);
         ("Device", JsonObject [("DeviceId", JsonString "dev-1");
                                ("Channel", JsonString "chan-dev")]);
         ("ServiceConfig",
          JsonObject
            [("Presence", JsonObject [("RestUrl", JsonString "https://presence.example")]);
             ("Push", JsonObject [("ReachabilityUrl", JsonString "https://reach.example");
                                  ("WebsocketUrl", JsonString "https://ws.example")]);
             ("Profile", JsonObject [("RestUrl", JsonString "https://profile.example")]);
             ("Contacts", JsonObject [("RestUrl", JsonString "https://contacts.example")]);
             ("Messaging", JsonObject [("RestUrl", JsonString "https://messaging.example")]);
             ("Conference",
              JsonObject [("RestUrl", JsonString "https://conference.example")])])])].

Definition parser (_ : string) : Chime.GError + option JsonNode :=
  inr (Some registration).

Definition account : gmap string string := {["token" := "long-lived"]}.

Definition response : Chime.SoupMessage :=
  {| Chime.method := "POST";
     Chime.uri := Chime.soup_uri_new "https://signin.id.ue1.app.chime.aws/sessions";
     Chime.request_headers := []; Chime.request_body := Some chime_device_register_req;
     Chime.status_code := 201; Chime.reason_phrase := "Created";
     Chime.response_content_type := Some "application/json";
     Chime.response_body_data := Some "{}" |}.

End Sample.

End Login.

(** ** chat.c: chat rooms *)

Module Chat.
Import Json Glib.

Record GTimeVal := { tv_sec : Z; tv_usec : Z }.

(** Library functions, library tables and the helper of chime.c this
    embedding leaves abstract.  [parse_time parent name time_str tv]
    takes the contents of [*time_str] and [*tv] on entry and gives them
    back on exit, next to the gboolean returned.  [unicode_word_bytes s]
    stands for the Unicode tables of the regex library: for a text [s]
    that begins with a character outside ASCII, the number of bytes of
    that character in UTF-8 when the tables class it as a word
    character (a letter or a digit), and 0 when they do not. *)
Class External := {
  g_markup_escape_text : string → string;
  g_time_val_from_iso8601 : string → option GTimeVal;
  parse_time : option JsonNode → string → option string → GTimeVal
               → bool * option string * GTimeVal;
  unicode_word_bytes : string → nat;
}.

(** *** Mentions *)

Section Mentions.
Context `{External}.

(** The character class [[\w\-]] of [MENTION_PATTERN] on ASCII: letters,
    digits, underscore and hyphen. *)
Definition is_word_or_hyphen (c : ascii) : bool :=
  let n := nat_of_ascii c in
  bool_decide (48 ≤ n ≤ 57)%nat || bool_decide (65 ≤ n ≤ 90)%nat
  || bool_decide (97 ≤ n ≤ 122)%nat || bool_decide (n = 95)%nat
  || bool_decide (n = 45)%nat.

(** [[\w\-]] at the head of [s]: the number of bytes of the character
    there when the class takes it, 0 when it does not.  GLib compiles
    the pattern for UTF-8 with Unicode properties, so that a letter or
    digit outside ASCII is a word character too: an ASCII byte is judged
    by [is_word_or_hyphen], any other character by the tables.  The text
    is valid UTF-8, as GRegex requires of its subject. *)
Definition word_bytes (s : string) : nat :=
  match s with
  | String c _ =>
      if decide (nat_of_ascii c < 128)%nat
      then (if is_word_or_hyphen c then 1%nat else 0%nat)
      else unicode_word_bytes s
  | "" => 0%nat
  end.

(** Whether a newline starts here; [.] matches anything else.  GLib lets
    any Unicode newline end a line: LF, VT, FF, CR, and in UTF-8
    NEL (C2 85), LS (E2 80 A8) and PS (E2 80 A9). *)
Definition newline_at (s : string) : bool :=
  match s with
  | String c s' =>
      let n := nat_of_ascii c in
      bool_decide (10 ≤ n ≤ 13)%nat
      || match s' with
         | String d s'' =>
             (bool_decide (n = 194)%nat && bool_decide (nat_of_ascii d = 133)%nat)
             || match s'' with
                | String e _ =>
                    bool_decide (n = 226)%nat && bool_decide (nat_of_ascii d = 128)%nat
                    && bool_decide (168 ≤ nat_of_ascii e ≤ 169)%nat
                | "" => false
                end
         | "" => false
         end
  | "" => false
  end.

(** [[\w\-]+] is greedy: the longest run of characters of the class at
    the head of [s], and the rest.  [inside] counts the bytes still to
    take of a character the class has taken. *)
Fixpoint span_word_from (inside : nat) (s : string) : string * string :=
  match s with
  | String c s' =>
      match inside with
      | S n => let '(w, r) := span_word_from n s' in (String c w, r)
      | O =>
          match word_bytes s with
          | S n => let '(w, r) := span_word_from n s' in (String c w, r)
          | O => ("", s)
          end
      end
  | "" => ("", "")
  end.

Definition span_word (s : string) : string * string := span_word_from 0 s.

(** [(.*?)&gt;] is lazy: up to the first [&gt;], with no newline before it. *)
Fixpoint lazy_until_gt (s : string) : option (string * string) :=
  if String.prefix "&gt;" s then Some ("", Str.drop 4 s)
  else if newline_at s then None
  else match s with
       | "" => None
       | String c s' =>
           match lazy_until_gt s' with
           | Some (name, rest) => Some (String c name, rest)
           | None => None
           end
       end.

(** A match of [MENTION_PATTERN], ["&lt;@([\\w\\-]+)\\|(.*?)&gt;"], at the
    head of [s]: the two groups and the text after the match. *)
Definition mention_match (s : string) : option (string * string * string) :=
  if String.prefix "&lt;@" s then
    let '(id, r) := span_word (Str.drop 5 s) in
    if decide (id = "") then None
    else match r with
         | String "|"%char r' =>
             match lazy_until_gt r' with
             | Some (name, rest) => Some (id, name, rest)
             | None => None
             end
         | _ => None
         end
  else None.

(** The scan of [g_regex_replace] with [MENTION_REPLACEMENT],
    ["<b>\\2</b>"]: each match, left to right, gives way to its second
    group in bold; the scan resumes after the match. *)
Fixpoint mention_replace_loop (fuel : nat) (s : string) : string :=
  match fuel with
  | O => s
  | S fuel' =>
      match mention_match s with
      | Some (_, name, rest) => "<b>" +:+ name +:+ "</b>" +:+ mention_replace_loop fuel' rest
      | None =>
          match s with
          | "" => ""
          | String c s' => String c (mention_replace_loop fuel' s')
          end
      end
  end.

Definition mention_replace (message : string) : string :=
  mention_replace_loop (String.length message) message.

(** [g_regex_replace (mention_regex, message, -1, 0, MENTION_REPLACEMENT, 0, NULL)]. *)
Definition g_regex_replace_mentions (message : string) : option string :=
  Some (mention_replace message).

(** Returns whether [me] was mentioned, and the new string in [*parsed]. *)
Definition parse_inbound_mentions (profile_id : string) (message : string)
  : bool * option string :=
  let parsed := g_regex_replace_mentions message in
  (bool_decide (is_Some (strstr message profile_id))
   || bool_decide (is_Some (strstr message "&lt;@all|"))
   || bool_decide (is_Some (strstr message "&lt;@present|")),
   parsed).

Definition replace (dst : option string) (a b : string) : option string :=
  let parts := g_strsplit dst a 0 in
  g_strjoinv b parts.

Record chat_member := {
  member_id : string;
  email : string;
  display_name : string;
}.

Definition expand_member_cb (member_id_ : string) (member : chat_member)
    (dest : option string) : option string :=
  let chime_mention := "<@" +:+ member_id_ +:+ "|" +:+ display_name member +:+ ">" in
  replace dest (display_name member) chime_mention.

(** [members] lists the entries of the hash table in the order
    [g_hash_table_foreach] visits them. *)
Definition parse_outbound_mentions (members : list (string * chat_member))
    (message : string) : option string :=
  let parsed := Some message in
  let parsed := replace parsed "@all" "<@all|All Members>" in
  let parsed := replace parsed "@present" "<@present|Present Members>" in
  foldl (λ parsed entry, expand_member_cb entry.1 entry.2 parsed) parsed members.

(** What the specification's words say of one rewriting: reading [s]
    from the left, each occurrence of [a] gives way to [b], and the
    reading resumes after the occurrence. *)
Fixpoint rewrite_each_loop (fuel : nat) (a b s : string) : string :=
  match fuel with
  | O => s
  | S fuel' =>
      if String.prefix a s then
        b +:+ rewrite_each_loop fuel' a b (Str.drop (String.length a) s)
      else match s with
           | "" => ""
           | String c s' => String c (rewrite_each_loop fuel' a b s')
           end
  end.

Definition rewrite_each (a b s : string) : string :=
  rewrite_each_loop (S (String.length s)) a b s.

Definition wire_mention (entry : string * chat_member) : string :=
  "<@" +:+ entry.1 +:+ "|" +:+ display_name entry.2 +:+ ">".

(** The outbound rewriting in the specification's words, step by step:
    [@all], then [@present], then each member in the order of the table,
    every step reading the text the steps before it produced. *)
Definition rewrite_outbound (members : list (string * chat_member)) (message : string)
  : string :=
  foldl (λ text entry, rewrite_each (display_name entry.2) (wire_mention entry) text)
    (rewrite_each "@present" "<@present|Present Members>"
       (rewrite_each "@all" "<@all|All Members>" message))
    members.

(** A member id in ASCII: letters, digits, underscores and hyphens only. *)
Fixpoint all_word (s : string) : bool :=
  match s with
  | "" => true
  | String c s' => is_word_or_hyphen c && all_word s'
  end.

(** An id as the pattern takes it: in front of [|], the class takes the
    whole of [id] and nothing more. *)
Definition word_run (id : string) : Prop :=
  ∀ r, span_word (id +:+ String "|" r) = (id, String "|" r).

(** No newline starts anywhere in the string. *)
Fixpoint no_newline (s : string) : bool :=
  match s with
  | "" => true
  | String _ s' => negb (newline_at s) && no_newline s'
  end.

(** The inbound rewriting in the specification's words.  A text is
    given by its pieces, each a plain segment followed by one wire
    mention [&lt;@id|name&gt;], and by the plain text after the last
    mention; its display has each mention give way to its name in bold
    and keeps the plain text. *)
Fixpoint wire_text (pieces : list (string * string * string)) (last : string) : string :=
  match pieces with
  | [] => last
  | (plain, id, name) :: rest =>
      plain +:+ "&lt;@" +:+ id +:+ "|" +:+ name +:+ "&gt;" +:+ wire_text rest last
  end.

Fixpoint display_text (pieces : list (string * string * string)) (last : string) : string :=
  match pieces with
  | [] => last
  | (plain, id, name) :: rest =>
      plain +:+ "<b>" +:+ name +:+ "</b>" +:+ display_text rest last
  end.

(** A piece that reads as it is written: no mention opens in the plain
    segment, the id is one the class takes whole, and the name holds
    neither a newline nor [&gt;]. *)
Definition reads_as_written (piece : string * string * string) : Prop :=
  strstr piece.1.1 "&lt;@" = None
  ∧ piece.1.2 ≠ "" ∧ word_run piece.1.2
  ∧ strstr piece.2 "&gt;" = None ∧ no_newline piece.2 = true.

End Mentions.

(** *** The structs *)

Definition SoupMessage_ptr := nat.

(** A [ChimeRoom] object, at its address, with the properties read here. *)
Record ChimeRoom := {
  room_ptr : nat;
  room_id : string;
  room_name : string;
  room_channel : string;
}.

(** [struct chime_msgs], the "superclass" of a chat (declared in chime.h):
    the fields chat.c reads and writes.  [messages] is the in-progress
    buffer, [NULL] when no history is being gathered. *)
Record chime_msgs := {
  is_room : bool;
  msgs_id : option string;
  soup_msg : option SoupMessage_ptr;
  messages : option (gmap string JsonNode);
  msgs_done : bool;
  members_done : bool;
}.

(** [struct chime_chat].  [conv] is the PurpleConversation, by the chat
    id [do_join_chat] gave it; a pointer to the struct is written as
    that id too, the key under which [live_chats] holds the struct. *)
Record chime_chat := {
  msgs : chime_msgs;
  room : ChimeRoom;
  id : string;
  conv : Z;
  members_msg : option SoupMessage_ptr; (* For cancellation *)
  got_members : bool;
  members : gmap string chat_member;
  sent_msgs : gset string;
}.

Definition set_msgs (chat : chime_chat) (m : chime_msgs) : chime_chat :=
  {| msgs := m; room := room chat; id := id chat; conv := conv chat;
     members_msg := members_msg chat; got_members := got_members chat;
     members := members chat; sent_msgs := sent_msgs chat |}.

Definition set_members_msg (chat : chime_chat) (m : option SoupMessage_ptr) : chime_chat :=
  {| msgs := msgs chat; room := room chat; id := id chat; conv := conv chat;
     members_msg := m; got_members := got_members chat;
     members := members chat; sent_msgs := sent_msgs chat |}.

Definition set_members (chat : chime_chat) (m : gmap string chat_member) : chime_chat :=
  {| msgs := msgs chat; room := room chat; id := id chat; conv := conv chat;
     members_msg := members_msg chat; got_members := got_members chat;
     members := m; sent_msgs := sent_msgs chat |}.

Definition set_sent_msgs (chat : chime_chat) (s : gset string) : chime_chat :=
  {| msgs := msgs chat; room := room chat; id := id chat; conv := conv chat;
     members_msg := members_msg chat; got_members := got_members chat;
     members := members chat; sent_msgs := s |}.

Definition set_messages (m : chime_msgs) (t : option (gmap string JsonNode)) : chime_msgs :=
  {| is_room := is_room m; msgs_id := msgs_id m; soup_msg := soup_msg m;
     messages := t; msgs_done := msgs_done m; members_done := members_done m |}.

Definition set_members_done (m : chime_msgs) (b : bool) : chime_msgs :=
  {| is_room := is_room m; msgs_id := msgs_id m; soup_msg := soup_msg m;
     messages := messages m; msgs_done := msgs_done m; members_done := b |}.

(** What the connection supplies: [priv->profile_id],
    [priv->messaging_url] and [purple_connection_get_display_name]. *)
Record connection_info := {
  profile_id : string;
  messaging_url : string;
  connection_display_name : option string;
}.

(** libpurple's message and chat-buddy flags. *)
Definition PURPLE_MESSAGE_SEND : Z := 0x0001.
Definition PURPLE_MESSAGE_RECV : Z := 0x0002.
Definition PURPLE_MESSAGE_NICK : Z := 0x0020.
Definition PURPLE_MESSAGE_ERROR : Z := 0x0200.

Inductive PurpleConvChatBuddyFlags := PURPLE_CBFLAGS_AWAY | PURPLE_CBFLAGS_VOICE.

Inductive http_callback := fetch_members_cb_ptr | fetch_msgs_cb_ptr | send_msg_cb_ptr.
Inductive jugg_callback :=
  chat_msg_jugg_cb_ptr | chat_membership_jugg_cb_ptr | chat_demuxing_jugg_cb_ptr.

#[global] Instance http_callback_eq_dec : EqDecision http_callback.
Proof. solve_decision. Defined.
#[global] Instance jugg_callback_eq_dec : EqDecision jugg_callback.
Proof. solve_decision. Defined.

(** The [cb_data] of a callback: a chat or the connection. *)
Inductive cb_data := chat_data (chat : Z) | cxn_data.

#[global] Instance cb_data_eq_dec : EqDecision cb_data.
Proof. solve_decision. Defined.

Inductive write_text := Failed_to_deliver_message (status : Z) (reason : string).

(** Calls that leave chat.c, in program order: to the host (libpurple),
    to the request queue and the juggernaut channel of chime.c, and to
    the history engine. *)
Inductive call :=
| serv_got_chat_in (id : Z) (who : option string) (flags : Z)
    (message : option string) (mtime : Z)
| purple_conversation_write (conv : Z) (message : write_text) (flags : Z) (mtime : Z)
| purple_conv_chat_add_user (conv : Z) (user : string)
    (flags : PurpleConvChatBuddyFlags) (new_arrival : bool)
| purple_conv_chat_user_set_flags (conv : Z) (user : string)
    (flags : PurpleConvChatBuddyFlags)
| serv_got_joined_chat (id : Z) (name : string)
| serv_got_chat_left (id : Z)
| chime_update_last_msg (is_room_ : bool) (id : string) (msg_time : option string)
    (msg_id : string)
| chime_complete_messages (chat : Z)
| fetch_messages (chat : Z) (next_token : option string)
| chime_connection_queue_http_request (queued : SoupMessage_ptr) (node : option JsonNode)
    (uri : Chime.SoupURI) (method : string) (callback : http_callback) (data : cb_data)
| soup_session_cancel_message (msg : SoupMessage_ptr) (status_code : Z)
| chime_jugg_subscribe (channel klass : string) (cb : jugg_callback) (data : cb_data)
| chime_jugg_unsubscribe (channel klass : string) (cb : jugg_callback) (data : cb_data).

(** The conversation a call to the host is about. *)
Definition host_call_of (c : call) : option Z :=
  match c with
  | serv_got_chat_in id _ _ _ _ => Some id
  | purple_conversation_write conv _ _ _ => Some conv
  | purple_conv_chat_add_user conv _ _ _ => Some conv
  | purple_conv_chat_user_set_flags conv _ _ => Some conv
  | serv_got_joined_chat id _ => Some id
  | serv_got_chat_left id => Some id
  | _ => None
  end.

Definition is_delivery (c : call) : bool :=
  match c with serv_got_chat_in _ _ _ _ _ => true | _ => false end.

Definition is_complete (c : call) : bool :=
  match c with chime_complete_messages _ => true | _ => false end.

Definition is_add_user (c : call) : bool :=
  match c with purple_conv_chat_add_user _ _ _ _ => true | _ => false end.


(** Whether a message node holds the two strings without which
    [parse_incoming_msg] returns before it delivers. *)
Definition has_content_and_sender (node : option JsonNode) : bool :=
  (parse_string node "Content" None).1 && (parse_string node "Sender" None).1.

Section WithExternal.
Context `{External}.

(** *** Delivery *)

Definition parse_incoming_msg (cxn : connection_info) (chat : chime_chat)
    (node : option JsonNode) (msg_time : Z) : list call :=
  match parse_string node "Content" None, parse_string node "Sender" None with
  | (true, Some content), (true, Some sender) =>
      let '(from, msg_flags) :=
        if decide (sender = profile_id cxn) then
          (connection_display_name cxn, PURPLE_MESSAGE_SEND)
        else
          (match members chat !! sender with
           | Some who => Some (display_name who)
           | None => Some "Unknown sender"
           end, PURPLE_MESSAGE_RECV) in
      let escaped := g_markup_escape_text content in
      let '(mentioned, parsed) := parse_inbound_mentions (profile_id cxn) escaped in
      let msg_flags :=
        if mentioned && negb (Z.land msg_flags PURPLE_MESSAGE_RECV =? 0)
        then Z.lor msg_flags PURPLE_MESSAGE_NICK (* Presumably this will trigger a notification. *)
        else msg_flags in
      [serv_got_chat_in (conv chat) from msg_flags parsed msg_time]
  | _, _ => []
  end.

Definition chat_deliver_msg (cxn : connection_info) (chat : chime_chat)
    (node : option JsonNode) (msg_time : Z) : chime_chat * list call :=
  match parse_string node "MessageId" None with
  | (true, Some msg_id) =>
      (* Eliminate duplicates with outbound messages *)
      if decide (msg_id ∈ sent_msgs chat) then
        (set_sent_msgs chat (sent_msgs chat ∖ {[msg_id]}), [])
      else (chat, parse_incoming_msg cxn chat node msg_time)
  | _ => (chat, parse_incoming_msg cxn chat node msg_time)
  end.

Definition add_chat_member (chat : chime_chat) (node : option JsonNode)
  : chime_chat * list call * bool :=
  let obj := json_node_get_object node in
  match json_object_get_member obj "Member" with
  | None => (chat, [], false)
  | Some member =>
      match parse_string node "Presence" None with
      | (true, Some presence) =>
          let flags :=
            if decide (presence = "notPresent") then Some PURPLE_CBFLAGS_AWAY
            else if decide (presence = "present") then Some PURPLE_CBFLAGS_VOICE
            else None in
          match flags with
          | None => (chat, [], false)
          | Some flags =>
              match parse_string (Some member) "ProfileId" None,
                    parse_string (Some member) "Email" None,
                    parse_string (Some member) "DisplayName" None with
              | (true, Some id_), (true, Some email_), (true, Some display_name_) =>
                  match members chat !! id_ with
                  | None =>
                      let m := {| member_id := id_; email := email_;
                                  display_name := display_name_ |} in
                      (set_members chat (<[id_ := m]> (members chat)),
                       [purple_conv_chat_add_user (conv chat) email_ flags
                          (members_done (msgs chat))],
                       true)
                  | Some _ =>
                      (chat, [purple_conv_chat_user_set_flags (conv chat) email_ flags], true)
                  end
              | _, _, _ => (chat, [], false)
              end
          end
      | _ => (chat, [], false)
      end
  end.

(** The three ways [add_chat_member] ends: the record is refused, a new
    member is put into the table and announced, or a member already in
    the table has its flags set. *)
Inductive member_added (chat : chime_chat) (node : option JsonNode)
  : chime_chat * list call * bool → Prop :=
| member_refused : member_added chat node (chat, [], false)
| member_new id_ email_ display_name_ flags :
    members chat !! id_ = None →
    member_added chat node
      (set_members chat
         (<[id_ := {| member_id := id_; email := email_;
                      display_name := display_name_ |}]> (members chat)),
       [purple_conv_chat_add_user (conv chat) email_ flags (members_done (msgs chat))],
       true)
| member_known id_ email_ flags :
    is_Some (members chat !! id_) →
    member_added chat node
      (chat, [purple_conv_chat_user_set_flags (conv chat) email_ flags], true).

(** [tv] is the local [tv] as it stands before [parse_time]. *)
Definition chat_msg_jugg_cb (cxn : connection_info) (chat : chime_chat)
    (data_node : option JsonNode) (tv : GTimeVal) : chime_chat * list call * bool :=
  let obj := json_node_get_object data_node in
  match json_object_get_member obj "record" with
  | None => (chat, [], false)
  | Some record =>
      match parse_string (Some record) "MessageId" None with
      | (true, Some msg_id) =>
          match messages (msgs chat) with
          | Some table =>
              (* Still gathering messages. Add to the table, to avoid dupes *)
              (set_msgs chat (set_messages (msgs chat) (Some (<[msg_id := record]> table))),
               [], true)
          | None =>
              match parse_time (Some record) "CreatedOn" None tv with
              | (true, msg_time, tv) =>
                  let '(chat', calls) :=
                    chat_deliver_msg cxn chat (Some record) (tv_sec tv) in
                  (chat', chime_update_last_msg true (id chat) msg_time msg_id :: calls, true)
              | (false, _, _) => (chat, [], false)
              end
          end
      | _ => (chat, [], false)
      end
  end.

Definition chat_membership_jugg_cb (chat : chime_chat) (data_node : option JsonNode)
  : chime_chat * list call * bool :=
  let obj := json_node_get_object data_node in
  match json_object_get_member obj "record" with
  | None => (chat, [], false)
  | Some record =>
      (* What abpout removal? *)
      add_chat_member chat (Some record)
  end.

(** *** Membership paging *)

(** [queued] is the message [chime_connection_queue_http_request] returns. *)
Definition fetch_chat_memberships (cxn : connection_info) (queued : SoupMessage_ptr)
    (chat : chime_chat) (next_token : option string)
  : chime_chat * list call :=
  let uri := Chime.soup_uri_new_printf (messaging_url cxn)
               ("/rooms/" +:+ id chat +:+ "/memberships") in
  let uri := {| Chime.uri_string := Chime.uri_string uri;
                Chime.uri_query :=
                  ("max-results", "50")
                  :: match next_token with
                     | Some token => [("next-token", token)]
                     | None => []
                     end |} in
  (set_members_msg chat (Some queued),
   [chime_connection_queue_http_request queued None uri "GET" fetch_members_cb_ptr
      (chat_data (conv chat))]).

(** [json_array_foreach_element (members_array, one_member_cb, chat)]. *)
Fixpoint foreach_member (chat : chime_chat) (elements : list JsonNode)
  : chime_chat * list call :=
  match elements with
  | [] => (chat, [])
  | node :: rest =>
      let '(chat, calls, _) := add_chat_member chat (Some node) in
      let '(chat, calls') := foreach_member chat rest in
      (chat, calls ++ calls')
  end.

(** [fetch_members_cb].  On the page that completes the room the call
    [chime_complete_messages (cxn, &chat->msgs)] is recorded.  The
    history engine it belongs to is not under src/, and what it does
    with the buffer and, through [chat->msgs.cb], with the sent-message
    table is not part of this function: the chat returned is the chat as
    it stands when that call is made. *)
Definition fetch_members_cb (cxn : connection_info) (queued : SoupMessage_ptr)
    (chat : chime_chat) (node : option JsonNode)
  : chime_chat * list call :=
  let obj := json_node_get_object node in
  let members_node := json_object_get_member obj "RoomMemberships" in
  let members_array := json_node_get_array members_node in
  let chat := set_members_msg chat None in
  let '(chat, calls) :=
    match members_array with
    | Some elements => foreach_member chat elements
    | None => (chat, [])
    end in
  match parse_string node "NextToken" None with
  | (true, Some next_token) =>
      let '(chat, calls') := fetch_chat_memberships cxn queued chat (Some next_token) in
      (chat, calls ++ calls')
  | _ =>
      let chat := set_msgs chat (set_members_done (msgs chat) true) in
      if msgs_done (msgs chat) then (chat, calls ++ [chime_complete_messages (conv chat)])
      else (chat, calls)
  end.

(** *** Sending *)

Definition SOUP_STATUS_IS_SUCCESSFUL (status : Z) : bool :=
  (200 <=? status) && (status <? 300).

(** [now] is what [time(NULL)] returns, [tv] the local [tv] as it
    stands before [parse_time], and [last_seen] the string
    [chime_read_last_msg] hands back when it returns TRUE. *)
Definition send_msg_cb (cxn : connection_info) (chat : chime_chat)
    (status_code : Z) (reason_phrase : string) (node : option JsonNode)
    (now : Z) (tv : GTimeVal) (last_seen : option string) : chime_chat * list call :=
  if negb (SOUP_STATUS_IS_SUCCESSFUL status_code) then
    (chat, [purple_conversation_write (conv chat)
              (Failed_to_deliver_message status_code reason_phrase)
              PURPLE_MESSAGE_ERROR now])
  else
    let obj := json_node_get_object node in
    match json_object_get_member obj "Message" with
    | None => (chat, [])
    | Some msgnode =>
        let tv :=
          match parse_time (Some msgnode) "CreatedOn" None tv with
          | (true, _, tv) => tv
          | (false, _, tv) => {| tv_sec := now; tv_usec := tv_usec tv |}
          end in
        (* If we have already received a message at least this new before
           the response to the creation arrived, then don't deliver it to
           Pidgin again.... *)
        let seen :=
          match last_seen with
          | Some last_seen =>
              match g_time_val_from_iso8601 last_seen with
              | Some seen_tv =>
                  (tv_sec tv <? tv_sec seen_tv)
                  || ((tv_sec seen_tv =? tv_sec tv) && (tv_usec tv <=? tv_usec seen_tv))
              | None => false
              end
          | None => false
          end in
        if seen then (chat, [])
        else
          (* If we're doing it, then stick it into the hash table so that
             chat_deliver_msg won't do it again when it does come back in. *)
          let chat :=
            match parse_string (Some msgnode) "MessageId" None with
            | (true, Some msg_id) => set_sent_msgs chat ({[msg_id]} ∪ sent_msgs chat)
            | _ => chat
            end in
          (chat, parse_incoming_msg cxn chat (Some msgnode) (tv_sec tv))
    end.


(** *** Runs *)

(** The membership pages of a room coming back one after the other; the
    request queue hands out consecutive messages from [queued] on. *)
Fixpoint membership_pages (cxn : connection_info) (queued : SoupMessage_ptr)
    (chat : chime_chat) (pages : list (option JsonNode)) : chime_chat * list call :=
  match pages with
  | [] => (chat, [])
  | node :: rest =>
      let '(chat, calls) := fetch_members_cb cxn queued chat node in
      let '(chat, calls') := membership_pages cxn (S queued) chat rest in
      (chat, calls ++ calls')
  end.

Definition has_next_token (node : option JsonNode) : bool :=
  (parse_string node "NextToken" None).1.

Definition next_token_of (node : option JsonNode) : option string :=
  (parse_string node "NextToken" None).2.

(** The query of each request a run queued. *)
Definition request_queries (calls : list call) : list (list (string * string)) :=
  omap (λ c, match c with
             | chime_connection_queue_http_request _ _ uri _ fetch_members_cb_ptr _ =>
                 Some (Chime.uri_query uri)
             | _ => None
             end) calls.

Definition page_query (node : option JsonNode) : list (string * string) :=
  ("max-results", "50")
  :: match next_token_of node with
     | Some token => [("next-token", token)]
     | None => []
     end.

End WithExternal.

(** *** Join and leave *)

(** The fields of [ChimeConnectionPrivate] chat.c uses.  [chat_id] is
    an [int]; [live_chats] holds each chat struct under its chat id;
    [chats_by_room] maps the address of a room to its chat. *)
Record ChimeConnectionPrivate := {
  info : connection_info;
  chat_id : Z;
  live_chats : gmap Z chime_chat;
  chats_by_room : gmap nat Z;
}.

(** [do_join_chat] returns the chat, by its id.  The id is the [int]
    counter after [++priv->chat_id]: one more than before, and [INT_MIN]
    after [INT_MAX].  The callback [chat->msgs.cb] is [chat_deliver_msg]
    for every chat and is not kept as a field.  [fetch_messages] belongs
    to the history engine; the call is recorded, and what it does to
    [chat->msgs] is not part of this function. *)
Definition do_join_chat (priv : ChimeConnectionPrivate) (queued : SoupMessage_ptr)
    (room_ : option ChimeRoom) : ChimeConnectionPrivate * option Z * list call :=
  match room_ with
  | None => (priv, None, [])
  | Some room_ =>
      match chats_by_room priv !! room_ptr room_ with
      | Some chat => (priv, Some chat, [])
      | None =>
          let chat_id_ := int_wrap (chat_id priv + 1) in (* ++priv->chat_id *)
          let chat :=
            {| msgs := {| is_room := true; msgs_id := Some (room_id room_);
                          soup_msg := None; messages := None;
                          msgs_done := false; members_done := false |};
               room := room_; id := room_id room_; conv := chat_id_;
               members_msg := None; got_members := false;
               members := ∅; sent_msgs := ∅ |} in
          let '(chat, calls) := fetch_chat_memberships (info priv) queued chat None in
          ({| info := info priv; chat_id := chat_id_;
              live_chats := <[chat_id_ := chat]> (live_chats priv);
              chats_by_room := <[room_ptr room_ := chat_id_]> (chats_by_room priv) |},
           Some chat_id_,
           [serv_got_joined_chat chat_id_ (room_name room_);
            chime_jugg_subscribe (room_channel room_) "RoomMessage"
              chat_msg_jugg_cb_ptr (chat_data chat_id_);
            chime_jugg_subscribe (room_channel room_) "RoomMembership"
              chat_membership_jugg_cb_ptr (chat_data chat_id_);
            fetch_messages chat_id_ None]
           ++ calls)
      end
  end.

Definition SOUP_STATUS_CANCELLED : Z := 1.

Definition cancel_if_queued (msg : option SoupMessage_ptr) : list call :=
  match msg with
  | Some m => [soup_session_cancel_message m SOUP_STATUS_CANCELLED]
  | None => []
  end.

Definition chime_destroy_chat (priv : ChimeConnectionPrivate) (chat : chime_chat)
  : ChimeConnectionPrivate * list call :=
  let id_ := conv chat in
  let channel := room_channel (room chat) in
  ({| info := info priv; chat_id := chat_id priv;
      live_chats := delete id_ (live_chats priv);
      chats_by_room := delete (room_ptr (room chat)) (chats_by_room priv) |},
   cancel_if_queued (soup_msg (msgs chat))
   ++ cancel_if_queued (members_msg chat)
   ++ [chime_jugg_unsubscribe channel "RoomMessage" chat_msg_jugg_cb_ptr (chat_data id_);
       chime_jugg_unsubscribe channel "RoomMembership" chat_membership_jugg_cb_ptr
         (chat_data id_);
       serv_got_chat_left id_]).

(** [chime_purple_chat_leave]: the chat is looked up by its id and
    destroyed; an id that is not live gives [NULL], which
    [chime_destroy_chat] reads through. *)
Definition chime_purple_chat_leave (priv : ChimeConnectionPrivate) (id_ : Z)
  : outcome (ChimeConnectionPrivate * list call) :=
  match live_chats priv !! id_ with
  | Some chat => Returns (chime_destroy_chat priv chat)
  | None => Undefined
  end.

(** *** The request queue and the juggernaut channel *)

Definition subscription : Type := string * string * jugg_callback * cb_data.

(** Modelled from the spec: the request queue and the juggernaut channel,
    whose code ([chime_connection_queue_http_request],
    [chime_jugg_subscribe], [chime_jugg_unsubscribe] and the dispatch of
    responses and events) is not under src/.  The requests in flight,
    each with its completion callback and context, and the
    subscriptions in registration order. *)
Record transport := {
  pending : gmap SoupMessage_ptr (http_callback * cb_data);
  subscriptions : list subscription;
}.

(** Unlink the first tuple equal to [x], if there is one. *)
Fixpoint remove_first (x : subscription) (l : list subscription) : list subscription :=
  match l with
  | [] => []
  | y :: l' => if decide (y = x) then l' else y :: remove_first x l'
  end.

(** Modelled from the spec: what a call of chat.c does to the queue and
    the channel, which are not under src/.  A queued request is pending;
    a cancelled request is no longer pending ("any callback for a
    cancelled operation must be suppressed"); a subscription is added
    last; "unsubscription removes a (channel, type, callback, context)
    tuple; behavior is a no-op if not found". *)
Definition apply_call (t : transport) (c : call) : transport :=
  match c with
  | chime_connection_queue_http_request queued _ _ _ callback data =>
      {| pending := <[queued := (callback, data)]> (pending t);
         subscriptions := subscriptions t |}
  | soup_session_cancel_message msg _ =>
      {| pending := delete msg (pending t); subscriptions := subscriptions t |}
  | chime_jugg_subscribe channel klass cb data =>
      {| pending := pending t;
         subscriptions := subscriptions t ++ [(channel, klass, cb, data)] |}
  | chime_jugg_unsubscribe channel klass cb data =>
      {| pending := pending t;
         subscriptions := remove_first (channel, klass, cb, data) (subscriptions t) |}
  | _ => t
  end.

Definition apply_calls (t : transport) (calls : list call) : transport :=
  foldl apply_call t calls.

Inductive event :=
| http_response (msg : SoupMessage_ptr) (status_code : Z) (node : option JsonNode)
| jugg_event (channel klass : string) (data_node : option JsonNode).

Inductive callback := on_response (cb : http_callback) | on_event (cb : jugg_callback).

(** Modelled from the spec: the dispatch of the queue and the channel,
    which is not under src/.  A response completes the request it
    answers if that request is still pending; an event is handed to
    "every registered subscription callback" with "exact (channel, type)
    match", "in registration order". *)
Definition callbacks_due (t : transport) (e : event) : list (callback * cb_data) :=
  match e with
  | http_response msg _ _ =>
      match pending t !! msg with
      | Some (cb, data) => [(on_response cb, data)]
      | None => []
      end
  | jugg_event channel klass _ =>
      omap (λ s : subscription,
              let '(channel', klass', cb, data) := s in
              if decide (channel' = channel ∧ klass' = klass)
              then Some (on_event cb, data) else None)
           (subscriptions t)
  end.

(** The context a call to the queue or the channel registers. *)
Definition registers (c : call) : option cb_data :=
  match c with
  | chime_connection_queue_http_request _ _ _ _ _ data => Some data
  | chime_jugg_subscribe _ _ _ data => Some data
  | _ => None
  end.

(** What a callback of chat.c running for a chat may call: the host
    about this chat's conversation, and the queue and the channel with
    this chat as context. *)
Definition own_call (chat : Z) (k : call) : Prop :=
  (host_call_of k = None ∨ host_call_of k = Some chat)
  ∧ (registers k = None ∨ registers k = Some (chat_data chat)).

(** Nothing in flight and no subscription carries the chat [c]. *)
Definition silent (c : Z) (t : transport) : Prop :=
  (∀ msg cb, pending t !! msg ≠ Some (cb, chat_data c))
  ∧ (∀ channel klass cb, (channel, klass, cb, chat_data c) ∉ subscriptions t).

(** The queue and the channel hold, for the chat, what the chat itself
    keeps track of: the requests it remembers for cancellation, and the
    two subscriptions [do_join_chat] made. *)
Definition tracks (chat : chime_chat) (t : transport) : Prop :=
  (∀ msg cb, pending t !! msg = Some (cb, chat_data (conv chat)) →
             soup_msg (msgs chat) = Some msg ∨ members_msg chat = Some msg)
  ∧ filter (λ s : subscription, s.2 = chat_data (conv chat)) (subscriptions t)
    = [(room_channel (room chat), "RoomMessage", chat_msg_jugg_cb_ptr,
        chat_data (conv chat));
       (room_channel (room chat), "RoomMembership", chat_membership_jugg_cb_ptr,
        chat_data (conv chat))].

(** Sample data for the examples below. *)
Module Sample.

(** The Unicode tables on U+00C0 to U+00FF (in UTF-8 the byte C3 and
    one of 80 to BF): letters, all but the signs U+00D7 and U+00F7.  The
    samples hold no other character outside ASCII. *)
Definition latin1_word_bytes (s : string) : nat :=
  match s with
  | String c (String d _) =>
      let n := nat_of_ascii d in
      if bool_decide (nat_of_ascii c = 195)%nat && bool_decide (128 ≤ n ≤ 191)%nat
         && negb (bool_decide (n = 151)%nat) && negb (bool_decide (n = 183)%nat)
      then 2%nat else 0%nat
  | _ => 0%nat
  end.

Definition external : External :=
  {| g_markup_escape_text := λ s, s;
     g_time_val_from_iso8601 := λ _, Some {| tv_sec := 100; tv_usec := 0 |};
     parse_time := λ parent name time_str tv,
       match parse_string parent name None with
       | (true, Some s) => (true, Some s, {| tv_sec := 200; tv_usec := 0 |})
       | _ => (false, time_str, tv)
       end;
     unicode_word_bytes := latin1_word_bytes |}.

Definition cxn : connection_info :=
  {| profile_id := "me-id"; messaging_url := "https://messaging.example";
     connection_display_name := Some "Me" |}.

Definition room1 : ChimeRoom :=
  {| room_ptr := 7; room_id := "r1"; room_name := "Room one"; room_channel := "chan-r1" |}.

(** A joined room whose history has been delivered. *)
Definition chat : chime_chat :=
  {| msgs := {| is_room := true; msgs_id := Some "r1"; soup_msg := None;
                messages := None; msgs_done := true; members_done := true |};
     room := room1; id := "r1"; conv := 1; members_msg := None; got_members := false;
     members := ∅; sent_msgs := ∅ |}.

(** The same room while both fetches are in flight. *)
Definition chat_fetching : chime_chat :=
  {| msgs := {| is_room := true; msgs_id := Some "r1"; soup_msg := Some 10%nat;
                messages := Some ∅; msgs_done := false; members_done := false |};
     room := room1; id := "r1"; conv := 1; members_msg := Some 11%nat;
     got_members := false; members := ∅; sent_msgs := ∅ |}.

(** The same room with its (empty) history complete and the first
    membership page requested. *)
Definition chat_history_done : chime_chat :=
  {| msgs := {| is_room := true; msgs_id := Some "r1"; soup_msg := None;
                messages := Some ∅; msgs_done := true; members_done := false |};
     room := room1; id := "r1"; conv := 1; members_msg := Some 11%nat;
     got_members := false; members := ∅; sent_msgs := ∅ |}.

Definition message (msg_id content : string) : JsonNode :=
  JsonObject [("MessageId", JsonString msg_id); ("Content", JsonString content);
              ("Sender", JsonString "me-id"); ("CreatedOn", JsonString "2017-08-01T10:00:00Z")].

Definition send_response (msg_id content : string) : option JsonNode :=
  Some (JsonObject [("Message", message msg_id content)]).

Definition live_event (msg_id content : string) : option JsonNode :=
  Some (JsonObject [("record", message msg_id content)]).

Definition member (n : string) : JsonNode :=
  JsonObject [("Presence", JsonString "present");
              ("Member", JsonObject [("ProfileId", JsonString ("id-" +:+ n));
                                     ("Email", JsonString (n +:+ "@example.com"));
                                     ("DisplayName", JsonString n)])].

Definition page (names : list string) (next : option string) : option JsonNode :=
  Some (JsonObject (("RoomMemberships", JsonArray (member <$> names))
                    :: match next with
                       | Some token => [("NextToken", JsonString token)]
                       | None => []
                       end)).

Definition tv0 : GTimeVal := {| tv_sec := 0; tv_usec := 0 |}.

Definition jane : string * chat_member :=
  ("75f50e24-d59d-40e4-996b-6ba3ff3f371f",
   {| member_id := "75f50e24-d59d-40e4-996b-6ba3ff3f371f";
      email := "jane@example.com"; display_name := "Jane Doe" |}).

Definition al : string * chat_member :=
  ("id1", {| member_id := "id1"; email := "all@example.com"; display_name := "All" |}).

Definition priv : ChimeConnectionPrivate :=
  {| info := cxn; chat_id := 1; live_chats := {[1 := chat_fetching]};
     chats_by_room := {[7%nat := 1]} |}.

(** The queue and the channel while [chat_fetching] has both fetches in
    flight: its two requests, and its two subscriptions after the one of
    the device channel. *)
Definition transport_fetching : transport :=
  {| pending := {[10%nat := (fetch_msgs_cb_ptr, chat_data 1);
                  11%nat := (fetch_members_cb_ptr, chat_data 1)]};
     subscriptions :=
       [("chan-device", "RoomMessage", chat_demuxing_jugg_cb_ptr, cxn_data);
        ("chan-r1", "RoomMessage", chat_msg_jugg_cb_ptr, chat_data 1);
        ("chan-r1", "RoomMembership", chat_membership_jugg_cb_ptr, chat_data 1)] |}.

End Sample.

End Chat.

(** ** chat.c: the device channel and the tables of live chats *)

Module Device.
Import Json Glib Chat.

(** [chime_init_chats]: both tables are made anew, and the device
    channel is subscribed for the messages of rooms not joined yet.
    [device_channel] is [priv->device_channel]. *)
Definition chime_init_chats (priv : ChimeConnectionPrivate) (device_channel : string)
  : ChimeConnectionPrivate * list call :=
  ({| info := info priv; chat_id := chat_id priv; live_chats := ∅; chats_by_room := ∅ |},
   [chime_jugg_subscribe device_channel "RoomMessage" chat_demuxing_jugg_cb_ptr cxn_data]).

(** A callback that ran for the chat [chat_ptr] leaves the struct, which
    it changed in place, in [live_chats]. *)
Definition set_live_chat (priv : ChimeConnectionPrivate) (chat_ptr : Z) (chat : chime_chat)
  : ChimeConnectionPrivate :=
  {| info := info priv; chat_id := chat_id priv;
     live_chats := <[chat_ptr := chat]> (live_chats priv);
     chats_by_room := chats_by_room priv |}.

(** The two tables name the same chats: each live chat sits under its
    own id, which [chat_id] has counted, and under its room; each room
    entry leads to a live chat of that room. *)
Definition chats_consistent (priv : ChimeConnectionPrivate) : Prop :=
  (∀ id_ chat, live_chats priv !! id_ = Some chat →
     conv chat = id_ ∧ id_ ≤ chat_id priv
     ∧ chats_by_room priv !! room_ptr (room chat) = Some id_)
  ∧ (∀ r id_, chats_by_room priv !! r = Some id_ →
       ∃ chat, live_chats priv !! id_ = Some chat ∧ room_ptr (room chat) = r).

(** What a run subscribed, unsubscribed, queued and cancelled, in order. *)
Definition subscribed (calls : list call) : list subscription :=
  omap (λ c, match c with
             | chime_jugg_subscribe channel klass cb data => Some (channel, klass, cb, data)
             | _ => None
             end) calls.

Definition unsubscribed (calls : list call) : list subscription :=
  omap (λ c, match c with
             | chime_jugg_unsubscribe channel klass cb data => Some (channel, klass, cb, data)
             | _ => None
             end) calls.

Definition queued_ids (calls : list call) : list SoupMessage_ptr :=
  omap (λ c, match c with
             | chime_connection_queue_http_request queued _ _ _ _ _ => Some queued
             | _ => None
             end) calls.

Definition cancelled (calls : list call) : list SoupMessage_ptr :=
  omap (λ c, match c with
             | soup_session_cancel_message msg _ => Some msg
             | _ => None
             end) calls.

Section WithRooms.
Context `{External}.

(** [chime_connection_room_by_id] (the room list is not under src/). *)
Variable chime_connection_room_by_id : string → option ChimeRoom.

(** What [fetch_messages] (the history engine, not under src/) leaves in
    [chat->msgs] when [do_join_chat] calls it on a new chat. *)
Variable fetch_messages_msgs : chime_msgs → chime_msgs.

(** [do_join_chat] for a room that has no chat yet, with [chat->msgs] of
    the new chat as [fetch_messages] left it. *)
Definition join_new (priv : ChimeConnectionPrivate) (queued : SoupMessage_ptr)
    (room_ : ChimeRoom) : ChimeConnectionPrivate * option Z * list call :=
  let '(priv, chat, calls) := do_join_chat priv queued (Some room_) in
  (match chat with
   | Some chat_ptr =>
       match live_chats priv !! chat_ptr with
       | Some new =>
           set_live_chat priv chat_ptr (set_msgs new (fetch_messages_msgs (msgs new)))
       | None => priv
       end
   | None => priv
   end, chat, calls).

(** [chat_demuxing_jugg_cb]: a RoomMessage on the device channel.  The
    room is joined if it has no chat yet, and the event is handed to
    [chat_msg_jugg_cb] for the room's chat.  [queued] and [tv] are as in
    [do_join_chat] and [chat_msg_jugg_cb]. *)
Definition chat_demuxing_jugg_cb (priv : ChimeConnectionPrivate) (queued : SoupMessage_ptr)
    (data_node : option JsonNode) (tv : GTimeVal)
  : outcome (ChimeConnectionPrivate * list call * bool) :=
  let obj := json_node_get_object data_node in
  match json_object_get_member obj "record" with
  | None => Returns (priv, [], false)
  | Some record =>
      match parse_string (Some record) "RoomId" None with
      | (true, Some room_id_) =>
          match chime_connection_room_by_id room_id_ with
          | None => Returns (priv, [], false)
          | Some room_ =>
              let '(priv, chat, calls) :=
                match chats_by_room priv !! room_ptr room_ with
                | Some chat => (priv, Some chat, [])
                | None => join_new priv queued room_
                end in
              match chat with
              | None => Returns (priv, calls, false)
              | Some chat_ptr =>
                  match live_chats priv !! chat_ptr with
                  | None => Undefined (* no struct at the pointer *)
                  | Some chat =>
                      let '(chat, calls', handled) :=
                        chat_msg_jugg_cb (info priv) chat data_node tv in
                      Returns (set_live_chat priv chat_ptr chat, calls ++ calls', handled)
                  end
              end
          end
      | _ => Returns (priv, [], false)
      end
  end.

End WithRooms.

(** Sample data for the examples below. *)
Module Sample.

Definition chime_connection_room_by_id (room_id_ : string) : option ChimeRoom :=
  if decide (room_id_ = "r1") then Some Chat.Sample.room1 else None.

(** A history engine that opens the buffer and queues the first page. *)
Definition fetch_messages_msgs (m : chime_msgs) : chime_msgs :=
  {| is_room := is_room m; msgs_id := msgs_id m; soup_msg := Some 10%nat;
     messages := Some ∅; msgs_done := msgs_done m; members_done := members_done m |}.

Definition device_event : option JsonNode :=
  Some (JsonObject
          [("record",
            JsonObject [("RoomId", JsonString "r1"); ("MessageId", JsonString "m7");
                        ("Content", JsonString "hello"); ("Sender", JsonString "id-ann");
                        ("CreatedOn", JsonString "2017-08-01T10:00:00Z")])]).






(** A connection on which no room is joined. *)
Definition fresh : ChimeConnectionPrivate :=
  {| info := Chat.Sample.cxn; chat_id := 0; live_chats := ∅; chats_by_room := ∅ |}.

End Sample.

End Device.

(** ** prpl/meeting.c: meeting PINs *)

Module Meeting.
Import Glib.

(** [format_pin]: a PIN of 10 bytes is grouped 4-2-4, one of 13 bytes
    4-2-4-3, any other is copied.  [strlen] reads [pin], so a [NULL] PIN
    is undefined. *)
Definition format_pin (pin : option string) : outcome string :=
  match pin with
  | None => Undefined
  | Some pin =>
      if decide (String.length pin = 10%nat) then
        Returns (Str.take 4 pin +:+ " " +:+ Str.take 2 (Str.drop 4 pin)
                 +:+ " " +:+ Str.take 4 (Str.drop 6 pin))
      else if decide (String.length pin = 13%nat) then
        Returns (Str.take 4 pin +:+ " " +:+ Str.take 2 (Str.drop 4 pin)
                 +:+ " " +:+ Str.take 4 (Str.drop 6 pin)
                 +:+ " " +:+ Str.take 3 (Str.drop 10 pin))
      else Returns pin
  end.

(** The string without its spaces. *)
Fixpoint ungroup (s : string) : string :=
  match s with
  | "" => ""
  | String c s' => if decide (c = " "%char) then ungroup s' else String c (ungroup s')
  end.

End Meeting.

(** * Properties *)

(** ** Strings *)

Module StrFacts.

Lemma str_app_nil_l s : "" +:+ s = s.
Proof. reflexivity. Qed.

Lemma str_app_cons c s t : String c s +:+ t = String c (s +:+ t).
Proof. reflexivity. Qed.

Lemma str_app_nil_r s : s +:+ "" = s.
Proof. induction s as [|c s IH]; [done|]. by rewrite str_app_cons, IH. Qed.

Lemma str_app_assoc s t u : (s +:+ t) +:+ u = s +:+ t +:+ u.
Proof. induction s as [|c s IH]; [done|]. by rewrite !str_app_cons, IH. Qed.

Lemma str_length_app s t :
  String.length (s +:+ t) = (String.length s + String.length t)%nat.
Proof. induction s as [|c s IH]; [done|]. rewrite str_app_cons. simpl. by rewrite IH. Qed.


Lemma str_drop_app s t : Str.drop (String.length s) (s +:+ t) = t.
Proof. induction s as [|c s IH]; [by destruct t|]. rewrite str_app_cons. simpl. by rewrite IH. Qed.

Lemma str_length_drop n s : String.length (Str.drop n s) = (String.length s - n)%nat.
Proof.
  revert s. induction n as [|n IH]; intros [|c s]; simpl; done || lia.
Qed.

Lemma str_prefix_app s t : String.prefix s (s +:+ t) = true.
Proof.
  induction s as [|c s IH]; [by destruct t|].
  rewrite str_app_cons. simpl. destruct (ascii_dec c c); [done|congruence].
Qed.

Lemma str_prefix_inv s t : String.prefix s t = true → ∃ u, t = s +:+ u.
Proof.
  revert t. induction s as [|c s IH]; intros t H.
  - by exists t.
  - destruct t as [|d t]; [done|]. simpl in H.
    destruct (ascii_dec c d) as [->|]; [|done].
    destruct (IH _ H) as [u Hu]. exists u. by rewrite Hu.
Qed.

Lemma str_prefix_cons c s d t :
  String.prefix (String c s) (String d t) = true ↔ c = d ∧ String.prefix s t = true.
Proof.
  simpl. destruct (ascii_dec c d) as [->|Hne]; [tauto|].
  split; [done|]. by intros [? _].
Qed.

End StrFacts.

(** ** C integers *)

Module IntFacts.

(** Within the range of an [int] nothing wraps. *)
Lemma int_wrap_id z : INT_MIN ≤ z ≤ INT_MAX → int_wrap z = z.
Proof.
  unfold int_wrap, INT_MIN, INT_MAX. intros Hz.
  rewrite Z.mod_small by lia. lia.
Qed.

(** An [int] stays an [int]. *)
Lemma int_wrap_range z : INT_MIN ≤ int_wrap z ≤ INT_MAX.
Proof.
  unfold int_wrap, INT_MIN, INT_MAX.
  pose proof (Z.mod_pos_bound (z - -2147483648) 4294967296 ltac:(lia)). lia.
Qed.

(** Past [INT_MAX] the count starts again at [INT_MIN]. *)
Lemma int_wrap_max : int_wrap (INT_MAX + 1) = INT_MIN.
Proof. reflexivity. Qed.

Lemma int_succ z : INT_MIN ≤ z < INT_MAX → int_wrap (z + 1) = z + 1.
Proof. intros Hz. apply int_wrap_id. unfold INT_MIN, INT_MAX in *. lia. Qed.

End IntFacts.

(** ** The string functions *)

Module GlibProofs.
Import Glib.

Lemma nat_of_ascii_inj c d : nat_of_ascii c = nat_of_ascii d → c = d.
Proof.
  intros H. rewrite <- (ascii_nat_embedding c), <- (ascii_nat_embedding d).
  by rewrite H.
Qed.

(** Comparing the first [length t] bytes with [t] is a prefix test. *)
Lemma strncmp_prefix t s :
  Str.nul_free t = true →
  strncmp s t (String.length t) = 0 ↔ String.prefix t s = true.
Proof.
  revert s. induction t as [|d t IH]; intros s Hnul.
  - by destruct s.
  - simpl in Hnul. apply andb_prop in Hnul as [Hd Hnul].
    apply bool_decide_eq_true in Hd.
    destruct s as [|c s]; cbn [String.length strncmp String.prefix].
    + split; [lia|done].
    + destruct (decide (c = d)) as [->|Hne].
      * destruct (ascii_dec d d); [|done]. by apply IH.
      * destruct (ascii_dec d c) as [->|]; [done|].
        split; [|done]. intros H. exfalso. apply Hne, nat_of_ascii_inj. lia.
Qed.

Lemma strsplit_loop_length fuel max_tokens remainder delimiter :
  1 ≤ max_tokens →
  Z.of_nat (length (strsplit_loop fuel (Some max_tokens) remainder delimiter).1)
  ≤ max_tokens - 1.
Proof.
  revert max_tokens remainder.
  induction fuel as [|fuel IH]; intros mt r Hmt; simpl; [lia|].
  destruct (decide (Some (mt - 1) = Some 0)) as [|Hne]; simpl; [lia|].
  destruct (strstr r delimiter) as [len|]; simpl; [|lia].
  assert (1 ≤ mt - 1) as Hmt' by (assert (mt - 1 ≠ 0) by congruence; lia).
  specialize (IH (mt - 1) (Str.drop (len + String.length delimiter) r) Hmt').
  destruct (strsplit_loop _ _ _ _) as [tokens rest]. simpl in *. lia.
Qed.

Lemma strstr_nil needle : needle ≠ "" → strstr "" needle = None.
Proof. by destruct needle. Qed.

(** [g_strsplit] never returns more than [max_tokens] tokens, and
    returns the empty vector for the empty string only. *)
Lemma g_strsplit_length s delimiter max_tokens v :
  1 ≤ max_tokens →
  g_strsplit (Some s) delimiter max_tokens = Some v →
  Z.of_nat (length v) ≤ max_tokens ∧ (v = [] ↔ s = "").
Proof.
  intros Hmt. unfold g_strsplit.
  destruct (decide (delimiter = "")) as [|Hd]; [done|].
  destruct (Z.ltb_spec max_tokens 1); [lia|].
  pose proof (strsplit_loop_length (S (String.length s)) max_tokens s delimiter Hmt) as Hlen.
  destruct (strsplit_loop _ _ _ _) as [tokens rest] eqn:E. simpl in Hlen.
  intros [= <-]. destruct (decide (s = "")) as [->|Hs].
  - assert (tokens = []) as ->; [|split; [simpl; lia|done]].
    cbn [String.length strsplit_loop] in E.
    destruct (decide _); [by injection E as <- _|].
    rewrite strstr_nil in E by done. by injection E as <- _.
  - rewrite length_app. simpl. split; [lia|]. split; [|done].
    by destruct tokens.
Qed.

End GlibProofs.

(** ** parse_string *)

Module JsonProofs.
Import Json.

Lemma parse_string_spec parent name res :
  parse_string parent name res =
    match json_node_get_string
            (json_object_get_member (json_node_get_object parent) name) with
    | Some str => (true, Some str)
    | None => (false, res)
    end.
Proof.
  unfold parse_string, json_object_get_member, json_node_get_object.
  destruct parent as [[]|]; try done.
  destruct (assoc name members) as [member|]; [|done].
  by destruct member.
Qed.

(** C10. [parse_string] always returns; it returns TRUE with [*res] set
    to the member's string exactly when [parent] is an object whose
    member [name] is a string, and in each of the four failure cases
    ([parent] NULL, not an object, no such member, member not a string)
    it returns FALSE with [*res] as it was on entry.  What it returns,
    and what [*res] holds after TRUE, do not depend on what [*res] held
    on entry: a caller that reads its local only after TRUE never reads
    an undefined value. *)
Theorem parse_string_total_atomic
    (parent : option JsonNode) (name : string) (res : option string) :
  (∀ str, parse_string parent name res = (true, Some str) ↔
          ∃ members, parent = Some (JsonObject members) ∧
                     assoc name members = Some (JsonString str))
  ∧ ((parent = None
      ∨ json_node_get_object parent = None
      ∨ json_object_get_member (json_node_get_object parent) name = None
      ∨ json_node_get_string
          (json_object_get_member (json_node_get_object parent) name) = None)
     ↔ parse_string parent name res = (false, res))
  ∧ (parse_string parent name res = (false, res)
     ∨ ∃ str, parse_string parent name res = (true, Some str))
  ∧ (∀ res', (parse_string parent name res').1 = (parse_string parent name res).1
             ∧ ((parse_string parent name res).1 = true →
                (parse_string parent name res').2 = (parse_string parent name res).2)).
Proof.
  assert (Hany : ∀ res', (parse_string parent name res').1 = (parse_string parent name res).1
            ∧ ((parse_string parent name res).1 = true →
               (parse_string parent name res').2 = (parse_string parent name res).2)).
  { intros res'. rewrite !parse_string_spec. by destruct (json_node_get_string _). }
  rewrite parse_string_spec in *. unfold json_object_get_member, json_node_get_object in *.
  split; [|split; [|split; [|exact Hany]]].
  - intros str. split.
    + destruct parent as [[]|]; simpl; try done.
      destruct (assoc name members) as [[]|] eqn:E; simpl; try done.
      intros [= <-]. eauto.
    + intros (members & -> & E). simpl. by rewrite E.
  - split.
    + intros [->|[H|[H|H]]]; try done.
      * by destruct parent as [[]|].
      * by rewrite H.
      * by rewrite H.
    + destruct (json_node_get_string _) eqn:E; [done|]. auto.
  - destruct (json_node_get_string _); eauto.
Qed.

End JsonProofs.

(** ** Token renewal and websocket negotiation *)

Module ChimeProofs.
Import Json Glib Chime.



Section WithParser.
Variable json_parser : string → GError + option JsonNode.





(** C5, as the code has it. When the renewal fails for one of the
    four causes (a status other than 200 and 201, a wrong content type,
    a body that is not well-formed JSON, a document whose root holds no
    SessionToken string), [renew_cb] reports one connection-level
    network error and returns: the connection record, its session token
    and its pending-renewal queue are as they were, and no request is
    re-issued. *)
Theorem renewal_failure_reports_error (cxn : chime_connection) (msg : SoupMessage) :
  renewal_fails json_parser msg →
  ∃ text,
    renew_cb json_parser cxn msg
    = Returns (cxn, [purple_connection_error_reason_NETWORK_ERROR text]).
Proof.
  intros Hf. unfold renew_cb, process_soup_response.
  destruct (decide (status_code msg ≠ 200 ∧ status_code msg ≠ 201)) as [|Hs]; [by eauto|].
  destruct (decide (response_content_type msg ≠ Some "application/json")) as [|Hc];
    [by eauto|].
  destruct Hf as [H1 H2|H|data e Hd Hp|data tok_node Hd Hp Ht]; try tauto.
  - rewrite Hd, Hp. eauto.
  - rewrite Hd, Hp.
    destruct (parse_string (Some tok_node) "SessionToken" None) as [[] r]; [done|].
    eauto.
Qed.

End WithParser.

Lemma ws_cb_200 cxn msg :
  status_code msg = 200 →
  ws_cb cxn msg =
    match response_body_data msg with
    | None => Returns (cxn, [purple_connection_error_reason_NETWORK_ERROR
                               Unexpected_response_in_WebSocket_setup])
    | Some data =>
        match g_strsplit (Some data) ":" 4 with
        | Some [] => Undefined
        | Some [_; opt1; _; opt3] =>
            if String.prefix "websocket," opt3 then
              Returns (cxn,
                [purple_connection_update_progress
                   "Establishing WebSocket connection..." 4 CONNECT_STEPS;
                 soup_session_websocket_connect_async
                   (soup_message_new_from_uri "GET"
                      (soup_uri_set_query_from_fields
                         (soup_uri_new (websocket_url cxn +:+ "/1/websocket/" +:+ opt1))
                         "session_uuid" (session_id cxn)))
                   (g_strsplit (Some opt3) "," 0)])
            else Returns (cxn, [purple_connection_error_reason_NETWORK_ERROR
                                  Unexpected_response_in_WebSocket_setup])
        | _ => Returns (cxn, [purple_connection_error_reason_NETWORK_ERROR
                                Unexpected_response_in_WebSocket_setup])
        end
    end.
Proof.
  intros Hs. unfold ws_cb. rewrite decide_False by lia. rewrite decide_False by tauto.
  destruct (response_body_data msg) as [data|]; [|done].
  destruct (g_strsplit (Some data) ":" 4) as [v|] eqn:E; [|done].
  destruct (GlibProofs.g_strsplit_length data ":" 4 v ltac:(lia) E) as [Hlen _].
  destruct v as [|f0 [|f1 [|f2 [|f3 [|f4 v]]]]]; try done.
  - pose proof (GlibProofs.strncmp_prefix "websocket," f3 eq_refl) as Hp.
    change (String.length "websocket,") with 10%nat in Hp.
    destruct (String.prefix "websocket," f3).
    + rewrite decide_False; [done|]. intros H. by apply H, Hp.
    + rewrite decide_True; [done|]. intros H. by apply Hp in H.
  - simpl in Hlen. lia.
Qed.

(** C8, as the code has it. A negotiation response with status 200 is
    followed by the websocket upgrade exactly when its body splits on
    [:] (into at most four fields, the fourth taking the rest) into
    four fields of which the fourth begins with [websocket,]; any
    other non-empty body, and a missing body, gives a connection-level
    error and no upgrade. *)
Theorem ws_upgrade_iff_websocket_first (cxn : chime_connection) (msg : SoupMessage) :
  status_code msg = 200 →
  (attempts_upgrade (ws_cb cxn msg) ↔
     ∃ data f0 f1 f2 f3,
       response_body_data msg = Some data
       ∧ g_strsplit (Some data) ":" 4 = Some [f0; f1; f2; f3]
       ∧ String.prefix "websocket," f3 = true)
  ∧ (response_body_data msg ≠ Some "" →
     ¬ attempts_upgrade (ws_cb cxn msg) →
     reports_connection_error (ws_cb cxn msg)).
Proof.
  intros Hs. rewrite (ws_cb_200 _ _ Hs).
  assert (Herr : ∀ c : chime_connection, reports_connection_error
            (Returns (c, [purple_connection_error_reason_NETWORK_ERROR
                            Unexpected_response_in_WebSocket_setup]))).
  { intros c. by eexists _, _. }
  assert (Hno : ∀ c : chime_connection, ¬ attempts_upgrade
            (Returns (c, [purple_connection_error_reason_NETWORK_ERROR
                            Unexpected_response_in_WebSocket_setup]))).
  { intros c (? & ? & [= <- <-] & ?). done. }
  destruct (response_body_data msg) as [data|].
  2:{ split; [|by auto]. split; [by intros ?%Hno|]. by intros (? & ? & ? & ? & ? & ? & _). }
  destruct (g_strsplit (Some data) ":" 4) as [v|] eqn:E.
  2:{ split; [|by auto]. split; [by intros ?%Hno|].
      by intros (? & ? & ? & ? & ? & [= <-] & ? & _); simplify_eq. }
  destruct v as [|f0 [|f1 [|f2 [|f3 [|f4 v]]]]].
  - split.
    + split; [by intros (? & ? & ? & _)|].
      by intros (? & ? & ? & ? & ? & [= <-] & ? & _); simplify_eq.
    + intros Hd. exfalso. apply Hd. f_equal.
      by apply (GlibProofs.g_strsplit_length data ":" 4 [] ltac:(lia) E).
  - split; [|by auto]. split; [by intros ?%Hno|].
    by intros (? & ? & ? & ? & ? & [= <-] & ? & _); simplify_eq.
  - split; [|by auto]. split; [by intros ?%Hno|].
    by intros (? & ? & ? & ? & ? & [= <-] & ? & _); simplify_eq.
  - split; [|by auto]. split; [by intros ?%Hno|].
    by intros (? & ? & ? & ? & ? & [= <-] & ? & _); simplify_eq.
  - destruct (String.prefix "websocket," f3) eqn:Hp.
    + split.
      * split; [|by intros _; eexists _, _].
        intros _. exists data, f0, f1, f2, f3. by rewrite E.
      * intros _ H. exfalso. apply H. by eexists _, _.
    + split; [|by auto]. split; [by intros ?%Hno|].
      intros (? & ? & ? & ? & ? & [= <-] & ? & ?); simplify_eq. congruence.
  - split; [|by auto]. split; [by intros ?%Hno|].
    by intros (? & ? & ? & ? & ? & [= <-] & ? & _); simplify_eq.
Qed.

Lemma ws_upgrade_iff_websocket_first_witness :
  (attempts_upgrade (ws_cb Sample.cxn (Sample.negotiation "4d1f:60:60:websocket,xhr-polling")) ↔
     ∃ data f0 f1 f2 f3,
       response_body_data (Sample.negotiation "4d1f:60:60:websocket,xhr-polling") = Some data
       ∧ g_strsplit (Some data) ":" 4 = Some [f0; f1; f2; f3]
       ∧ String.prefix "websocket," f3 = true)
  ∧ (response_body_data (Sample.negotiation "4d1f:60:60:websocket,xhr-polling") ≠ Some "" →
     ¬ attempts_upgrade (ws_cb Sample.cxn (Sample.negotiation "4d1f:60:60:websocket,xhr-polling")) →
     reports_connection_error
       (ws_cb Sample.cxn (Sample.negotiation "4d1f:60:60:websocket,xhr-polling"))).
Proof.
  apply (ws_upgrade_iff_websocket_first Sample.cxn
           (Sample.negotiation "4d1f:60:60:websocket,xhr-polling")).
  reflexivity.
Defined.

(** The specification's sentence for C8 asks only that [websocket] be
    present in the transport list.  Here it is listed second: the
    response splits into four fields and the list holds [websocket],
    yet the code reports an error and attempts no upgrade. *)
Lemma ws_rejects_websocket_listed_second :
  status_code (Sample.negotiation "4d1f:60:60:xhr-polling,websocket") = 200
  ∧ g_strsplit (Some "4d1f:60:60:xhr-polling,websocket") ":" 4
    = Some ["4d1f"; "60"; "60"; "xhr-polling,websocket"]
  ∧ g_strsplit (Some "xhr-polling,websocket") "," 0 = Some ["xhr-polling"; "websocket"]
  ∧ ws_cb Sample.cxn (Sample.negotiation "4d1f:60:60:xhr-polling,websocket")
    = Returns (Sample.cxn, [purple_connection_error_reason_NETWORK_ERROR
                              Unexpected_response_in_WebSocket_setup])
  ∧ ¬ attempts_upgrade
        (ws_cb Sample.cxn (Sample.negotiation "4d1f:60:60:xhr-polling,websocket")).
Proof.
  repeat split; try by vm_compute.
  intros (? & ? & H & Hup). vm_compute in H. by simplify_eq.
Qed.


Lemma renewal_failure_reports_error_witness :
  ∃ text,
    renew_cb Sample.parser Sample.cxn_parked (Sample.response 500 "Internal Server Error" "")
    = Returns (Sample.cxn_parked, [purple_connection_error_reason_NETWORK_ERROR text]).
Proof.
  apply (renewal_failure_reports_error Sample.parser Sample.cxn_parked
           (Sample.response 500 "Internal Server Error" "")).
  apply non_success_status; simpl; lia.
Defined.

(** The specification's sentence for C5 also has every queued request
    completed with failure.  Here the renewal fails with one request
    parked: the only call made is the error report, and the request is
    still held in the queue, neither re-issued nor completed. *)
Lemma renewal_failure_leaves_request_parked :
  renewal_fails Sample.parser (Sample.response 500 "Internal Server Error" "")
  ∧ ∃ cxn',
      renew_cb Sample.parser Sample.cxn_parked
        (Sample.response 500 "Internal Server Error" "")
      = Returns (cxn', [purple_connection_error_reason_NETWORK_ERROR
                          (Token_renewal
                             (CHIME_ERROR_REQUEST_FAILED 500 "Internal Server Error"))])
      ∧ parked <$> msg_queue cxn' = [(Sample.request "/a", ws_cb_ptr)].
Proof.
  split.
  - apply non_success_status; simpl; lia.
  - by exists Sample.cxn_parked.
Qed.

End ChimeProofs.


(** ** Chat rooms: delivery, de-duplication and membership paging *)

Module ChatProofs.
Import Json Glib Chat.

Section WithExternal.
Context `{External}.

(** [parse_incoming_msg] calls the host at most once, and only to deliver. *)
Lemma parse_incoming_msg_calls cxn chat node msg_time :
  parse_incoming_msg cxn chat node msg_time = []
  ∨ ∃ who flags message,
      parse_incoming_msg cxn chat node msg_time
      = [serv_got_chat_in (conv chat) who flags message msg_time].
Proof.
  unfold parse_incoming_msg.
  destruct (parse_string node "Content" None) as [[] [content|]]; auto.
  destruct (parse_string node "Sender" None) as [[] [sender|]]; auto.
  right. destruct (decide (sender = profile_id cxn));
    destruct (parse_inbound_mentions _ _) as [mentioned parsed]; eauto.
Qed.

Lemma parse_incoming_msg_sent_msgs cxn chat sent node msg_time :
  parse_incoming_msg cxn (set_sent_msgs chat sent) node msg_time
  = parse_incoming_msg cxn chat node msg_time.
Proof. done. Qed.



(** A message with another id leaves [m] in the table. *)
Lemma chat_deliver_msg_keeps cxn chat node msg_time m :
  (parse_string node "MessageId" None).2 ≠ Some m →
  m ∈ sent_msgs chat →
  m ∈ sent_msgs (chat_deliver_msg cxn chat node msg_time).1.
Proof.
  intros Hid Hin. unfold chat_deliver_msg.
  destruct (parse_string node "MessageId" None) as [[] [m'|]]; try done.
  destruct (decide (m' ∈ sent_msgs chat)); [|done].
  simpl in *. set_solver.
Qed.

Lemma parse_incoming_msg_own cxn chat node msg_time :
  Forall (own_call (conv chat)) (parse_incoming_msg cxn chat node msg_time).
Proof.
  destruct (parse_incoming_msg_calls cxn chat node msg_time)
    as [->|(who & flags & message & ->)]; [done|].
  constructor; [|done]. split; [by right|by left].
Qed.

Lemma chat_deliver_msg_own cxn chat node msg_time :
  conv (chat_deliver_msg cxn chat node msg_time).1 = conv chat
  ∧ Forall (own_call (conv chat)) (chat_deliver_msg cxn chat node msg_time).2.
Proof.
  unfold chat_deliver_msg.
  destruct (parse_string node "MessageId" None) as [[] [m|]];
    try destruct (decide (m ∈ sent_msgs chat)); cbn [fst snd];
    (split; [done|]); done || apply parse_incoming_msg_own.
Qed.

Lemma chat_msg_jugg_cb_own cxn chat data_node tv :
  conv (chat_msg_jugg_cb cxn chat data_node tv).1.1 = conv chat
  ∧ Forall (own_call (conv chat)) (chat_msg_jugg_cb cxn chat data_node tv).1.2.
Proof.
  unfold chat_msg_jugg_cb.
  destruct (json_object_get_member _ "record") as [record|]; [|done].
  destruct (parse_string (Some record) "MessageId" None) as [[] [m|]]; try done.
  destruct (messages (msgs chat)); [done|].
  destruct (parse_time _ _ _ _) as [[[] msg_time] tv']; [|done].
  pose proof (chat_deliver_msg_own cxn chat (Some record) (tv_sec tv')) as [Hc Hk].
  destruct (chat_deliver_msg cxn chat (Some record) (tv_sec tv')) as [chat' calls].
  cbn [fst snd] in *. split; [done|]. constructor; [by split; left|done].
Qed.

Lemma add_chat_member_own chat node :
  conv (add_chat_member chat node).1.1 = conv chat
  ∧ Forall (own_call (conv chat)) (add_chat_member chat node).1.2.
Proof.
  unfold add_chat_member. repeat case_match; cbn [fst snd]; (split; [done|]);
    try done; (constructor; [by split; [right|left]|done]).
Qed.

Lemma chat_membership_jugg_cb_own chat data_node :
  conv (chat_membership_jugg_cb chat data_node).1.1 = conv chat
  ∧ Forall (own_call (conv chat)) (chat_membership_jugg_cb chat data_node).1.2.
Proof.
  unfold chat_membership_jugg_cb.
  destruct (json_object_get_member _ "record"); [|done]. apply add_chat_member_own.
Qed.

Lemma foreach_member_own chat elements :
  conv (foreach_member chat elements).1 = conv chat
  ∧ Forall (own_call (conv chat)) (foreach_member chat elements).2.
Proof.
  revert chat. induction elements as [|node rest IH]; intros chat; [done|]. simpl.
  pose proof (add_chat_member_own chat (Some node)) as [Hc Hk].
  destruct (add_chat_member chat (Some node)) as [[chat1 calls1] ok]. simpl in *.
  pose proof (IH chat1) as [Hc' Hk'].
  destruct (foreach_member chat1 rest) as [chat2 calls2]. simpl in *.
  split; [congruence|]. apply Forall_app. split; [done|]. by rewrite <- Hc.
Qed.

Lemma fetch_members_cb_own cxn queued chat node :
  conv (fetch_members_cb cxn queued chat node).1 = conv chat
  ∧ Forall (own_call (conv chat)) (fetch_members_cb cxn queued chat node).2.
Proof.
  unfold fetch_members_cb.
  set (chat0 := set_members_msg chat None).
  assert (∃ chat1 calls1,
            match json_node_get_array
                    (json_object_get_member (json_node_get_object node) "RoomMemberships")
            with
            | Some elements => foreach_member chat0 elements
            | None => (chat0, [])
            end = (chat1, calls1)
            ∧ conv chat1 = conv chat ∧ Forall (own_call (conv chat)) calls1)
    as (chat1 & calls1 & -> & Hc & Hk).
  { destruct (json_node_get_array _) as [elements|].
    - pose proof (foreach_member_own chat0 elements) as [? ?].
      destruct (foreach_member chat0 elements) as [c1 k1]. by exists c1, k1.
    - by exists chat0, []. }
  destruct (parse_string node "NextToken" None) as [[] [token|]]; cbn [fst snd].
  - split; [done|]. apply Forall_app. split; [done|].
    constructor; [|done]. split; [by left|right; simpl; by rewrite Hc].
  - destruct (msgs_done _); cbn [fst snd]; (split; [done|]); [|done].
    apply Forall_app. split; [done|]. constructor; [by split; left|done].
  - destruct (msgs_done _); cbn [fst snd]; (split; [done|]); [|done].
    apply Forall_app. split; [done|]. constructor; [by split; left|done].
  - destruct (msgs_done _); cbn [fst snd]; (split; [done|]); [|done].
    apply Forall_app. split; [done|]. constructor; [by split; left|done].
Qed.

Lemma send_msg_cb_own cxn chat status reason node now tv last_seen :
  conv (send_msg_cb cxn chat status reason node now tv last_seen).1 = conv chat
  ∧ Forall (own_call (conv chat))
      (send_msg_cb cxn chat status reason node now tv last_seen).2.
Proof.
  unfold send_msg_cb.
  destruct (SOUP_STATUS_IS_SUCCESSFUL status); cbn [negb fst snd].
  2:{ split; [done|]. constructor; [by split; [right|left]|done]. }
  destruct (json_object_get_member _ "Message") as [msgnode|]; [|done].
  cbv zeta. match goal with |- context [if ?b then _ else _] => destruct b end; [done|].
  cbn [fst snd].
  destruct (parse_string (Some msgnode) "MessageId" None) as [[] [m|]];
    (split; [done|]); rewrite ?parse_incoming_msg_sent_msgs;
    apply parse_incoming_msg_own.
Qed.

(** The callbacks of chat.c, running for one chat, call the host about
    that chat only and register that chat only. *)
Lemma callbacks_own_chat cxn queued chat node tv status reason now last_seen :
  Forall (own_call (conv chat)) (chat_msg_jugg_cb cxn chat node tv).1.2
  ∧ Forall (own_call (conv chat)) (chat_membership_jugg_cb chat node).1.2
  ∧ Forall (own_call (conv chat)) (fetch_members_cb cxn queued chat node).2
  ∧ Forall (own_call (conv chat))
      (send_msg_cb cxn chat status reason node now tv last_seen).2.
Proof.
  split; [apply chat_msg_jugg_cb_own|]. split; [apply chat_membership_jugg_cb_own|].
  split; [apply fetch_members_cb_own|apply send_msg_cb_own].
Qed.




(** C2. While the in-progress message buffer of a room exists, a live
    message event makes no call at all, so nothing reaches the host; if
    the event carries a record with a MessageId, the event is reported
    handled and the buffer of the chat afterwards is the buffer it had
    with the record put in under that id: the record is found there
    under its id, every other id leads to what it led to, and nothing
    else of the chat has changed.  A live event is delivered at once
    only when the buffer is [NULL]. *)
Theorem live_event_buffered_during_fetch
    (cxn : connection_info) (chat : chime_chat) (data_node : option JsonNode)
    (tv : GTimeVal) :
  (∀ table, messages (msgs chat) = Some table →
     (chat_msg_jugg_cb cxn chat data_node tv).1.2 = []
     ∧ ∀ record m,
         json_object_get_member (json_node_get_object data_node) "record" = Some record →
         parse_string (Some record) "MessageId" None = (true, Some m) →
         let r := chat_msg_jugg_cb cxn chat data_node tv in
         r.2 = true
         ∧ messages (msgs r.1.1) = Some (<[m := record]> table)
         ∧ (∃ table', messages (msgs r.1.1) = Some table'
                      ∧ table' !! m = Some record
                      ∧ ∀ m', m' ≠ m → table' !! m' = table !! m')
         ∧ is_room (msgs r.1.1) = is_room (msgs chat)
         ∧ msgs_id (msgs r.1.1) = msgs_id (msgs chat)
         ∧ soup_msg (msgs r.1.1) = soup_msg (msgs chat)
         ∧ msgs_done (msgs r.1.1) = msgs_done (msgs chat)
         ∧ members_done (msgs r.1.1) = members_done (msgs chat)
         ∧ room r.1.1 = room chat ∧ id r.1.1 = id chat ∧ conv r.1.1 = conv chat
         ∧ members_msg r.1.1 = members_msg chat
         ∧ got_members r.1.1 = got_members chat
         ∧ members r.1.1 = members chat
         ∧ sent_msgs r.1.1 = sent_msgs chat)
  ∧ ((chat_msg_jugg_cb cxn chat data_node tv).1.2 ≠ [] → messages (msgs chat) = None).
Proof.
  assert (Hbuf : ∀ table, messages (msgs chat) = Some table →
            (chat_msg_jugg_cb cxn chat data_node tv).1.2 = []).
  { intros table Ht. unfold chat_msg_jugg_cb.
    destruct (json_object_get_member _ "record") as [record|]; [|done].
    destruct (parse_string (Some record) "MessageId" None) as [[] [m|]]; try done.
    by rewrite Ht. }
  split.
  - intros table Ht. split; [by eapply Hbuf|].
    intros record m Hrec Hid r. subst r. unfold chat_msg_jugg_cb.
    rewrite Hrec, Hid, Ht. cbn [fst snd msgs set_msgs messages set_messages].
    split; [done|]. split; [done|]. split; [|done].
    exists (<[m := record]> table). split; [done|]. split; [apply lookup_insert_eq|].
    intros m' Hne. by apply lookup_insert_ne.
  - intros Hcalls. destruct (messages (msgs chat)) as [table|] eqn:Ht; [|done].
    by rewrite (Hbuf table) in Hcalls.
Qed.

(** The buffer as it is read back after a live event during a fetch. *)
Example live_event_buffered_sample :
  messages (msgs (@chat_msg_jugg_cb Sample.external Sample.cxn Sample.chat_fetching
                    (Sample.live_event "m1" "hello") Sample.tv0).1.1)
  = Some {["m1" := Sample.message "m1" "hello"]}.
Proof. reflexivity. Qed.

(** [add_chat_member] touches the member table only and calls the host
    about the member; it neither queues a request nor completes. *)
Lemma add_chat_member_frame chat node :
  let r := add_chat_member chat node in
  (∃ table, r.1.1 = set_members chat table)
  ∧ request_queries r.1.2 = [] ∧ filter (λ c, is_complete c = true) r.1.2 = [].
Proof.
  unfold add_chat_member.
  assert (Hid : ∃ table, chat = set_members chat table).
  { exists (members chat). by destruct chat. }
  repeat case_match; simpl; eauto.
Qed.

Lemma foreach_member_frame chat elements :
  let r := foreach_member chat elements in
  (∃ table, r.1 = set_members chat table)
  ∧ request_queries r.2 = [] ∧ filter (λ c, is_complete c = true) r.2 = [].
Proof.
  revert chat. induction elements as [|node rest IH]; intros chat; simpl.
  - split; [|done]. exists (members chat). by destruct chat.
  - pose proof (add_chat_member_frame chat (Some node)) as ([t1 E1] & Hq1 & Hc1).
    destruct (add_chat_member chat (Some node)) as [[chat1 calls1] ok]. simpl in *.
    pose proof (IH chat1) as ([t2 E2] & Hq2 & Hc2).
    destruct (foreach_member chat1 rest) as [chat2 calls2]. simpl in *.
    split; [exists t2; by rewrite E2, E1|].
    unfold request_queries in *.
    by rewrite omap_app, filter_app, Hq1, Hq2, Hc1, Hc2.
Qed.

(** One membership page: with a next token, the next page is requested
    and nothing else changes; without one, the membership side is done,
    and the room is completed if the history side is done too. *)
Lemma fetch_members_cb_page cxn queued chat node :
  let r := fetch_members_cb cxn queued chat node in
  conv r.1 = conv chat ∧ msgs_done (msgs r.1) = msgs_done (msgs chat)
  ∧ if has_next_token node then
      request_queries r.2 = [page_query node]
      ∧ filter (λ c, is_complete c = true) r.2 = []
      ∧ members_done (msgs r.1) = members_done (msgs chat)
      ∧ members_msg r.1 = Some queued
    else
      request_queries r.2 = []
      ∧ filter (λ c, is_complete c = true) r.2
        = (if msgs_done (msgs chat) then [chime_complete_messages (conv chat)] else [])
      ∧ members_done (msgs r.1) = true
      ∧ members_msg r.1 = None.
Proof.
  unfold fetch_members_cb, has_next_token, page_query, next_token_of.
  set (chat0 := set_members_msg chat None).
  assert (∃ chat1 calls1 table,
            match json_node_get_array
                    (json_object_get_member (json_node_get_object node) "RoomMemberships")
            with
            | Some elements => foreach_member chat0 elements
            | None => (chat0, [])
            end = (chat1, calls1)
            ∧ chat1 = set_members chat0 table
            ∧ request_queries calls1 = []
            ∧ filter (λ c, is_complete c = true) calls1 = [])
    as (chat1 & calls1 & table & -> & -> & Hq & Hc).
  { destruct (json_node_get_array _) as [elements|].
    - pose proof (foreach_member_frame chat0 elements) as ([t E] & ? & ?).
      destruct (foreach_member chat0 elements) as [c1 k1]. simpl in *. by eexists _, _, _.
    - exists chat0, [], (members chat0). by destruct chat. }
  pose proof (JsonProofs.parse_string_spec node "NextToken" None) as Hp.
  destruct (parse_string node "NextToken" None) as [[] [token|]]; simpl.
  - unfold request_queries in *. rewrite omap_app, filter_app, Hq, Hc.
    repeat split; try done; by cbn.
  - exfalso. by destruct (json_node_get_string _).
  - exfalso. by destruct (json_node_get_string _).
  - destruct (msgs_done (msgs chat)) eqn:Hdone; simpl;
      unfold request_queries in *; rewrite ?omap_app, ?filter_app, ?Hq, ?Hc;
      repeat split; try done; by cbn.
Qed.

Lemma membership_pages_run cxn queued chat pages :
  Forall (λ p, has_next_token p = true) pages →
  let r := membership_pages cxn queued chat pages in
  conv r.1 = conv chat ∧ msgs_done (msgs r.1) = msgs_done (msgs chat)
  ∧ request_queries r.2 = page_query <$> pages
  ∧ filter (λ c, is_complete c = true) r.2 = []
  ∧ members_done (msgs r.1) = members_done (msgs chat).
Proof.
  intros Hp. revert queued chat.
  induction Hp as [|p pages Hnext _ IH]; intros queued chat; [done|].
  cbn [membership_pages].
  pose proof (fetch_members_cb_page cxn queued chat p) as (Hc & Hd & Hpage).
  rewrite Hnext in Hpage. destruct Hpage as (Hq & Hk & Hm & _).
  destruct (fetch_members_cb cxn queued chat p) as [chat1 calls1]. simpl in *.
  pose proof (IH (S queued) chat1) as (Hc' & Hd' & Hq' & Hk' & Hm').
  destruct (membership_pages cxn (S queued) chat1 pages) as [chat2 calls2]. simpl in *.
  unfold request_queries in *.
  rewrite omap_app, filter_app, Hq, Hq', Hk, Hk'.
  repeat split; congruence.
Qed.

(** C4. The first membership request asks for 50 members and carries no
    token; each page that comes back with a NextToken is answered by one
    request for 50 members carrying that token, and completes nothing:
    the room is not declared ready and the membership side is not marked
    done.  The page without a NextToken marks the membership side done
    and requests nothing more; the room is completed then, once, exactly
    when the history side was already done ([msgs_done]), and otherwise
    not by this side.  No membership page ever completes the room unless
    it has no NextToken and the history side is done. *)
Theorem room_ready_after_last_membership_page
    (cxn : connection_info) (queued : SoupMessage_ptr) (chat : chime_chat)
    (pages : list (option JsonNode)) (last : option JsonNode) :
  Forall (λ p, has_next_token p = true) pages →
  has_next_token last = false →
  let first := fetch_chat_memberships cxn queued chat None in
  let run := membership_pages cxn (S queued) first.1 pages in
  let final := fetch_members_cb cxn (S queued + length pages)%nat run.1 last in
  request_queries first.2 = [[("max-results", "50")]]
  ∧ request_queries run.2 = page_query <$> pages
  ∧ Forall (λ q, ∃ token, q = [("max-results", "50"); ("next-token", token)])
      (request_queries run.2)
  ∧ filter (λ c, is_complete c = true) (first.2 ++ run.2) = []
  ∧ members_done (msgs run.1) = members_done (msgs chat)
  ∧ request_queries final.2 = []
  ∧ members_done (msgs final.1) = true
  ∧ filter (λ c, is_complete c = true) final.2
    = (if msgs_done (msgs chat) then [chime_complete_messages (conv chat)] else [])
  ∧ (∀ q c node,
       filter (λ c, is_complete c = true) (fetch_members_cb cxn q c node).2 ≠ [] →
       has_next_token node = false ∧ msgs_done (msgs c) = true).
Proof.
  intros Hpages Hlast first run final.
  pose proof (membership_pages_run cxn (S queued) first.1 pages Hpages)
    as (Hc & Hd & Hq & Hk & Hm).
  fold run in Hc, Hd, Hq, Hk, Hm.
  pose proof (fetch_members_cb_page cxn (S queued + length pages)%nat run.1 last)
    as (Hc' & Hd' & Hfinal).
  fold final in Hc', Hd', Hfinal. rewrite Hlast in Hfinal.
  destruct Hfinal as (Hq' & Hk' & Hm' & _).
  split; [done|]. split; [done|]. split.
  { rewrite Hq. apply Forall_fmap, Forall_forall. intros p Hin.
    rewrite Forall_forall in Hpages. specialize (Hpages p Hin).
    unfold has_next_token, page_query, next_token_of in *. simpl.
    pose proof (JsonProofs.parse_string_spec p "NextToken" None) as Hp.
    destruct (parse_string p "NextToken" None) as [[] [token|]]; simpl in *; try done.
    - by exists token.
    - by destruct (json_node_get_string _). }
  split; [by rewrite filter_app, Hk|]. split; [done|]. split; [done|]. split; [done|].
  split; [by rewrite Hk', Hd, Hc|].
  intros q c node Hcomplete.
  pose proof (fetch_members_cb_page cxn q c node) as (_ & _ & Hpage).
  destruct (has_next_token node).
  - destruct Hpage as (_ & Hno & _). by rewrite Hno in Hcomplete.
  - destruct Hpage as (_ & Hyes & _). rewrite Hyes in Hcomplete.
    by destruct (msgs_done (msgs c)).
Qed.

End WithExternal.

Lemma room_ready_after_last_membership_page_witness :
  let pages := [Sample.page ["ann"; "bob"] (Some "t1"); Sample.page ["cy"; "di"] (Some "t2")] in
  let last := Sample.page ["ed"] None in
  let first := @fetch_chat_memberships Sample.cxn 11%nat Sample.chat_history_done None in
  let run := @membership_pages Sample.cxn 12%nat first.1 pages in
  let final := @fetch_members_cb Sample.cxn (12 + length pages)%nat run.1 last in
  request_queries first.2 = [[("max-results", "50")]]
  ∧ request_queries run.2 = page_query <$> pages
  ∧ Forall (λ q, ∃ token, q = [("max-results", "50"); ("next-token", token)])
      (request_queries run.2)
  ∧ filter (λ c, is_complete c = true) (first.2 ++ run.2) = []
  ∧ members_done (msgs run.1) = members_done (msgs Sample.chat_history_done)
  ∧ request_queries final.2 = []
  ∧ members_done (msgs final.1) = true
  ∧ filter (λ c, is_complete c = true) final.2
    = (if msgs_done (msgs Sample.chat_history_done)
       then [chime_complete_messages (conv Sample.chat_history_done)] else [])
  ∧ (∀ q c node,
       filter (λ c, is_complete c = true) (fetch_members_cb Sample.cxn q c node).2 ≠ [] →
       has_next_token node = false ∧ msgs_done (msgs c) = true).
Proof.
  apply (room_ready_after_last_membership_page Sample.cxn 11%nat Sample.chat_history_done
           [Sample.page ["ann"; "bob"] (Some "t1"); Sample.page ["cy"; "di"] (Some "t2")]
           (Sample.page ["ed"] None)).
  - repeat constructor.
  - reflexivity.
Defined.


(** The sample send has Content and Sender: it is delivered once. *)
Example sample_send_delivered_once :
  has_content_and_sender (Some (Sample.message "m1" "hello")) = true
  ∧ length (filter (λ c, is_delivery c = true)
              (@send_msg_cb Sample.external Sample.cxn Sample.chat 201 "Created"
                 (Sample.send_response "m1" "hello") 300 Sample.tv0 None).2) = 1%nat.
Proof. by vm_compute. Qed.


End ChatProofs.

(** ** Join and leave *)

Module SessionProofs.
Import Json Glib Chat.

(** C7. Joining a room that already has a chat returns that chat, leaves
    the connection as it was and makes no call: no conversation is
    opened, nothing is subscribed and no fetch is started.  In
    particular a second join, right after a first, returns the chat the
    first returned. *)
Theorem join_is_idempotent
    (priv : ChimeConnectionPrivate) (queued queued' : SoupMessage_ptr) (room_ : ChimeRoom) :
  (∀ chat, chats_by_room priv !! room_ptr room_ = Some chat →
     do_join_chat priv queued (Some room_) = (priv, Some chat, []))
  ∧ ∃ chat,
      (do_join_chat priv queued (Some room_)).1.2 = Some chat
      ∧ chats_by_room (do_join_chat priv queued (Some room_)).1.1 !! room_ptr room_
        = Some chat
      ∧ do_join_chat (do_join_chat priv queued (Some room_)).1.1 queued' (Some room_)
        = ((do_join_chat priv queued (Some room_)).1.1, Some chat, []).
Proof.
  assert (Hagain : ∀ p q chat, chats_by_room p !! room_ptr room_ = Some chat →
            do_join_chat p q (Some room_) = (p, Some chat, [])).
  { intros p q chat Hc. unfold do_join_chat. by rewrite Hc. }
  split; [by apply Hagain|].
  assert (∃ chat, (do_join_chat priv queued (Some room_)).1.2 = Some chat
            ∧ chats_by_room (do_join_chat priv queued (Some room_)).1.1 !! room_ptr room_
              = Some chat) as (chat & Hret & Hreg).
  { unfold do_join_chat.
    destruct (chats_by_room priv !! room_ptr room_) as [chat|] eqn:Hc.
    - by exists chat.
    - exists (int_wrap (chat_id priv + 1)). split; [done|]. apply lookup_insert_eq. }
  exists chat. split; [done|]. split; [done|]. by apply Hagain.
Qed.

Lemma filter_remove_first (P : subscription → Prop) `{∀ x, Decision (P x)} x l :
  P x → filter P (remove_first x l) = remove_first x (filter P l).
Proof.
  intros HP. induction l as [|y l IH]; [done|]. simpl.
  destruct (decide (y = x)) as [->|Hne].
  - rewrite filter_cons_True by done. simpl. by rewrite decide_True.
  - destruct (decide (P y)).
    + rewrite !filter_cons_True by done. simpl. by rewrite decide_False, IH.
    + by rewrite !filter_cons_False.
Qed.

Lemma remove_first_subseteq x l : remove_first x l ⊆ l.
Proof.
  induction l as [|y l IH]; [done|]. simpl. intros z Hz.
  destruct (decide (y = x)); [by right|].
  apply elem_of_cons in Hz as [->|Hz]; [left|right; by apply IH].
Qed.

Lemma remove_first_other x y l : y ∈ l → y ≠ x → y ∈ remove_first x l.
Proof.
  intros Hin Hne. induction l as [|z l IH]; [done|]. simpl.
  apply elem_of_cons in Hin as [->|Hin].
  - rewrite decide_False by done. by left.
  - destruct (decide (z = x)); [done|]. right. by apply IH.
Qed.

Lemma apply_calls_app t calls calls' :
  apply_calls t (calls ++ calls') = apply_calls (apply_calls t calls) calls'.
Proof. apply foldl_app. Qed.

Lemma apply_cancel_if_queued t msg :
  apply_calls t (cancel_if_queued msg)
  = {| pending := match msg with Some m => delete m (pending t) | None => pending t end;
       subscriptions := subscriptions t |}.
Proof. destruct msg; [done|]. by destruct t. Qed.

(** A call that registers nothing for the chat keeps it silent. *)
Lemma apply_call_silent c t k :
  registers k ≠ Some (chat_data c) → silent c t → silent c (apply_call t k).
Proof.
  intros Hk [Hp Hs]. destruct k; try done; simpl in *.
  - split; [|done]. intros msg cb. simpl.
    destruct (decide (queued = msg)) as [->|].
    + rewrite lookup_insert_eq. congruence.
    + rewrite lookup_insert_ne by done. apply Hp.
  - split; [|done]. intros m cb. simpl.
    destruct (decide (msg = m)) as [->|].
    + by rewrite lookup_delete_eq.
    + rewrite lookup_delete_ne by done. apply Hp.
  - split; [done|]. intros ch kl cb0. simpl.
    rewrite elem_of_app, list_elem_of_singleton. intros [?|?]; [by eapply Hs|congruence].
  - split; [done|]. intros ch kl cb0 Hin. simpl in Hin.
    apply remove_first_subseteq in Hin. by eapply Hs.
Qed.

Lemma apply_calls_silent c t calls :
  Forall (λ k, registers k ≠ Some (chat_data c)) calls →
  silent c t → silent c (apply_calls t calls).
Proof.
  intros Hcalls. revert t. induction Hcalls as [|k calls Hk _ IH]; intros t Ht; [done|].
  apply IH. by apply apply_call_silent.
Qed.

(** For a silent chat no callback is due, whatever comes in. *)
Lemma silent_no_callback c t e :
  silent c t → Forall (λ due, due.2 ≠ chat_data c) (callbacks_due t e).
Proof.
  intros [Hp Hs]. destruct e as [msg status node|channel klass data_node]; simpl.
  - destruct (pending t !! msg) as [[cb data]|] eqn:E; [|done].
    constructor; [|done]. simpl. intros ->. by eapply Hp.
  - apply Forall_forall. intros [cb data] Hin.
    apply list_elem_of_omap in Hin as ([[[ch kl] cb'] data'] & Hin & Hsome).
    destruct (decide _); [|done]. injection Hsome as <- <-.
    simpl. intros ->. by eapply Hs.
Qed.

Lemma destroy_silences priv chat t :
  tracks chat t →
  silent (conv chat) (apply_calls t (chime_destroy_chat priv chat).2)
  ∧ ∀ msg, soup_msg (msgs chat) = Some msg ∨ members_msg chat = Some msg →
      pending (apply_calls t (chime_destroy_chat priv chat).2) !! msg = None.
Proof.
  intros [Hreq Hsub]. unfold chime_destroy_chat. cbn [snd].
  rewrite !apply_calls_app, !apply_cancel_if_queued. cbn [pending subscriptions].
  set (u1 := (room_channel (room chat), "RoomMessage", chat_msg_jugg_cb_ptr,
              chat_data (conv chat))) in *.
  set (u2 := (room_channel (room chat), "RoomMembership", chat_membership_jugg_cb_ptr,
              chat_data (conv chat))) in *.
  cbn [apply_calls foldl apply_call pending subscriptions].
  set (p' := match members_msg chat with
             | Some m => delete m _
             | None => _
             end).
  assert (Hgone : ∀ msg, soup_msg (msgs chat) = Some msg ∨ members_msg chat = Some msg →
            p' !! msg = None).
  { intros msg Hmsg. subst p'.
    destruct (members_msg chat) as [m|], (soup_msg (msgs chat)) as [m'|];
      destruct Hmsg as [[= ->]|[= ->]];
      rewrite ?lookup_delete_eq; try done.
    destruct (decide (m = msg)) as [->|];
      [by rewrite lookup_delete_eq|by rewrite lookup_delete_ne, lookup_delete_eq]. }
  assert (Hsub' : ∀ msg, p' !! msg = pending t !! msg ∨ p' !! msg = None).
  { intros msg. subst p'.
    destruct (members_msg chat) as [m|], (soup_msg (msgs chat)) as [m'|];
      rewrite ?lookup_delete; repeat case_decide; auto. }
  split; [|done]. split.
  - intros msg cb Hp. cbn [pending] in Hp.
    destruct (Hsub' msg) as [E|E]; [|congruence].
    rewrite Hp in E. symmetry in E.
    rewrite (Hgone msg (Hreq _ _ E)) in Hp. done.
  - intros channel klass cb Hin. cbn [subscriptions] in Hin.
    assert (Hf : filter (λ s : subscription, s.2 = chat_data (conv chat))
                   (remove_first u2 (remove_first u1 (subscriptions t))) = []).
    { rewrite !filter_remove_first by done. rewrite Hsub. simpl.
      rewrite decide_True by done. simpl. by rewrite decide_True. }
    eapply (filter_nil_not_elem_of _ _ _ Hf); [|exact Hin]. done.
Qed.

(** The calls of one callback of chat.c register nothing but its own chat. *)
Lemma fetch_chat_memberships_registers cxn queued chat next_token :
  Forall (λ k, registers k = None ∨ registers k = Some (chat_data (conv chat)))
    (fetch_chat_memberships cxn queued chat next_token).2.
Proof. constructor; [by right|constructor]. Qed.

(** C6, as the code has it.  Let the queue and the channel hold for a
    chat what the chat keeps track of: of requests, its history and
    membership requests in flight and no other (no send in flight), and
    its two subscriptions.  Leaving the room cancels each of these
    requests and removes its RoomMessage and RoomMembership
    subscriptions; the one call to the host is the note that the chat
    was left.  From then on the chat is not live, no request and no
    subscription carries it, a response to a cancelled request completes
    nothing, and no response or event whatever makes a callback of this
    chat due; this stays so as long as nothing is registered anew for
    it.  A subscription that carries another context, as the one of the
    device channel does, is kept. *)
Theorem leave_silences_chat
    (priv : ChimeConnectionPrivate) (t : transport) (chat : chime_chat) :
  tracks chat t →
  let left := chime_destroy_chat priv chat in
  let t' := apply_calls t left.2 in
  (∀ msg, soup_msg (msgs chat) = Some msg ∨ members_msg chat = Some msg →
     soup_session_cancel_message msg SOUP_STATUS_CANCELLED ∈ left.2
     ∧ pending t' !! msg = None
     ∧ ∀ status node, callbacks_due t' (http_response msg status node) = [])
  ∧ chime_jugg_unsubscribe (room_channel (room chat)) "RoomMessage"
      chat_msg_jugg_cb_ptr (chat_data (conv chat)) ∈ left.2
  ∧ chime_jugg_unsubscribe (room_channel (room chat)) "RoomMembership"
      chat_membership_jugg_cb_ptr (chat_data (conv chat)) ∈ left.2
  ∧ omap host_call_of left.2 = [conv chat]
  ∧ last left.2 = Some (serv_got_chat_left (conv chat))
  ∧ live_chats left.1 !! conv chat = None
  ∧ chats_by_room left.1 !! room_ptr (room chat) = None
  ∧ silent (conv chat) t'
  ∧ (∀ e, Forall (λ due, due.2 ≠ chat_data (conv chat)) (callbacks_due t' e))
  ∧ (∀ calls e,
       Forall (λ k, registers k ≠ Some (chat_data (conv chat))) calls →
       Forall (λ due, due.2 ≠ chat_data (conv chat))
         (callbacks_due (apply_calls t' calls) e))
  ∧ (∀ s : subscription,
       s ∈ subscriptions t → s.2 ≠ chat_data (conv chat) → s ∈ subscriptions t').
Proof.
  intros Htracks left t'.
  destruct (destroy_silences priv chat t Htracks) as [Hsilent Hgone].
  fold left in Hsilent, Hgone. fold t' in Hsilent, Hgone.
  assert (Hkept : ∀ s : subscription,
            s ∈ subscriptions t → s.2 ≠ chat_data (conv chat) → s ∈ subscriptions t').
  { intros s Hin Hother. subst t' left. unfold chime_destroy_chat. cbn [snd].
    rewrite !apply_calls_app, !apply_cancel_if_queued.
    cbn [apply_calls foldl apply_call pending subscriptions].
    apply remove_first_other; [apply remove_first_other; [done|]|];
      intros ->; by apply Hother. }
  split.
  { intros msg Hmsg. split; [|split].
    - subst left. unfold chime_destroy_chat. cbn [snd].
      destruct Hmsg as [-> | ->]; simpl; set_solver.
    - by apply Hgone.
    - intros status node. simpl. by rewrite (Hgone msg Hmsg). }
  subst left. unfold chime_destroy_chat. cbn [fst snd live_chats chats_by_room].
  split; [set_solver|]. split; [set_solver|].
  split; [by destruct (soup_msg (msgs chat)), (members_msg chat)|].
  split; [by destruct (soup_msg (msgs chat)), (members_msg chat)|].
  split; [apply lookup_delete_eq|]. split; [apply lookup_delete_eq|].
  split; [done|]. split; [by intros e; apply silent_no_callback|].
  split; [|done].
  intros calls e Hcalls. by apply silent_no_callback, apply_calls_silent.
Qed.

Lemma filter_none (P : subscription → Prop) `{∀ x, Decision (P x)} l :
  (∀ x, x ∈ l → ¬ P x) → filter P l = [].
Proof.
  induction l as [|y l IH]; intros Hl; [done|].
  rewrite filter_cons_False by (apply Hl; left). apply IH. intros x Hx. apply Hl. by right.
Qed.

(** A fresh join leaves the queue and the channel tracking the new chat. *)
Lemma do_join_chat_tracks priv queued room_ t chat :
  chats_by_room priv !! room_ptr room_ = None →
  silent (int_wrap (chat_id priv + 1)) t →
  live_chats (do_join_chat priv queued (Some room_)).1.1 !! int_wrap (chat_id priv + 1) = Some chat →
  conv chat = int_wrap (chat_id priv + 1)
  ∧ tracks chat (apply_calls t (do_join_chat priv queued (Some room_)).2).
Proof.
  intros Hnew [Hp Hs]. unfold do_join_chat, fetch_chat_memberships. rewrite Hnew.
  cbn [fst snd live_chats].
  rewrite lookup_insert_eq. intros [= <-]. split; [done|]. split.
  - intros msg cb. cbn. intros Hin.
    destruct (decide (queued = msg)) as [->|Hne]; [by right|].
    rewrite lookup_insert_ne in Hin by done. by apply Hp in Hin.
  - cbn. rewrite !filter_app.
    match goal with
    | |- context [filter ?P (subscriptions t)] =>
        replace (filter P (subscriptions t)) with (@nil subscription);
        [by rewrite !filter_cons_True, !filter_nil by done|]
    end.
    symmetry. apply filter_none.
    intros [[[channel klass] cb] data] Hin. simpl. intros ->. by eapply Hs.
Qed.

Lemma sample_tracks : tracks Sample.chat_fetching Sample.transport_fetching.
Proof.
  split.
  - intros msg cb Hp. simpl in *.
    destruct (decide (msg = 10%nat)) as [->|]; [by left|].
    destruct (decide (msg = 11%nat)) as [->|]; [by right|].
    exfalso. by simplify_map_eq.
  - reflexivity.
Defined.

Lemma leave_silences_chat_witness :
  let left := chime_destroy_chat Sample.priv Sample.chat_fetching in
  let t' := apply_calls Sample.transport_fetching left.2 in
  (∀ msg, soup_msg (msgs Sample.chat_fetching) = Some msg
          ∨ members_msg Sample.chat_fetching = Some msg →
     soup_session_cancel_message msg SOUP_STATUS_CANCELLED ∈ left.2
     ∧ pending t' !! msg = None
     ∧ ∀ status node, callbacks_due t' (http_response msg status node) = [])
  ∧ chime_jugg_unsubscribe (room_channel (room Sample.chat_fetching)) "RoomMessage"
      chat_msg_jugg_cb_ptr (chat_data (conv Sample.chat_fetching)) ∈ left.2
  ∧ chime_jugg_unsubscribe (room_channel (room Sample.chat_fetching)) "RoomMembership"
      chat_membership_jugg_cb_ptr (chat_data (conv Sample.chat_fetching)) ∈ left.2
  ∧ omap host_call_of left.2 = [conv Sample.chat_fetching]
  ∧ last left.2 = Some (serv_got_chat_left (conv Sample.chat_fetching))
  ∧ live_chats left.1 !! conv Sample.chat_fetching = None
  ∧ chats_by_room left.1 !! room_ptr (room Sample.chat_fetching) = None
  ∧ silent (conv Sample.chat_fetching) t'
  ∧ (∀ e, Forall (λ due, due.2 ≠ chat_data (conv Sample.chat_fetching))
            (callbacks_due t' e))
  ∧ (∀ calls e,
       Forall (λ k, registers k ≠ Some (chat_data (conv Sample.chat_fetching))) calls →
       Forall (λ due, due.2 ≠ chat_data (conv Sample.chat_fetching))
         (callbacks_due (apply_calls t' calls) e))
  ∧ (∀ s : subscription,
       s ∈ subscriptions Sample.transport_fetching →
       s.2 ≠ chat_data (conv Sample.chat_fetching) → s ∈ subscriptions t').
Proof.
  apply (leave_silences_chat Sample.priv Sample.transport_fetching Sample.chat_fetching).
  exact sample_tracks.
Defined.

End SessionProofs.

(** ** Mentions *)

Module MentionProofs.
Import Glib Chat StrFacts.

Lemma strstr_drop_shorter s a n :
  a ≠ "" → strstr s a = Some n →
  (String.length (Str.drop (n + String.length a) s) < String.length s)%nat.
Proof.
  intros Ha Hs. rewrite str_length_drop.
  destruct s as [|c s]; [by rewrite GlibProofs.strstr_nil in Hs|].
  destruct a as [|d a]; [done|]. simpl. lia.
Qed.

Lemma prefix_drop_shorter s a :
  a ≠ "" → String.prefix a s = true →
  (String.length (Str.drop (String.length a) s) < String.length s)%nat.
Proof.
  intros Ha Hp. rewrite str_length_drop.
  destruct a as [|d a]; [done|]. destruct s as [|c s]; [done|]. simpl. lia.
Qed.

(** Enough fuel: the loops do not depend on it. *)
Lemma strsplit_loop_fuel a f1 f2 s :
  a ≠ "" → (String.length s < f1)%nat → (String.length s < f2)%nat →
  strsplit_loop f1 None s a = strsplit_loop f2 None s a.
Proof.
  intros Ha. revert f2 s. induction f1 as [|f1 IH]; intros f2 s H1 H2; [lia|].
  destruct f2 as [|f2]; [lia|]. cbn [strsplit_loop fmap option_fmap option_map].
  destruct (decide (None = Some 0)) as [?|_]; [done|].
  destruct (strstr s a) as [n|] eqn:Hs; [|done].
  pose proof (strstr_drop_shorter s a n Ha Hs).
  by rewrite (IH f2) by lia.
Qed.

Lemma rewrite_each_loop_fuel a b f1 f2 s :
  a ≠ "" → (String.length s < f1)%nat → (String.length s < f2)%nat →
  rewrite_each_loop f1 a b s = rewrite_each_loop f2 a b s.
Proof.
  intros Ha. revert f2 s. induction f1 as [|f1 IH]; intros f2 s H1 H2; [lia|].
  destruct f2 as [|f2]; [lia|]. cbn [rewrite_each_loop].
  destruct (String.prefix a s) eqn:Hp.
  - pose proof (prefix_drop_shorter s a Ha Hp). by rewrite (IH f2) by lia.
  - destruct s as [|c s]; [done|]. simpl in *. by rewrite (IH f2) by lia.
Qed.

(** The equations of [rewrite_each]: an occurrence at the head gives way
    to [b]; any other byte is kept. *)
Lemma rewrite_each_nil a b : a ≠ "" → rewrite_each a b "" = "".
Proof. intros Ha. unfold rewrite_each. simpl. by destruct a. Qed.

Lemma rewrite_each_occurrence a b s :
  a ≠ "" → String.prefix a s = true →
  rewrite_each a b s = b +:+ rewrite_each a b (Str.drop (String.length a) s).
Proof.
  intros Ha Hp. unfold rewrite_each at 1. cbn [rewrite_each_loop]. rewrite Hp.
  pose proof (prefix_drop_shorter s a Ha Hp).
  f_equal. apply rewrite_each_loop_fuel; [done|lia..].
Qed.

Lemma rewrite_each_other a b c s :
  a ≠ "" → String.prefix a (String c s) = false →
  rewrite_each a b (String c s) = String c (rewrite_each a b s).
Proof.
  intros Ha Hp. unfold rewrite_each at 1. cbn [rewrite_each_loop]. by rewrite Hp.
Qed.

Lemma rewrite_each_app a b s :
  a ≠ "" → rewrite_each a b (a +:+ s) = b +:+ rewrite_each a b s.
Proof.
  intros Ha. rewrite rewrite_each_occurrence by (done || apply str_prefix_app).
  by rewrite str_drop_app.
Qed.

Lemma rewrite_each_none a b s :
  a ≠ "" → strstr s a = None → rewrite_each a b s = s.
Proof.
  intros Ha. induction s as [|c s IH]; intros Hs; [by apply rewrite_each_nil|].
  cbn [strstr] in Hs. destruct (String.prefix a (String c s)) eqn:Hp; [done|].
  rewrite rewrite_each_other by done. f_equal. apply IH.
  by destruct (strstr s a).
Qed.

Lemma rewrite_each_first a b s n :
  a ≠ "" → strstr s a = Some n →
  rewrite_each a b s
  = Str.take n s +:+ b +:+ rewrite_each a b (Str.drop (n + String.length a) s).
Proof.
  intros Ha. revert n. induction s as [|c s IH]; intros n Hs.
  { by rewrite GlibProofs.strstr_nil in Hs. }
  cbn [strstr] in Hs. destruct (String.prefix a (String c s)) eqn:Hp.
  - injection Hs as <-. by rewrite rewrite_each_occurrence.
  - destruct (strstr s a) as [n'|] eqn:Hs'; [|done]. injection Hs as <-.
    rewrite rewrite_each_other by done. rewrite (IH n' eq_refl). done.
Qed.

Lemma strjoin_cons b x l : l ≠ [] → strjoin b (x :: l) = x +:+ b +:+ strjoin b l.
Proof. by destruct l. Qed.

(** Splitting at [a] and joining with [b] rewrites each occurrence. *)
Lemma split_join_rewrite a b s fuel :
  a ≠ "" → (String.length s < fuel)%nat →
  strjoin b ((strsplit_loop fuel None s a).1 ++ [(strsplit_loop fuel None s a).2])
  = rewrite_each a b s.
Proof.
  intros Ha. revert s. induction fuel as [|fuel IH]; intros s Hf; [lia|].
  cbn [strsplit_loop fmap option_fmap option_map].
  destruct (decide (None = Some 0)) as [?|_]; [done|].
  destruct (strstr s a) as [n|] eqn:Hs.
  - pose proof (strstr_drop_shorter s a n Ha Hs).
    specialize (IH (Str.drop (n + String.length a) s) ltac:(lia)).
    destruct (strsplit_loop fuel None _ a) as [tokens rest]. cbn [fst snd] in *.
    rewrite <- app_comm_cons, strjoin_cons by (by destruct tokens).
    by rewrite IH, (rewrite_each_first a b s n).
  - simpl. by rewrite rewrite_each_none.
Qed.

Lemma replace_rewrite_each a b s :
  a ≠ "" → replace (Some s) a b = Some (rewrite_each a b s).
Proof.
  intros Ha. unfold replace, g_strsplit. rewrite decide_False by done.
  change (0 <? 1) with true. cbv iota.
  pose proof (split_join_rewrite a b s (S (String.length s)) Ha ltac:(lia)) as HJ.
  destruct (strsplit_loop _ None s a) as [tokens rest] eqn:E. cbn [fst snd] in HJ.
  simpl. f_equal. destruct (decide (s = "")) as [->|]; [|done].
  cbn in E. destruct a; [done|]. injection E as <- <-.
  by rewrite rewrite_each_nil.
Qed.

Lemma parse_outbound_mentions_rewrite members message :
  Forall (λ entry, display_name entry.2 ≠ "") members →
  parse_outbound_mentions members message = Some (rewrite_outbound members message).
Proof.
  intros Hm. unfold parse_outbound_mentions, rewrite_outbound.
  rewrite !replace_rewrite_each by done.
  generalize (rewrite_each "@present" "<@present|Present Members>"
                (rewrite_each "@all" "<@all|All Members>" message)).
  induction Hm as [|[mid m] members Hne _ IH]; intros text; [done|].
  cbn [foldl]. unfold expand_member_cb at 2. cbn [fst snd] in *.
  rewrite replace_rewrite_each by done. apply IH.
Qed.

(** *** Inbound *)

Lemma prefix_length p s :
  String.prefix p s = true → (String.length p ≤ String.length s)%nat.
Proof. intros (u & ->)%str_prefix_inv. rewrite str_length_app. lia. Qed.

Lemma lazy_until_gt_shorter s name rest :
  lazy_until_gt s = Some (name, rest) → (String.length rest < String.length s)%nat.
Proof.
  revert name. induction s as [|c s IH]; intros name; [done|].
  cbn [lazy_until_gt].
  destruct (String.prefix "&gt;" (String c s)) eqn:Hp.
  - intros [= _ <-]. apply prefix_length in Hp.
    pose proof (str_length_drop 4 (String c s)) as Hd. simpl in *. lia.
  - destruct (newline_at (String c s)); [done|].
    destruct (lazy_until_gt s) as [[n r]|]; [|done].
    intros [= _ <-]. specialize (IH n eq_refl). simpl. lia.
Qed.

(** An ASCII byte of the class is one character of it. *)
Lemma is_word_or_hyphen_ascii c :
  is_word_or_hyphen c = true → (nat_of_ascii c < 128)%nat.
Proof.
  unfold is_word_or_hyphen. rewrite !orb_true_iff, !bool_decide_eq_true. lia.
Qed.

Lemma prefix_gt_app u v :
  String.prefix "&gt;" u = false → u ≠ "" →
  String.prefix "&gt;" (u +:+ String "&" v) = false.
Proof.
  intros Hp Hu. apply not_true_is_false. intros E.
  destruct u as [|c1 u]; [done|]. rewrite str_app_cons in E. apply str_prefix_cons in E as [<- E].
  destruct u as [|c2 u]; [by apply str_prefix_cons in E as [? _]|].
  rewrite str_app_cons in E. apply str_prefix_cons in E as [<- E].
  destruct u as [|c3 u]; [by apply str_prefix_cons in E as [? _]|].
  rewrite str_app_cons in E. apply str_prefix_cons in E as [<- E].
  destruct u as [|c4 u]; [by apply str_prefix_cons in E as [? _]|].
  rewrite str_app_cons in E. apply str_prefix_cons in E as [<- E].
  pose proof (str_prefix_app "&gt;" u) as Hp'. change ("&gt;" +:+ u) with
    (String "&" (String "g" (String "t" (String ";" u)))) in Hp'. congruence.
Qed.

Lemma newline_at_app u v :
  newline_at u = false → u ≠ "" → newline_at (u +:+ String "&" v) = false.
Proof.
  intros Hn Hu.
  assert (H133 : bool_decide (nat_of_ascii "&" = 133%nat) = false) by (by vm_compute).
  assert (H128 : bool_decide (nat_of_ascii "&" = 128%nat) = false) by (by vm_compute).
  assert (H168 : bool_decide (168 ≤ nat_of_ascii "&" ≤ 169)%nat = false) by (by vm_compute).
  destruct u as [|c1 [|c2 [|c3 u]]]; [done|..];
    rewrite ?str_app_cons; cbn [newline_at] in *; rewrite ?str_app_nil_l.
  - apply orb_false_iff in Hn as [-> _]. cbn [orb].
    rewrite H133, H128, !andb_false_r. by destruct v.
  - apply orb_false_iff in Hn as [-> Hn]. apply orb_false_iff in Hn as [-> _]. cbn [orb].
    by rewrite H168, !andb_false_r.
  - done.
Qed.

Lemma strstr_none_cons c s a :
  strstr (String c s) a = None → String.prefix a (String c s) = false ∧ strstr s a = None.
Proof.
  cbn [strstr]. destruct (String.prefix a (String c s)); [done|].
  by destruct (strstr s a).
Qed.

Lemma lazy_until_gt_name name post :
  strstr name "&gt;" = None → no_newline name = true →
  lazy_until_gt (name +:+ "&gt;" +:+ post) = Some (name, post).
Proof.
  induction name as [|c name IH]; intros Hs Hn.
  { rewrite str_app_nil_l. change ("&gt;" +:+ post) with (String "&" ("gt;" +:+ post)).
    cbn [lazy_until_gt]. change (String "&" ("gt;" +:+ post)) with ("&gt;" +:+ post).
    rewrite str_prefix_app. change 4%nat with (String.length "&gt;"). by rewrite str_drop_app. }
  apply strstr_none_cons in Hs as [Hp Hs].
  cbn [no_newline] in Hn. apply andb_prop in Hn as [Hc Hn].
  apply negb_true_iff in Hc.
  pose proof (prefix_gt_app (String c name) ("gt;" +:+ post) Hp ltac:(done)) as Hp'.
  pose proof (newline_at_app (String c name) ("gt;" +:+ post) Hc ltac:(done)) as Hc'.
  change (String "&" ("gt;" +:+ post)) with ("&gt;" +:+ post) in Hp', Hc'.
  rewrite (str_app_cons c name) in Hp', Hc'. rewrite (str_app_cons c name).
  cbn [lazy_until_gt]. rewrite Hp', Hc'.
  by rewrite (IH Hs Hn).
Qed.

(** Where no display name occurs in the text, the member steps leave it
    as it is. *)
Lemma rewrite_members_none members text :
  Forall (λ entry, display_name entry.2 ≠ ""
                   ∧ strstr text (display_name entry.2) = None) members →
  foldl (λ text entry, rewrite_each (display_name entry.2) (wire_mention entry) text)
    text members = text.
Proof.
  induction 1 as [|entry members [Hne Hnone] _ IH]; [done|].
  cbn [foldl]. by rewrite rewrite_each_none.
Qed.

Lemma prefix_app_l a b s : String.prefix (a +:+ b) s = true → String.prefix a s = true.
Proof.
  revert s. induction a as [|c a IH]; intros s; [by destruct s|].
  rewrite str_app_cons. destruct s as [|d s]; [done|].
  rewrite !str_prefix_cons. intros [-> ?]. auto.
Qed.

Lemma strstr_longer_none s a b : strstr s a = None → strstr s (a +:+ b) = None.
Proof.
  induction s as [|c s IH]; cbn [strstr].
  - destruct (String.prefix a "") eqn:Ha; [done|]. intros _.
    destruct (String.prefix (a +:+ b) "") eqn:Hab; [|done].
    apply prefix_app_l in Hab. congruence.
  - destruct (String.prefix a (String c s)) eqn:Ha; [done|].
    destruct (strstr s a) eqn:Hs; [done|]. intros _.
    destruct (String.prefix (a +:+ b) (String c s)) eqn:Hab.
    + apply prefix_app_l in Hab. congruence.
    + by rewrite IH.
Qed.

Lemma strstr_occurs u a v : is_Some (strstr (u +:+ a +:+ v) a).
Proof.
  induction u as [|c u IH].
  - rewrite str_app_nil_l. destruct (a +:+ v) eqn:E; cbn [strstr]; rewrite <- ?E, str_prefix_app; eauto.
  - rewrite str_app_cons. cbn [strstr]. destruct (String.prefix _ _); [eauto|].
    destruct IH as [n ->]. eauto.
Qed.

(** No mention opens in [pre] or across its end when what follows
    begins with [&]. *)
Lemma prefix_opening_app u v :
  String.prefix "&lt;@" u = false → u ≠ "" →
  String.prefix "&lt;@" (u +:+ String "&" v) = false.
Proof.
  intros Hp Hu. apply not_true_is_false. intros E.
  destruct u as [|c1 u]; [done|]. rewrite str_app_cons in E. apply str_prefix_cons in E as [<- E].
  destruct u as [|c2 u]; [by apply str_prefix_cons in E as [? _]|].
  rewrite str_app_cons in E. apply str_prefix_cons in E as [<- E].
  destruct u as [|c3 u]; [by apply str_prefix_cons in E as [? _]|].
  rewrite str_app_cons in E. apply str_prefix_cons in E as [<- E].
  destruct u as [|c4 u]; [by apply str_prefix_cons in E as [? _]|].
  rewrite str_app_cons in E. apply str_prefix_cons in E as [<- E].
  destruct u as [|c5 u]; [by apply str_prefix_cons in E as [? _]|].
  rewrite str_app_cons in E. apply str_prefix_cons in E as [<- E].
  pose proof (str_prefix_app "&lt;@" u) as Hp'. change ("&lt;@" +:+ u) with
    (String "&" (String "l" (String "t" (String ";" (String "@" u))))) in Hp'. congruence.
Qed.

(** What [lazy_until_gt] takes as the name holds neither [&gt;] nor a
    newline, and [&gt;] follows it. *)
Lemma prefix_app_r p u v : String.prefix p u = true → String.prefix p (u +:+ v) = true.
Proof.
  intros (w & ->)%str_prefix_inv. rewrite str_app_assoc. apply str_prefix_app.
Qed.

Lemma newline_at_app_r u v : newline_at u = true → newline_at (u +:+ v) = true.
Proof.
  destruct u as [|c1 [|c2 [|c3 u]]]; [done|..]; rewrite ?str_app_cons, ?str_app_nil_l;
    cbn [newline_at].
  - rewrite orb_false_r. by intros ->.
  - rewrite !orb_false_r. intros [->| ->]%orb_true_iff; [done|].
    rewrite orb_true_r. by destruct v.
  - done.
Qed.

Lemma strstr_none_intro c s a :
  String.prefix a (String c s) = false → strstr s a = None → strstr (String c s) a = None.
Proof. intros Hp Hs. cbn [strstr]. by rewrite Hp, Hs. Qed.

Lemma lazy_until_gt_inv s name rest :
  lazy_until_gt s = Some (name, rest) →
  s = name +:+ "&gt;" +:+ rest ∧ strstr name "&gt;" = None ∧ no_newline name = true.
Proof.
  revert name rest. induction s as [|c s IH]; intros name rest; [done|].
  cbn [lazy_until_gt].
  destruct (String.prefix "&gt;" (String c s)) eqn:Hp.
  - apply str_prefix_inv in Hp as [u Hu]. rewrite Hu.
    change 4%nat with (String.length "&gt;"). rewrite str_drop_app.
    by intros [= <- <-].
  - destruct (newline_at (String c s)) eqn:Hn; [done|].
    destruct (lazy_until_gt s) as [[n r]|] eqn:Hl; [|done].
    intros [= <- <-]. destruct (IH n r eq_refl) as (-> & Hs & Hnl).
    split; [by rewrite str_app_cons|]. split.
    + apply strstr_none_intro; [|done].
      apply not_true_is_false. intros E.
      apply (prefix_app_r _ _ ("&gt;" +:+ r)) in E.
      rewrite str_app_cons in E. congruence.
    + cbn [no_newline]. rewrite Hnl, andb_true_r. apply negb_true_iff.
      apply not_true_is_false. intros E.
      apply (newline_at_app_r _ ("&gt;" +:+ r)) in E.
      rewrite str_app_cons in E. congruence.
Qed.

Section Inbound.
Context `{External}.

Lemma word_bytes_ascii c s :
  is_word_or_hyphen c = true → word_bytes (String c s) = 1%nat.
Proof.
  intros Hc. cbn [word_bytes].
  rewrite decide_True by (by apply is_word_or_hyphen_ascii). by rewrite Hc.
Qed.

Lemma span_word_from_shorter inside s :
  (String.length (span_word_from inside s).2 ≤ String.length s)%nat.
Proof.
  revert inside. induction s as [|c s IH]; intros inside; [done|].
  cbn [span_word_from].
  destruct inside as [|n].
  - destruct (word_bytes (String c s)) as [|n]; [done|].
    specialize (IH n). destruct (span_word_from n s) as [w r]. simpl in *. lia.
  - specialize (IH n). destruct (span_word_from n s) as [w r]. simpl in *. lia.
Qed.

Lemma span_word_shorter s :
  (String.length (span_word s).2 ≤ String.length s)%nat.
Proof. apply span_word_from_shorter. Qed.

Lemma mention_match_shorter s id name rest :
  mention_match s = Some (id, name, rest) → (String.length rest < String.length s)%nat.
Proof.
  unfold mention_match. destruct (String.prefix "&lt;@" s) eqn:Hp; [|done].
  pose proof (span_word_shorter (Str.drop 5 s)) as Hw. rewrite str_length_drop in Hw.
  destruct (span_word (Str.drop 5 s)) as [w r]. simpl in Hw.
  destruct (decide (w = "")) as [?|_]; [done|].
  destruct r as [|c r]; [done|].
  destruct (decide (c = "|"%char)) as [->|Hc].
  - destruct (lazy_until_gt r) as [[n r']|] eqn:Hl; [|done].
    intros [= _ _ <-]. apply lazy_until_gt_shorter in Hl. simpl in Hw. lia.
  - destruct c as [[] [] [] [] [] [] [] []]; done.
Qed.

Lemma mention_match_nil : mention_match "" = None.
Proof. done. Qed.

Lemma mention_replace_loop_fuel f1 f2 s :
  (String.length s ≤ f1)%nat → (String.length s ≤ f2)%nat →
  mention_replace_loop f1 s = mention_replace_loop f2 s.
Proof.
  revert f2 s. induction f1 as [|f1 IH]; intros f2 s H1 H2.
  - destruct s; [|simpl in H1; lia]. by destruct f2.
  - destruct f2 as [|f2]; [destruct s; [done|simpl in H2; lia]|].
    cbn [mention_replace_loop].
    destruct (mention_match s) as [[[i n] rest]|] eqn:Hm.
    + apply mention_match_shorter in Hm. by rewrite (IH f2) by lia.
    + destruct s as [|c s]; [done|]. simpl in *. by rewrite (IH f2) by lia.
Qed.

(** The equations of [mention_replace]: a match at the head gives way to
    its name in bold; any other byte is kept. *)
Lemma mention_replace_match s id name rest :
  mention_match s = Some (id, name, rest) →
  mention_replace s = "<b>" +:+ name +:+ "</b>" +:+ mention_replace rest.
Proof.
  intros Hm. unfold mention_replace at 1.
  pose proof (mention_match_shorter _ _ _ _ Hm) as Hlt.
  destruct (String.length s) as [|n] eqn:Hn; [lia|].
  cbn [mention_replace_loop]. rewrite Hm. do 3 f_equal.
  apply mention_replace_loop_fuel; lia.
Qed.

Lemma mention_replace_other c s :
  mention_match (String c s) = None →
  mention_replace (String c s) = String c (mention_replace s).
Proof. intros Hm. unfold mention_replace at 1. simpl. by rewrite Hm. Qed.

(** An id of ASCII letters, digits, underscores and hyphens is one the
    class takes whole. *)
Lemma all_word_run id : all_word id = true → word_run id.
Proof.
  intros Hw r. unfold span_word.
  induction id as [|c id IH].
  - rewrite str_app_nil_l. cbn [span_word_from word_bytes].
    by rewrite decide_True by (vm_compute; lia).
  - simpl in Hw. apply andb_prop in Hw as [Hc Hw].
    rewrite str_app_cons. cbn [span_word_from].
    rewrite (word_bytes_ascii _ _ Hc). by rewrite (IH Hw).
Qed.

Lemma span_word_id id r :
  all_word id = true → span_word (id +:+ String "|" r) = (id, String "|" r).
Proof. intros Hw. by apply all_word_run. Qed.

(** What the pattern matches at the head of a text. *)
Lemma mention_match_run id name post :
  id ≠ "" → word_run id →
  strstr name "&gt;" = None → no_newline name = true →
  mention_match ("&lt;@" +:+ id +:+ "|" +:+ name +:+ "&gt;" +:+ post)
  = Some (id, name, post).
Proof.
  intros Hid Hw Hs Hn. unfold mention_match.
  rewrite str_prefix_app. change 5%nat with (String.length "&lt;@"). rewrite str_drop_app.
  change ("|" +:+ name +:+ "&gt;" +:+ post) with (String "|" (name +:+ "&gt;" +:+ post)).
  rewrite (Hw _). rewrite decide_False by done.
  by rewrite lazy_until_gt_name.
Qed.

Lemma mention_match_head id name post :
  id ≠ "" → all_word id = true →
  strstr name "&gt;" = None → no_newline name = true →
  mention_match ("&lt;@" +:+ id +:+ "|" +:+ name +:+ "&gt;" +:+ post)
  = Some (id, name, post).
Proof. intros Hid Hw. by apply mention_match_run, all_word_run. Qed.

(** The pattern matches nothing else. *)
Lemma span_word_from_app inside s :
  (span_word_from inside s).1 +:+ (span_word_from inside s).2 = s.
Proof.
  revert inside. induction s as [|c s IH]; intros inside; [done|].
  cbn [span_word_from]. destruct inside as [|n].
  - destruct (word_bytes (String c s)) as [|n]; [done|].
    specialize (IH n). destruct (span_word_from n s) as [w r]. cbn [fst snd] in *.
    by rewrite str_app_cons, IH.
  - specialize (IH n). destruct (span_word_from n s) as [w r]. cbn [fst snd] in *.
    by rewrite str_app_cons, IH.
Qed.

Lemma mention_match_inv s id name rest :
  mention_match s = Some (id, name, rest) →
  s = "&lt;@" +:+ id +:+ "|" +:+ name +:+ "&gt;" +:+ rest
  ∧ id ≠ "" ∧ (span_word (id +:+ "|" +:+ name +:+ "&gt;" +:+ rest)).1 = id
  ∧ strstr name "&gt;" = None ∧ no_newline name = true.
Proof.
  unfold mention_match. destruct (String.prefix "&lt;@" s) eqn:Hp; [|done].
  apply str_prefix_inv in Hp as [u ->].
  change 5%nat with (String.length "&lt;@"). rewrite str_drop_app.
  pose proof (span_word_from_app 0 u) as Happ. fold (span_word u) in Happ.
  destruct (span_word u) as [w r] eqn:Hspan. cbn [fst snd] in Happ.
  destruct (decide (w = "")) as [?|Hw]; [done|].
  destruct r as [|c r]; [done|].
  destruct (decide (c = "|"%char)) as [->|Hc].
  - destruct (lazy_until_gt r) as [[n r']|] eqn:Hl; [|done].
    intros [= <- <- <-]. apply lazy_until_gt_inv in Hl as (-> & Hs & Hn).
    subst u. split; [done|]. split; [done|].
    change (String "|" (n +:+ "&gt;" +:+ r')) with ("|" +:+ n +:+ "&gt;" +:+ r') in Hspan.
    by rewrite Hspan.
  - destruct c as [[] [] [] [] [] [] [] []]; done.
Qed.

Lemma mention_match_no_opening s :
  String.prefix "&lt;@" s = false → mention_match s = None.
Proof. intros Hp. unfold mention_match. by rewrite Hp. Qed.

(** Text without [&lt;@] holds no mention: it is displayed as it is. *)
Lemma mention_replace_plain s : strstr s "&lt;@" = None → mention_replace s = s.
Proof.
  induction s as [|c s IH]; [done|]. intros [Hp Hs]%strstr_none_cons.
  rewrite mention_replace_other by (by apply mention_match_no_opening). by rewrite IH.
Qed.

Lemma mention_replace_before pre v :
  strstr pre "&lt;@" = None →
  mention_replace (pre +:+ String "&" v) = pre +:+ mention_replace (String "&" v).
Proof.
  induction pre as [|c pre IH]; [done|]. intros Hs.
  pose proof Hs as [Hp Hs']%strstr_none_cons.
  pose proof (prefix_opening_app (String c pre) v Hp ltac:(done)) as Hp'.
  rewrite (str_app_cons c pre) in *.
  rewrite mention_replace_other by (by apply mention_match_no_opening).
  by rewrite IH.
Qed.

(** A plain segment and the mention after it. *)
Lemma mention_replace_piece plain id name post :
  strstr plain "&lt;@" = None →
  id ≠ "" → word_run id →
  strstr name "&gt;" = None → no_newline name = true →
  mention_replace (plain +:+ "&lt;@" +:+ id +:+ "|" +:+ name +:+ "&gt;" +:+ post)
  = plain +:+ "<b>" +:+ name +:+ "</b>" +:+ mention_replace post.
Proof.
  intros Hplain Hid Hw Hname Hnl.
  change ("&lt;@" +:+ id +:+ "|" +:+ name +:+ "&gt;" +:+ post)
    with (String "&" ("lt;@" +:+ id +:+ "|" +:+ name +:+ "&gt;" +:+ post)).
  rewrite mention_replace_before by done.
  change (String "&" ("lt;@" +:+ id +:+ "|" +:+ name +:+ "&gt;" +:+ post))
    with ("&lt;@" +:+ id +:+ "|" +:+ name +:+ "&gt;" +:+ post).
  by rewrite (mention_replace_match _ _ _ _ (mention_match_run _ _ post Hid Hw Hname Hnl)).
Qed.

(** Each mention of a text that reads as it is written gives way to its
    name in bold, and the plain text is kept. *)
Lemma mention_replace_pieces pieces last :
  Forall reads_as_written pieces → strstr last "&lt;@" = None →
  mention_replace (wire_text pieces last) = display_text pieces last.
Proof.
  intros Hpieces Hlast.
  induction Hpieces as [|[[plain id] name] pieces (Hplain & Hid & Hw & Hname & Hnl) _ IH].
  - by apply mention_replace_plain.
  - cbn [wire_text display_text]. cbn [fst snd] in *.
    by rewrite mention_replace_piece, IH.
Qed.

(** C9, as the code has it.  Outbound, in a room whose members all have
    a display name, the message is rewritten in sequence: each
    occurrence of [@all], then each occurrence of [@present] in the
    result, then member by member, in the order the table is visited,
    each occurrence of the display name in the result so far; each
    rewriting reads its text from the left, puts the wire form in place
    of an occurrence and resumes after it, and keeps every other byte.
    Inbound, the escaped text is read from the left: a match of the
    pattern at the head gives way to its name in bold and the reading
    resumes after the match; a byte at which the pattern does not match
    is kept.  The pattern matches [&lt;@id|name&gt;] for an id the class
    takes whole (any id of ASCII letters, digits, underscores and
    hyphens is one) and a name free of newlines and of [&gt;], and it
    matches nothing else.  So in a text made of plain segments, free of
    [&lt;@], and such mentions, each mention is displayed as its name in
    bold and the segments are kept. *)
Theorem mention_rewriting_in_sequence :
  (∀ members message,
     Forall (λ entry, display_name entry.2 ≠ "") members →
     parse_outbound_mentions members message = Some (rewrite_outbound members message))
  ∧ (∀ a b s, a ≠ "" → rewrite_each a b (a +:+ s) = b +:+ rewrite_each a b s)
  ∧ (∀ a b c s, a ≠ "" → String.prefix a (String c s) = false →
       rewrite_each a b (String c s) = String c (rewrite_each a b s))
  ∧ (∀ a b, a ≠ "" → rewrite_each a b "" = "")
  ∧ (∀ me s id name rest,
       mention_match s = Some (id, name, rest) →
       (parse_inbound_mentions me s).2
       = Some ("<b>" +:+ name +:+ "</b>" +:+ mention_replace rest))
  ∧ (∀ me c s, mention_match (String c s) = None →
       (parse_inbound_mentions me (String c s)).2
       = Some (String c (mention_replace s)))
  ∧ (∀ me, (parse_inbound_mentions me "").2 = Some "")
  ∧ (∀ id name post,
       id ≠ "" → word_run id →
       strstr name "&gt;" = None → no_newline name = true →
       mention_match ("&lt;@" +:+ id +:+ "|" +:+ name +:+ "&gt;" +:+ post)
       = Some (id, name, post))
  ∧ (∀ s id name rest,
       mention_match s = Some (id, name, rest) →
       s = "&lt;@" +:+ id +:+ "|" +:+ name +:+ "&gt;" +:+ rest
       ∧ id ≠ "" ∧ (span_word (id +:+ "|" +:+ name +:+ "&gt;" +:+ rest)).1 = id
       ∧ strstr name "&gt;" = None ∧ no_newline name = true)
  ∧ (∀ id, all_word id = true → word_run id)
  ∧ (∀ me pieces last,
       Forall reads_as_written pieces → strstr last "&lt;@" = None →
       (parse_inbound_mentions me (wire_text pieces last)).2
       = Some (display_text pieces last)).
Proof.
  split; [apply parse_outbound_mentions_rewrite|].
  split; [apply rewrite_each_app|]. split; [apply rewrite_each_other|].
  split; [apply rewrite_each_nil|].
  split.
  { intros me s id name rest Hm. unfold parse_inbound_mentions. cbn [snd].
    unfold g_regex_replace_mentions. by rewrite (mention_replace_match _ _ _ _ Hm). }
  split.
  { intros me c s Hm. unfold parse_inbound_mentions, g_regex_replace_mentions. cbn [snd].
    by rewrite mention_replace_other. }
  split; [done|]. split; [apply mention_match_run|].
  split; [apply mention_match_inv|]. split; [apply all_word_run|].
  intros me pieces last Hpieces Hlast.
  unfold parse_inbound_mentions, g_regex_replace_mentions. cbn [snd].
  by rewrite mention_replace_pieces.
Qed.

End Inbound.

(** The specification's examples. *)
Example outbound_all :
  parse_outbound_mentions [Sample.jane] "hello @all" = Some "hello <@all|All Members>".
Proof. by vm_compute. Qed.

Example outbound_display_name :
  parse_outbound_mentions [Sample.jane] "Jane Doe: ping"
  = Some "<@75f50e24-d59d-40e4-996b-6ba3ff3f371f|Jane Doe>: ping".
Proof. by vm_compute. Qed.

Example inbound_display :
  (@parse_inbound_mentions Sample.external "me-id"
     "&lt;@75f50e24-d59d-40e4-996b-6ba3ff3f371f|Jane Doe&gt;: ping").2
  = Some "<b>Jane Doe</b>: ping".
Proof. by vm_compute. Qed.

(** An id with a letter outside ASCII, U+00E9 (C3 A9 in UTF-8): the
    tables class it as a letter, and the mention is rewritten. *)
Example inbound_latin1_id :
  (@parse_inbound_mentions Sample.external "me-id"
     ("&lt;@" +:+ String "195" (String "169" "") +:+ "|x&gt;")).2
  = Some "<b>x</b>".
Proof. by vm_compute. Qed.

(** The specification's sentence for C9 has each occurrence of [@all]
    rewritten to the broadcast wire form, and each wire mention of an
    inbound text rewritten to its name in bold.  Outbound, with a member
    whose display name is "All" present, the message "@all" goes out as
    a text that does not hold that wire form: the member step rewrote
    inside it.  Inbound, a wire mention that lies in the name of an
    earlier one is not rewritten: the display does not hold its name in
    bold, whatever the Unicode tables are. *)
Lemma mention_rewriting_not_each_occurrence :
  (parse_outbound_mentions [Sample.al] "@all" = Some "<@all|<@id1|All> Members>"
   ∧ strstr "<@all|<@id1|All> Members>" "<@all|All Members>" = None)
  ∧ (∀ (tables : External) me,
       (@parse_inbound_mentions tables me "&lt;@a|b &lt;@id|Name&gt; c").2
       = Some "<b>b &lt;@id|Name</b> c")
  ∧ strstr "<b>b &lt;@id|Name</b> c" "<b>Name</b>" = None.
Proof.
  split; [by vm_compute|]. split; [|by vm_compute].
  intros tables me. by vm_compute.
Qed.

End MentionProofs.

(** ** Requests and responses: edge cases *)

Module ResponseProofs.
Import Json Glib Chime StrFacts.

Lemma g_str_has_suffix_app base suffix :
  g_str_has_suffix (base +:+ suffix) suffix = true.
Proof.
  induction base as [|c base IH].
  - rewrite str_app_nil_l. destruct suffix; cbn [g_str_has_suffix]; by destruct (decide _).
  - rewrite str_app_cons. cbn [g_str_has_suffix]. rewrite IH. by destruct (decide _).
Qed.

(** X1. [soup_uri_new_printf] joins the base and the formatted tail with
    exactly one slash: for a base that does not end in a slash and a
    tail that does not begin with one, the URI is the same whether or
    not a slash is added at the end of the base, at the head of the
    tail, or both. *)
Theorem soup_uri_new_printf_one_slash (base path : string) :
  g_str_has_suffix base "/" = false →
  String.prefix "/" path = false →
  let joined := {| uri_string := base +:+ "/" +:+ path; uri_query := [] |} in
  soup_uri_new_printf base path = joined
  ∧ soup_uri_new_printf base ("/" +:+ path) = joined
  ∧ soup_uri_new_printf (base +:+ "/") path = joined
  ∧ soup_uri_new_printf (base +:+ "/") ("/" +:+ path) = joined.
Proof.
  intros Hb Hp joined. unfold soup_uri_new_printf.
  rewrite Hb, (g_str_has_suffix_app base "/").
  assert (Hpath : match path with String "/"%char rest => rest | _ => path end = path).
  { destruct path as [|c rest]; [done|]. simpl in Hp.
    destruct (ascii_dec "/" c) as [<-|Hc]; [by destruct rest|].
    destruct c as [[] [] [] [] [] [] [] []]; done. }
  change ("/" +:+ path) with (String "/" path). rewrite Hpath.
  rewrite !str_app_assoc, !str_app_nil_l. done.
Qed.

Lemma soup_uri_new_printf_one_slash_witness :
  let joined := {| uri_string := "https://messaging.example" +:+ "/" +:+ "rooms";
                   uri_query := [] |} in
  soup_uri_new_printf "https://messaging.example" "rooms" = joined
  ∧ soup_uri_new_printf "https://messaging.example" ("/" +:+ "rooms") = joined
  ∧ soup_uri_new_printf ("https://messaging.example" +:+ "/") "rooms" = joined
  ∧ soup_uri_new_printf ("https://messaging.example" +:+ "/") ("/" +:+ "rooms") = joined.
Proof.
  apply (soup_uri_new_printf_one_slash "https://messaging.example" "rooms").
  - reflexivity.
  - reflexivity.
Defined.

Section WithParser.
Variable json_parser : string → GError + option JsonNode.

(** X2. [process_soup_response] returns a node exactly when the status
    is 200 or 201, the content type is [application/json] and the body
    parses to a document with a root, and the node is that root; a node
    never comes with an error; a status other than 200 and 201 gives
    the request-failed error with the status and the reason phrase, and
    a wrong or missing content type the bad-response error. *)
Theorem process_soup_response_node_or_error (msg : SoupMessage) :
  let r := process_soup_response json_parser msg in
  (∀ node, r.1 = Some node ↔
     (status_code msg = 200 ∨ status_code msg = 201)
     ∧ response_content_type msg = Some "application/json"
     ∧ ∃ data, response_body_data msg = Some data ∧ json_parser data = inr (Some node))
  ∧ (is_Some r.1 → r.2 = None)
  ∧ (status_code msg ≠ 200 → status_code msg ≠ 201 →
     r = (None, Some (CHIME_ERROR_REQUEST_FAILED (status_code msg) (reason_phrase msg))))
  ∧ ((status_code msg = 200 ∨ status_code msg = 201) →
     response_content_type msg ≠ Some "application/json" →
     r = (None, Some (CHIME_ERROR_BAD_RESPONSE (response_content_type msg)))).
Proof.
  intros r. subst r. unfold process_soup_response.
  destruct (decide (status_code msg ≠ 200 ∧ status_code msg ≠ 201)) as [[H1 H2]|Hs].
  { split; [|split; [|split]].
    - intros node. split; [done|]. intros [[?|?] _]; done.
    - by intros [? ?].
    - done.
    - intros [?|?]; done. }
  assert (Hs' : status_code msg = 200 ∨ status_code msg = 201) by lia.
  destruct (decide (response_content_type msg ≠ Some "application/json")) as [Hc|Hc].
  { split; [|split; [|split]].
    - intros node. split; [done|]. by intros (_ & ? & _).
    - by intros [? ?].
    - tauto.
    - done. }
  apply dec_stable in Hc.
  split; [|split; [|split]]; [| |tauto|done].
  - intros node. destruct (response_body_data msg) as [data|].
    + destruct (json_parser data) as [e|root] eqn:Hp; simpl.
      * split; [done|]. intros (_ & _ & d & [= <-] & ?). congruence.
      * split.
        -- intros ->. eauto 6.
        -- intros (_ & _ & d & [= <-] & ?). congruence.
    + split; [done|]. by intros (_ & _ & d & ? & _).
  - destruct (response_body_data msg) as [data|]; [|by intros [? ?]].
    destruct (json_parser data); [by intros [? ?]|done].
Qed.

(** X3. [renew_cb] reads [error->message] through a [NULL] error
    exactly when the renewal response has status 200 or 201, the JSON
    content type, and either no body data or a body that the parser
    accepts and reads as an empty document (one without a root node).
    A body that the parser rejects is not such a response: the parser
    sets its error, and [renew_cb] reports that error and returns. *)
Theorem renew_cb_undefined_iff (cxn : chime_connection) (msg : SoupMessage) :
  (renew_cb json_parser cxn msg = Undefined ↔
   (status_code msg = 200 ∨ status_code msg = 201)
   ∧ response_content_type msg = Some "application/json"
   ∧ (response_body_data msg = None
      ∨ ∃ data, response_body_data msg = Some data ∧ json_parser data = inr None))
  ∧ (∀ data e,
       (status_code msg = 200 ∨ status_code msg = 201) →
       response_content_type msg = Some "application/json" →
       response_body_data msg = Some data → json_parser data = inl e →
       renew_cb json_parser cxn msg
       = Returns (cxn, [purple_connection_error_reason_NETWORK_ERROR (Token_renewal e)])).
Proof.
  split.
  2:{ intros data e Hs Hc Hd Hp. unfold renew_cb, process_soup_response.
      rewrite decide_False by lia. rewrite decide_False by (by rewrite Hc; auto).
      by rewrite Hd, Hp. }
  unfold renew_cb, process_soup_response.
  destruct (decide (status_code msg ≠ 200 ∧ status_code msg ≠ 201)) as [[H1 H2]|Hs].
  { split; [done|]. intros [[?|?] _]; done. }
  assert (Hs' : status_code msg = 200 ∨ status_code msg = 201) by lia.
  destruct (decide (response_content_type msg ≠ Some "application/json")) as [Hc|Hc].
  { split; [done|]. by intros (_ & ? & _). }
  apply dec_stable in Hc.
  destruct (response_body_data msg) as [data|]; [|by split; [auto|]].
  destruct (json_parser data) as [e|[tok_node|]] eqn:Hp.
  - split; [done|]. intros (_ & _ & [?|(d & [= <-] & ?)]); congruence.
  - split.
    + destruct (parse_string (Some tok_node) "SessionToken" None) as [[] [tok|]]; try done.
      by destruct (renew_flush _ _ _).
    + intros (_ & _ & [?|(d & [= <-] & ?)]); congruence.
  - split; [|done]. intros _. eauto 6.
Qed.

End WithParser.

(** X4. [ws_cb] reads [ws_opts[1]] past the terminator of the vector
    exactly when the negotiation response has status 200 and an empty
    body; on every other response it returns. *)
Theorem ws_cb_undefined_iff (cxn : chime_connection) (msg : SoupMessage) :
  ws_cb cxn msg = Undefined ↔
  status_code msg = 200 ∧ response_body_data msg = Some "".
Proof.
  destruct (decide (status_code msg = 200)) as [Hs|Hs].
  - rewrite (ChimeProofs.ws_cb_200 _ _ Hs).
    destruct (response_body_data msg) as [data|]; [|by split; [|intros [_ ?]]].
    destruct (g_strsplit (Some data) ":" 4) as [v|] eqn:E.
    + pose proof (GlibProofs.g_strsplit_length data ":" 4 v ltac:(lia) E) as [_ Hnil].
      destruct v as [|f0 [|f1 [|f2 [|f3 [|f4 v]]]]].
      * split; [|done]. intros _. split; [done|]. f_equal. by apply Hnil.
      * split; [done|]. intros [_ [= ->]].
        by destruct Hnil as [_ Hn]; specialize (Hn eq_refl).
      * split; [done|]. intros [_ [= ->]].
        by destruct Hnil as [_ Hn]; specialize (Hn eq_refl).
      * split; [done|]. intros [_ [= ->]].
        by destruct Hnil as [_ Hn]; specialize (Hn eq_refl).
      * split; [by destruct (String.prefix _ _)|]. intros [_ [= ->]].
        by destruct Hnil as [_ Hn]; specialize (Hn eq_refl).
      * split; [done|]. intros [_ [= ->]].
        by destruct Hnil as [_ Hn]; specialize (Hn eq_refl).
    + split; [done|]. intros [_ [= ->]]. by vm_compute in E.
  - split; [|by intros [? _]]. unfold ws_cb.
    destruct (decide (status_code msg = 401)); [done|]. by rewrite decide_True.
Qed.

(** A transport list that begins with [websocket,] splits into
    [websocket] and the rest. *)
Lemma g_strsplit_websocket_first t :
  ∃ rest, g_strsplit (Some ("websocket," +:+ t)) "," 0 = Some ("websocket" :: rest).
Proof.
  unfold g_strsplit. rewrite decide_False by done. change (0 <? 1) with true. cbv iota.
  change ("websocket," +:+ t) with ("websocket" +:+ String "," t).
  set (s := "websocket" +:+ String "," t).
  cbn [strsplit_loop fmap option_fmap option_map].
  destruct (decide (None = Some 0)) as [?|_]; [done|].
  assert (Hs : strstr s "," = Some 9%nat).
  { subst s. cbv. destruct t; reflexivity. }
  rewrite Hs.
  destruct (strsplit_loop _ None _ ",") as [tokens remainder].
  rewrite decide_False by done.
  by eexists.
Qed.

Ltac not_among Hin :=
  repeat (apply elem_of_cons in Hin as [Hin|Hin]; [discriminate Hin|]);
  by apply elem_of_nil in Hin.

(** X5. The request of a websocket upgrade: whenever [ws_cb] starts the
    upgrade, it does so with a new GET request that carries no header
    (no Cookie) and no body, to [websocket_url/1/websocket/] followed by
    the second field of the negotiation response, with the session id
    as the [session_uuid] query; the protocols offered are the fourth
    field split at commas, [websocket] first; the only other call is
    the progress note, and the connection record is as it was. *)
Theorem ws_upgrade_request (cxn cxn' : chime_connection) (msg m : SoupMessage)
    (calls : list call) (protocols : option (list string)) :
  ws_cb cxn msg = Returns (cxn', calls) →
  soup_session_websocket_connect_async m protocols ∈ calls →
  cxn' = cxn
  ∧ method m = "GET"
  ∧ request_headers m = []
  ∧ request_body m = None
  ∧ uri_query (uri m) = match session_id cxn with
                        | Some id => [("session_uuid", id)]
                        | None => []
                        end
  ∧ (∃ data f0 f1 f2 f3,
       response_body_data msg = Some data
       ∧ g_strsplit (Some data) ":" 4 = Some [f0; f1; f2; f3]
       ∧ uri_string (uri m) = websocket_url cxn +:+ "/1/websocket/" +:+ f1
       ∧ protocols = g_strsplit (Some f3) "," 0)
  ∧ (∃ rest, protocols = Some ("websocket" :: rest))
  ∧ calls = [purple_connection_update_progress
               "Establishing WebSocket connection..." 4 CONNECT_STEPS;
             soup_session_websocket_connect_async m protocols].
Proof.
  intros Hrun Hin.
  destruct (decide (status_code msg = 200)) as [Hs|Hs].
  2:{ unfold ws_cb in Hrun.
      destruct (decide (status_code msg = 401)).
      - unfold resubmit_msg_for_auth in Hrun.
        destruct (msg_queue cxn); injection Hrun as <- <-; not_among Hin.
      - rewrite decide_True in Hrun by done. injection Hrun as <- <-. not_among Hin. }
  rewrite (ChimeProofs.ws_cb_200 _ _ Hs) in Hrun.
  destruct (response_body_data msg) as [data|]; [|injection Hrun as <- <-; not_among Hin].
  destruct (g_strsplit (Some data) ":" 4) as [v|] eqn:E;
    [|injection Hrun as <- <-; not_among Hin].
  destruct v as [|f0 [|f1 [|f2 [|f3 [|f4 v]]]]];
    try (injection Hrun as <- <-; not_among Hin); [done|].
  destruct (String.prefix "websocket," f3) eqn:Hp;
    [|injection Hrun as <- <-; not_among Hin].
  injection Hrun as <- <-.
  apply elem_of_cons in Hin as [?|Hin]; [done|].
  apply list_elem_of_singleton in Hin. injection Hin as -> ->.
  apply str_prefix_inv in Hp as [t ->].
  split; [done|]. split; [done|]. split; [done|]. split; [done|].
  split; [by destruct (session_id cxn)|].
  split; [by exists data, f0, f1, f2, ("websocket," +:+ t)|].
  split; [apply g_strsplit_websocket_first|done].
Qed.

Lemma ws_upgrade_request_witness :
  ∃ m protocols,
    Sample.cxn = Sample.cxn
    ∧ method m = "GET"
    ∧ request_headers m = []
    ∧ request_body m = None
    ∧ uri_query (uri m) = match session_id Sample.cxn with
                          | Some id => [("session_uuid", id)]
                          | None => []
                          end
    ∧ (∃ data f0 f1 f2 f3,
         response_body_data (Sample.negotiation "4d1f:60:60:websocket,xhr-polling")
         = Some data
         ∧ g_strsplit (Some data) ":" 4 = Some [f0; f1; f2; f3]
         ∧ uri_string (uri m) = websocket_url Sample.cxn +:+ "/1/websocket/" +:+ f1
         ∧ protocols = g_strsplit (Some f3) "," 0)
    ∧ (∃ rest, protocols = Some ("websocket" :: rest))
    ∧ [purple_connection_update_progress
         "Establishing WebSocket connection..." 4 CONNECT_STEPS;
       soup_session_websocket_connect_async m protocols]
      = [purple_connection_update_progress
           "Establishing WebSocket connection..." 4 CONNECT_STEPS;
         soup_session_websocket_connect_async m protocols].
Proof.
  eexists _, _.
  eapply (ws_upgrade_request Sample.cxn Sample.cxn
            (Sample.negotiation "4d1f:60:60:websocket,xhr-polling")).
  - vm_compute. reflexivity.
  - right. left.
Defined.

End ResponseProofs.

(** ** Login and device registration *)

Module LoginProofs.
Import Json Glib Login.

Lemma parse_string_at_eq parent name res cxn :
  parse_string_at parent name res cxn =
    match json_node_get_string
            (json_object_get_member (json_node_get_object parent) name) with
    | Some str => (true, store cxn res (Some str))
    | None => (false, store cxn res (load cxn res))
    end.
Proof.
  unfold parse_string_at. rewrite JsonProofs.parse_string_spec.
  by destruct (json_node_get_string _).
Qed.

Lemma store_load cxn p : store cxn p (load cxn p) = cxn.
Proof. by destruct cxn, p. Qed.

Lemma and_then_parse_string_at parent name res (rest : step) cxn :
  (parse_string_at parent name res &> rest) cxn =
    match json_node_get_string
            (json_object_get_member (json_node_get_object parent) name) with
    | Some str => rest (store cxn res (Some str))
    | None => (false, cxn)
    end.
Proof.
  unfold and_then. rewrite parse_string_at_eq.
  destruct (json_node_get_string _); [done|]. by rewrite store_load.
Qed.

Lemma and_then_non_null node (rest : step) cxn :
  (non_null node &> rest) cxn =
    match node with Some _ => rest cxn | None => (false, cxn) end.
Proof. by destruct node. Qed.

Ltac no_string :=
  split; [done|]; intros Hall;
  repeat match goal with H : _ ∧ _ |- _ => destruct H end;
  repeat match goal with
         | H : is_Some _ |- _ => first [by destruct H as [? [=]]|clear H]
         end.

(** [parse_regnode] returns TRUE exactly for a document that holds a
    string at each of the twelve paths, and then each field holds the
    string at its path. *)
Lemma parse_regnode_accepts (cxn : chime_connection) :
  let r := parse_regnode cxn in
  (r.1.1 = true ↔
     Forall (λ entry, is_Some (string_at (reg_node cxn) entry.1)) registration_paths)
  ∧ (r.1.1 = true →
     Forall (λ entry, load r.1.2 entry.2 = string_at (reg_node cxn) entry.1)
       registration_paths
     ∧ r.2 = [Chime.purple_account_set_string "token"
                (default "" (string_at (reg_node cxn) ["Session"; "SessionToken"]))]).
Proof.
  intros r. subst r. unfold registration_paths.
  rewrite !Forall_cons, !Forall_nil. cbn [fst snd].
  unfold string_at. cbn [json_path].
  unfold parse_regnode.
  set (sess := json_object_get_member (json_node_get_object (reg_node cxn)) "Session").
  rewrite (JsonProofs.parse_string_spec sess "SessionToken" None).
  destruct sess as [s|] eqn:Hsess.
  2:{ split; [|done]. no_string. }
  destruct (json_node_get_string (json_object_get_member _ "SessionToken"))
    as [tok|] eqn:E0.
  2:{ split; [|done]. no_string. }
  cbv zeta.
  set (obj := json_node_get_object (Some s)).
  set (config := json_object_get_member obj "ServiceConfig").
  rewrite !and_then_parse_string_at.
  destruct (json_node_get_string (json_object_get_member _ "id")) as [v1|] eqn:E1.
  2:{ split; [|done]. no_string. }
  rewrite !and_then_parse_string_at.
  destruct (json_node_get_string (json_object_get_member _ "profile_channel"))
    as [v2|] eqn:E2.
  2:{ split; [|done]. no_string. }
  rewrite !and_then_parse_string_at.
  destruct (json_node_get_string (json_object_get_member _ "DeviceId")) as [v3|] eqn:E3.
  2:{ split; [|done]. no_string. }
  rewrite !and_then_parse_string_at.
  destruct (json_node_get_string (json_object_get_member _ "Channel")) as [v4|] eqn:E4.
  2:{ split; [|done]. no_string. }
  rewrite and_then_non_null.
  destruct config as [c|] eqn:Hconfig.
  2:{ split; [|done]. no_string. }
  rewrite !and_then_parse_string_at.
  set (presence := json_node_get_string
         (json_object_get_member
            (json_node_get_object
               (json_object_get_member (json_node_get_object (Some c)) "Presence"))
            "RestUrl")).
  destruct presence as [v5|] eqn:E5.
  2:{ split; [|done]. no_string. }
  rewrite !and_then_parse_string_at.
  destruct (json_node_get_string (json_object_get_member _ "ReachabilityUrl"))
    as [v6|] eqn:E6.
  2:{ split; [|done]. no_string. }
  rewrite !and_then_parse_string_at.
  destruct (json_node_get_string (json_object_get_member _ "WebsocketUrl"))
    as [v7|] eqn:E7.
  2:{ split; [|done]. no_string. }
  rewrite !and_then_parse_string_at.
  destruct (json_node_get_string
              (json_object_get_member
                 (json_node_get_object
                    (json_object_get_member (json_node_get_object (Some c)) "Profile"))
                 "RestUrl")) as [v8|] eqn:E8.
  2:{ split; [|done]. no_string. }
  rewrite !and_then_parse_string_at.
  destruct (json_node_get_string
              (json_object_get_member
                 (json_node_get_object
                    (json_object_get_member (json_node_get_object (Some c)) "Contacts"))
                 "RestUrl")) as [v9|] eqn:E9.
  2:{ split; [|done]. no_string. }
  rewrite !and_then_parse_string_at.
  destruct (json_node_get_string
              (json_object_get_member
                 (json_node_get_object
                    (json_object_get_member (json_node_get_object (Some c)) "Messaging"))
                 "RestUrl")) as [v10|] eqn:E10.
  2:{ split; [|done]. no_string. }
  rewrite and_then_parse_string_at. fold presence. rewrite E5.
  rewrite parse_string_at_eq.
  destruct (json_node_get_string
              (json_object_get_member
                 (json_node_get_object
                    (json_object_get_member (json_node_get_object (Some c)) "Conference"))
                 "RestUrl")) as [v11|] eqn:E11.
  2:{ split; [|done]. no_string. }
  cbn [fst snd]. split.
  - split; [|done]. intros _. repeat split; eauto.
  - intros _. done.
Qed.

Lemma parse_string_at_keeps parent name res : keeps_document (parse_string_at parent name res).
Proof. intros cxn. unfold parse_string_at. by destruct (parse_string _ _ _). Qed.

Lemma non_null_keeps node : keeps_document (non_null node).
Proof. done. Qed.

Lemma and_then_keeps a b : keeps_document a → keeps_document b → keeps_document (a &> b).
Proof.
  intros Ha Hb cxn. unfold and_then. specialize (Ha cxn).
  destruct (a cxn) as [[] cxn1]; [|done]. cbn [snd] in Ha.
  destruct Ha as [? ?], (Hb cxn1) as [? ?]. split; congruence.
Qed.

(** Whatever it returns, [parse_regnode] leaves the document and the
    websocket alone, and its one call, if any, stores the token. *)
Lemma parse_regnode_frame cxn :
  reg_node (parse_regnode cxn).1.2 = reg_node cxn
  ∧ ws_conn (parse_regnode cxn).1.2 = ws_conn cxn
  ∧ ((parse_regnode cxn).2 = []
     ∨ ∃ tok, (parse_regnode cxn).2 = [Chime.purple_account_set_string "token" tok]).
Proof.
  unfold parse_regnode.
  destruct (json_object_get_member _ "Session") as [s|]; [|by auto].
  destruct (parse_string (Some s) "SessionToken" None) as [[] [tok|]]; try by auto.
  cbv zeta.
  match goal with
  | |- context [?chain (store cxn session_token_ptr (Some tok))] =>
      assert (Hkeeps : keeps_document chain)
        by (repeat apply and_then_keeps;
            apply parse_string_at_keeps || apply non_null_keeps);
      destruct (Hkeeps (store cxn session_token_ptr (Some tok))) as [Hr Hw];
      destruct (chain (store cxn session_token_ptr (Some tok))) as [ok cxn']
  end.
  cbn [fst snd] in *. eauto.
Qed.

(** X6. [parse_regnode] accepts a registration document exactly when
    it holds a string at each of these twelve paths: Session.SessionToken,
    Session.Profile.id and .profile_channel, Session.Device.DeviceId and
    .Channel, and under Session.ServiceConfig: Presence.RestUrl,
    Push.ReachabilityUrl, Push.WebsocketUrl, Profile.RestUrl,
    Contacts.RestUrl, Messaging.RestUrl and Conference.RestUrl.  When it
    accepts, each field of the connection holds the string at its path
    and the token has been stored in the account; accepted or not, the
    document itself and the websocket are left as they were, and the
    only call it ever makes is the one that stores a token. *)
Theorem registration_accepted_iff (cxn : chime_connection) :
  let r := parse_regnode cxn in
  (r.1.1 = true ↔
     Forall (λ entry, is_Some (string_at (reg_node cxn) entry.1)) registration_paths)
  ∧ (r.1.1 = true →
     Forall (λ entry, load r.1.2 entry.2 = string_at (reg_node cxn) entry.1)
       registration_paths
     ∧ ∃ tok, string_at (reg_node cxn) ["Session"; "SessionToken"] = Some tok
              ∧ r.2 = [Chime.purple_account_set_string "token" tok])
  ∧ reg_node r.1.2 = reg_node cxn
  ∧ ws_conn r.1.2 = ws_conn cxn
  ∧ (r.2 = [] ∨ ∃ tok, r.2 = [Chime.purple_account_set_string "token" tok]).
Proof.
  intros r. subst r.
  destruct (parse_regnode_accepts cxn) as [Hiff Hok].
  destruct (parse_regnode_frame cxn) as (Hreg & Hws & Hcalls).
  split; [exact Hiff|]. split; [|done].
  intros Htrue. destruct (Hok Htrue) as [Hload Hcall]. split; [done|].
  apply Hiff in Htrue. unfold registration_paths in Htrue.
  apply Forall_cons in Htrue as [[tok Htok] _]. cbn [fst] in Htok.
  exists tok. split; [done|]. by rewrite Hcall, Htok.
Qed.

Section WithParser.
Variable json_parser : string → Chime.GError + option JsonNode.

(** [register_cb] on a response that holds a complete document. *)
Lemma register_cb_accepts (cxn : chime_connection) (msg : Chime.SoupMessage)
    (doc : JsonNode) :
  Chime.process_soup_response json_parser msg = (Some doc, None) →
  Forall (λ entry, is_Some (string_at (Some doc) entry.1)) registration_paths →
  ∃ cxn' tok ws id,
    register_cb json_parser cxn msg
    = Returns (cxn',
               [chime_call (Chime.purple_account_set_string "token" tok);
                chime_call (Chime.purple_connection_update_progress
                              "Obtaining WebSocket params..." 2 Chime.CONNECT_STEPS);
                chime_call
                  (Chime.soup_session_queue_message
                     (Chime.soup_message_headers_append
                        (Chime.soup_message_new_from_uri "GET"
                           (Chime.soup_uri_set_query_from_fields
                              (Chime.soup_uri_new_printf ws "/1") "session_uuid" (Some id)))
                        "Cookie" ("_aws_wt_session=" +:+ tok))
                     Chime.ws_cb_ptr)])
    ∧ string_at (Some doc) ["Session"; "SessionToken"] = Some tok
    ∧ string_at (Some doc) ["Session"; "ServiceConfig"; "Push"; "WebsocketUrl"] = Some ws
    ∧ string_at (Some doc) ["Session"; "Profile"; "id"] = Some id
    ∧ reg_node cxn' = Some doc
    ∧ ws_conn cxn' = ws_conn cxn
    ∧ Forall (λ entry, load cxn' entry.2 = string_at (Some doc) entry.1)
        registration_paths.
Proof.
  intros Hresp Hdoc. unfold register_cb. rewrite Hresp.
  pose proof (parse_regnode_accepts (set_reg_node cxn (Some doc))) as [Hiff Hok].
  pose proof (parse_regnode_frame (set_reg_node cxn (Some doc))) as (Hreg & Hws & _).
  cbn [reg_node ws_conn set_reg_node] in Hiff, Hok, Hreg, Hws.
  pose proof (proj2 Hiff Hdoc) as Htrue. destruct (Hok Htrue) as (Hload & Hcalls).
  destruct (parse_regnode (set_reg_node cxn (Some doc))) as [[ok cxn'] calls].
  cbn [fst snd] in *. subst ok calls. cbn [negb].
  pose proof Hload as Hall.
  unfold registration_paths in Hload, Hdoc.
  rewrite !Forall_cons in Hload, Hdoc.
  cbn [fst snd load] in Hload, Hdoc.
  destruct Hload as (Ltok & Lid & _ & _ & _ & _ & _ & Lws & _).
  destruct Hdoc as ([tok Htok] & [id Hid] & _ & _ & _ & _ & _ & [ws Hws'] & _).
  exists cxn', tok, ws, id.
  rewrite Htok, Hid, Hws' in *. cbn [default].
  unfold Chime.chime_queue_http_request, established.
  cbn [Chime.session_token Chime.websocket_url]. rewrite Ltok, Lid, Lws. cbn [default].
  split; [reflexivity|]. repeat split; done.
Qed.

(** X7. A registration response that [process_soup_response] accepts
    and whose document is complete makes [register_cb] store the
    fields and queue exactly one request, after the progress note
    "2 of 3": a GET without body for [ws_cb], to the WebsocketUrl of the
    document joined with [/1], with the Profile id of the document as
    the [session_uuid] query and one Cookie header that carries the
    SessionToken just parsed.  No connection error is reported. *)
Theorem registration_starts_negotiation
    (cxn : chime_connection) (msg : Chime.SoupMessage) (doc : JsonNode) :
  Chime.process_soup_response json_parser msg = (Some doc, None) →
  Forall (λ entry, is_Some (string_at (Some doc) entry.1)) registration_paths →
  ∃ cxn' calls tok ws id request,
    register_cb json_parser cxn msg = Returns (cxn', calls)
    ∧ string_at (Some doc) ["Session"; "SessionToken"] = Some tok
    ∧ string_at (Some doc) ["Session"; "ServiceConfig"; "Push"; "WebsocketUrl"] = Some ws
    ∧ string_at (Some doc) ["Session"; "Profile"; "id"] = Some id
    ∧ queued_requests calls = [(request, Chime.ws_cb_ptr)]
    ∧ progress_steps calls = [(2, 3)]
    ∧ existsb is_connection_error calls = false
    ∧ Chime.method request = "GET"
    ∧ Chime.request_body request = None
    ∧ Chime.request_headers request = [("Cookie", "_aws_wt_session=" +:+ tok)]
    ∧ Chime.uri_string (Chime.uri request)
      = Chime.uri_string (Chime.soup_uri_new_printf ws "/1")
    ∧ Chime.uri_query (Chime.uri request) = [("session_uuid", id)]
    ∧ reg_node cxn' = Some doc
    ∧ Forall (λ entry, load cxn' entry.2 = string_at (Some doc) entry.1)
        registration_paths.
Proof.
  intros Hresp Hdoc.
  destruct (register_cb_accepts cxn msg doc Hresp Hdoc)
    as (cxn' & tok & ws & id & Hrun & Htok & Hws & Hid & Hreg & _ & Hload).
  exists cxn'. eexists _, tok, ws, id, _. split; [exact Hrun|].
  repeat split; done.
Qed.

Lemma registration_refused cxn doc :
  ¬ Forall (λ entry, is_Some (string_at (Some doc) entry.1)) registration_paths →
  ∃ cxn' calls,
    (let '(ok, cxn0, calls0) := parse_regnode (set_reg_node cxn (Some doc)) in
     if negb ok then
       Returns (cxn0,
                (chime_call <$> calls0)
                ++ [purple_connection_error_reason_NETWORK_ERROR
                      Failed_to_process_registration_response])
     else
       Returns (cxn0,
                (chime_call <$> calls0)
                ++ [chime_call (Chime.purple_connection_update_progress
                                  "Obtaining WebSocket params..." 2 Chime.CONNECT_STEPS)]
                ++ (chime_call <$> Chime.chime_queue_http_request (established cxn0) None
                      (Chime.soup_uri_set_query_from_fields
                         (Chime.soup_uri_new_printf
                            (Chime.websocket_url (established cxn0)) "/1")
                         "session_uuid" (session_id cxn0)) Chime.ws_cb_ptr)))
    = Returns (cxn', calls)
    ∧ last calls = Some (purple_connection_error_reason_NETWORK_ERROR
                           Failed_to_process_registration_response)
    ∧ queued_requests calls = []
    ∧ reg_node cxn' = Some doc.
Proof.
  intros Hno.
  pose proof (parse_regnode_accepts (set_reg_node cxn (Some doc))) as [Hiff _].
  pose proof (parse_regnode_frame (set_reg_node cxn (Some doc))) as (Hr & _ & Hcalls).
  cbn [reg_node set_reg_node] in Hiff, Hr.
  destruct (parse_regnode (set_reg_node cxn (Some doc))) as [[ok cxn'] calls].
  cbn [fst snd] in *.
  destruct ok; [by destruct Hno; apply Hiff|]. cbn [negb].
  eexists _, _. split; [done|].
  destruct Hcalls as [->|[tok ->]]; done.
Qed.

(** X8. When device registration fails, [register_cb] queues nothing:
    a response that [process_soup_response] rejects with an error
    clears the stored document and reports that error as one connection
    error; a document that is not complete is kept and the last call
    made is the one connection error for it.  [register_cb] reads
    [error->message] through a [NULL] error exactly when
    [process_soup_response] hands back neither a node nor an error. *)
Theorem registration_failure_reported (cxn : chime_connection) (msg : Chime.SoupMessage) :
  (register_cb json_parser cxn msg = Undefined
   ↔ Chime.process_soup_response json_parser msg = (None, None))
  ∧ (∀ e, Chime.process_soup_response json_parser msg = (None, Some e) →
       register_cb json_parser cxn msg
       = Returns (set_reg_node cxn None,
                  [purple_connection_error_reason_NETWORK_ERROR
                     (Device_registration_failed e)]))
  ∧ (∀ doc e,
       Chime.process_soup_response json_parser msg = (Some doc, e) →
       ¬ Forall (λ entry, is_Some (string_at (Some doc) entry.1)) registration_paths →
       ∃ cxn' calls,
         register_cb json_parser cxn msg = Returns (cxn', calls)
         ∧ last calls = Some (purple_connection_error_reason_NETWORK_ERROR
                                Failed_to_process_registration_response)
         ∧ queued_requests calls = []
         ∧ reg_node cxn' = Some doc).
Proof.
  unfold register_cb.
  destruct (Chime.process_soup_response json_parser msg) as [[doc|] [e|]] eqn:Hresp.
  - split; [|split; [done|]].
    { by destruct (parse_regnode _) as [[[] ?] ?]. }
    intros ? ? [= <- <-] Hno. apply (registration_refused cxn doc Hno).
  - split; [|split; [done|]].
    { by destruct (parse_regnode _) as [[[] ?] ?]. }
    intros ? ? [= <- <-] Hno. apply (registration_refused cxn doc Hno).
  - split; [done|]. split; [|done]. by intros ? [= <-].
  - split; [done|]. split; [done|]. done.
Qed.

End WithParser.

Lemma sample_registration_complete :
  Forall (λ entry, is_Some (string_at (Some Sample.registration) entry.1))
    registration_paths.
Proof. repeat constructor; by eexists. Qed.

Lemma registration_starts_negotiation_witness :
  ∃ cxn' calls tok ws id request,
    register_cb Sample.parser g_new0 Sample.response = Returns (cxn', calls)
    ∧ string_at (Some Sample.registration) ["Session"; "SessionToken"] = Some tok
    ∧ string_at (Some Sample.registration)
        ["Session"; "ServiceConfig"; "Push"; "WebsocketUrl"] = Some ws
    ∧ string_at (Some Sample.registration) ["Session"; "Profile"; "id"] = Some id
    ∧ queued_requests calls = [(request, Chime.ws_cb_ptr)]
    ∧ progress_steps calls = [(2, 3)]
    ∧ existsb is_connection_error calls = false
    ∧ Chime.method request = "GET"
    ∧ Chime.request_body request = None
    ∧ Chime.request_headers request = [("Cookie", "_aws_wt_session=" +:+ tok)]
    ∧ Chime.uri_string (Chime.uri request)
      = Chime.uri_string (Chime.soup_uri_new_printf ws "/1")
    ∧ Chime.uri_query (Chime.uri request) = [("session_uuid", id)]
    ∧ reg_node cxn' = Some Sample.registration
    ∧ Forall (λ entry, load cxn' entry.2 = string_at (Some Sample.registration) entry.1)
        registration_paths.
Proof.
  apply (registration_starts_negotiation Sample.parser g_new0 Sample.response
           Sample.registration).
  - reflexivity.
  - exact sample_registration_complete.
Defined.

(** X9. [chime_purple_login] reads the connection struct before it is
    allocated exactly when the account holds no token.  With a token it
    starts from a zeroed struct and, after the progress note "1 of 3",
    queues one request for [register_cb]: a POST of the device
    registration document, without any header (no Cookie), to the
    sign-in server joined with [/sessions], with the token as the
    [Token] query; it reports no error. *)
Theorem login_needs_token (account : gmap string string) (chime_debug : option Z) :
  (chime_purple_login account chime_debug = Undefined ↔ account !! "token" = None)
  ∧ ∀ token,
      account !! "token" = Some token →
      ∃ calls request,
        chime_purple_login account chime_debug = Returns (g_new0, calls)
        ∧ queued_requests calls = [(request, Chime.register_cb_ptr)]
        ∧ progress_steps calls = [(1, 3)]
        ∧ existsb is_connection_error calls = false
        ∧ Chime.method request = "POST"
        ∧ Chime.request_headers request = []
        ∧ Chime.request_body request = Some chime_device_register_req
        ∧ Chime.uri_query (Chime.uri request) = [("Token", token)]
        ∧ Chime.uri_string (Chime.uri request)
          = Chime.uri_string
              (Chime.soup_uri_new_printf
                 (default SIGNIN_DEFAULT (account !! "server")) "/sessions").
Proof.
  unfold chime_purple_login.
  destruct (account !! "token") as [token|]; [|split; [done|]; by intros ? [=]].
  split; [done|]. intros ? [= <-].
  eexists _, _. split; [done|].
  destruct chime_debug as [level|]; [destruct (0 <? level)|]; done.
Qed.

Section Connect.
Variable json_parser : string → Chime.GError + option JsonNode.

(** X10. Logging in, step by step.  With a token in the account, a
    registration response that is accepted and complete, a negotiation
    response with status 200 whose body splits into four fields of which
    the fourth begins with [websocket,], and a websocket that connects,
    the four steps [chime_purple_login], [register_cb], [ws_cb] and
    [ws2_cb] all return, report the progress steps 1, 2 and 4 of 3 in
    that order and no connection error, and end by setting the
    connection state to connected, with the websocket stored and every
    field holding the string the registration document has for it. *)
Theorem login_reaches_connected
    (account : gmap string string) (chime_debug : option Z) (token : string)
    (registered : Chime.SoupMessage) (doc : JsonNode)
    (negotiated : Chime.SoupMessage) (data f0 f1 f2 f3 : string) (ws : nat) :
  account !! "token" = Some token →
  Chime.process_soup_response json_parser registered = (Some doc, None) →
  Forall (λ entry, is_Some (string_at (Some doc) entry.1)) registration_paths →
  Chime.status_code negotiated = 200 →
  Chime.response_body_data negotiated = Some data →
  g_strsplit (Some data) ":" 4 = Some [f0; f1; f2; f3] →
  String.prefix "websocket," f3 = true →
  ∃ cxn1 calls1 cxn2 calls2 calls3,
    chime_purple_login account chime_debug = Returns (cxn1, calls1)
    ∧ register_cb json_parser cxn1 registered = Returns (cxn2, calls2)
    ∧ Chime.ws_cb (established cxn2) negotiated = Returns (established cxn2, calls3)
    ∧ let run := calls1 ++ calls2 ++ (chime_call <$> calls3) ++ (ws2_cb cxn2 (inr ws)).2 in
      progress_steps run = [(1, 3); (2, 3); (4, 3)]
      ∧ existsb is_connection_error run = false
      ∧ last run = Some (purple_connection_set_state PURPLE_CONNECTED)
      ∧ ws_conn (ws2_cb cxn2 (inr ws)).1 = Some ws
      ∧ Forall (λ entry, load (ws2_cb cxn2 (inr ws)).1 entry.2
                         = string_at (Some doc) entry.1) registration_paths.
Proof.
  intros Htoken Hresp Hdoc Hstatus Hbody Hsplit Hws.
  destruct (register_cb_accepts json_parser g_new0 registered doc Hresp Hdoc)
    as (cxn2 & tok & wsurl & id & Hrun2 & _ & _ & _ & _ & _ & Hload).
  unfold chime_purple_login. rewrite Htoken.
  eexists g_new0, _, cxn2, _, _.
  split; [done|]. split; [exact Hrun2|].
  rewrite (ChimeProofs.ws_cb_200 _ _ Hstatus), Hbody, Hsplit, Hws.
  split; [done|]. cbv zeta.
  split; [by destruct chime_debug as [level|]; [destruct (0 <? level)|]|].
  split; [by destruct chime_debug as [level|]; [destruct (0 <? level)|]|].
  split; [|done].
  rewrite !app_assoc. by rewrite last_app.
Qed.

End Connect.

Lemma login_reaches_connected_witness :
  ∃ cxn1 calls1 cxn2 calls2 calls3,
    chime_purple_login Sample.account (Some 1) = Returns (cxn1, calls1)
    ∧ register_cb Sample.parser cxn1 Sample.response = Returns (cxn2, calls2)
    ∧ Chime.ws_cb (established cxn2)
        (Chime.Sample.negotiation "4d1f:60:60:websocket,xhr-polling")
      = Returns (established cxn2, calls3)
    ∧ let run := calls1 ++ calls2 ++ (chime_call <$> calls3)
                 ++ (ws2_cb cxn2 (inr 5%nat)).2 in
      progress_steps run = [(1, 3); (2, 3); (4, 3)]
      ∧ existsb is_connection_error run = false
      ∧ last run = Some (purple_connection_set_state PURPLE_CONNECTED)
      ∧ ws_conn (ws2_cb cxn2 (inr 5%nat)).1 = Some 5%nat
      ∧ Forall (λ entry, load (ws2_cb cxn2 (inr 5%nat)).1 entry.2
                         = string_at (Some Sample.registration) entry.1)
          registration_paths.
Proof.
  apply (login_reaches_connected Sample.parser Sample.account (Some 1) "long-lived"
           Sample.response Sample.registration
           (Chime.Sample.negotiation "4d1f:60:60:websocket,xhr-polling")
           "4d1f:60:60:websocket,xhr-polling" "4d1f" "60" "60" "websocket,xhr-polling").
  - reflexivity.
  - reflexivity.
  - exact sample_registration_complete.
  - reflexivity.
  - reflexivity.
  - reflexivity.
  - reflexivity.
Defined.

End LoginProofs.

(** ** Mentions: texts without mentions, and mentions inside a text *)

Module MentionEdgeProofs.
Import Glib Chat StrFacts MentionProofs.

Lemma replace_null a b : replace None a b = None.
Proof. done. Qed.

Lemma replace_empty_needle dst b : replace dst "" b = None.
Proof. by destruct dst. Qed.

Lemma expand_members_null members :
  foldl (λ parsed entry, expand_member_cb entry.1 entry.2 parsed) None members = None.
Proof. by induction members. Qed.

Lemma expand_members_null_iff members text :
  foldl (λ parsed entry, expand_member_cb entry.1 entry.2 parsed) (Some text) members = None
  ↔ Exists (λ entry, display_name entry.2 = "") members.
Proof.
  revert text. induction members as [|[mid m] members IH]; intros text.
  - split; [done|]. by intros ?%Exists_nil.
  - cbn [foldl]. unfold expand_member_cb at 2. cbn [fst snd].
    rewrite Exists_cons. cbn [snd].
    destruct (decide (display_name m = "")) as [->|Hne].
    + rewrite replace_empty_needle, expand_members_null. tauto.
    + rewrite replace_rewrite_each by done. rewrite IH. tauto.
Qed.

(** X11. [parse_outbound_mentions] returns [NULL] exactly when some
    member of the room has the empty string as display name
    ([g_strsplit] refuses an empty delimiter, and every step after that
    one passes the [NULL] on); with display names that are all non-empty
    it returns a string, whatever the message. *)
Theorem outbound_null_iff_empty_display_name
    (members : list (string * chat_member)) (message : string) :
  parse_outbound_mentions members message = None
  ↔ Exists (λ entry, display_name entry.2 = "") members.
Proof.
  unfold parse_outbound_mentions. rewrite !replace_rewrite_each by done.
  apply expand_members_null_iff.
Qed.

(** X12. A message in which neither [@all] nor [@present] nor the
    display name of any member occurs goes out as it was written. *)
Theorem outbound_plain_text_unchanged
    (members : list (string * chat_member)) (message : string) :
  strstr message "@all" = None →
  strstr message "@present" = None →
  Forall (λ entry, display_name entry.2 ≠ ""
                   ∧ strstr message (display_name entry.2) = None) members →
  parse_outbound_mentions members message = Some message.
Proof.
  intros Hall Hpresent Hmembers.
  rewrite parse_outbound_mentions_rewrite
    by (eapply Forall_impl; [exact Hmembers|]; by intros ? [? _]).
  unfold rewrite_outbound.
  rewrite (rewrite_each_none "@all") by done.
  rewrite (rewrite_each_none "@present") by done.
  by rewrite rewrite_members_none.
Qed.

Lemma outbound_plain_text_unchanged_witness :
  parse_outbound_mentions [Sample.jane; Sample.al] "see you at 10" = Some "see you at 10".
Proof.
  apply (outbound_plain_text_unchanged [Sample.jane; Sample.al] "see you at 10").
  - reflexivity.
  - reflexivity.
  - repeat constructor; discriminate.
Defined.

(** *** Inbound *)

Section Inbound.
Context `{External}.

(** X13. An incoming text (already markup-escaped) in which neither
    [&lt;@] nor the profile id of the user occurs is displayed as it is
    and does not count as a mention of the user. *)
Theorem inbound_plain_text_unchanged (me message : string) :
  strstr message "&lt;@" = None →
  strstr message me = None →
  parse_inbound_mentions me message = (false, Some message).
Proof.
  intros Hopen Hme. unfold parse_inbound_mentions, g_regex_replace_mentions.
  rewrite mention_replace_plain by done.
  rewrite Hme.
  pose proof (strstr_longer_none message "&lt;@" "all|" Hopen) as Hall.
  pose proof (strstr_longer_none message "&lt;@" "present|" Hopen) as Hpresent.
  change ("&lt;@" +:+ "all|") with "&lt;@all|" in Hall.
  change ("&lt;@" +:+ "present|") with "&lt;@present|" in Hpresent.
  rewrite Hall, Hpresent. f_equal.
Qed.

(** X14. A wire mention anywhere in an incoming text: with no [&lt;@]
    before or after it, an id of word characters and hyphens, and a
    name free of newlines and of [&gt;], the text is displayed with the
    mention replaced by the name in bold and everything around it kept;
    it counts as a mention of the user when the id is the user's
    profile id, and also when the id is [all] or [present]. *)
Theorem inbound_mention_in_text (me pre id name post : string) :
  strstr pre "&lt;@" = None →
  id ≠ "" → all_word id = true →
  strstr name "&gt;" = None → no_newline name = true →
  strstr post "&lt;@" = None →
  let message := pre +:+ "&lt;@" +:+ id +:+ "|" +:+ name +:+ "&gt;" +:+ post in
  (parse_inbound_mentions me message).2
  = Some (pre +:+ "<b>" +:+ name +:+ "</b>" +:+ post)
  ∧ (id = me → (parse_inbound_mentions me message).1 = true)
  ∧ (id = "all" ∨ id = "present" → (parse_inbound_mentions me message).1 = true).
Proof.
  intros Hpre Hid Hw Hname Hnl Hpost message. subst message.
  unfold parse_inbound_mentions, g_regex_replace_mentions. cbn [fst snd].
  split; [|split].
  - f_equal.
    change ("&lt;@" +:+ id +:+ "|" +:+ name +:+ "&gt;" +:+ post)
      with (String "&" ("lt;@" +:+ id +:+ "|" +:+ name +:+ "&gt;" +:+ post)).
    rewrite mention_replace_before by done.
    change (String "&" ("lt;@" +:+ id +:+ "|" +:+ name +:+ "&gt;" +:+ post))
      with ("&lt;@" +:+ id +:+ "|" +:+ name +:+ "&gt;" +:+ post).
    rewrite (mention_replace_match _ _ _ _ (mention_match_head _ _ post Hid Hw Hname Hnl)).
    by rewrite mention_replace_plain.
  - intros <-.
    pose proof (strstr_occurs (pre +:+ "&lt;@") id ("|" +:+ name +:+ "&gt;" +:+ post)) as Hin.
    rewrite !str_app_assoc in Hin. by rewrite bool_decide_eq_true_2.
  - intros [-> | ->].
    + pose proof (strstr_occurs pre "&lt;@all|" (name +:+ "&gt;" +:+ post)) as Hin.
      rewrite (bool_decide_eq_true_2 (is_Some (strstr _ "&lt;@all|"))) by exact Hin.
      by rewrite orb_true_r.
    + pose proof (strstr_occurs pre "&lt;@present|" (name +:+ "&gt;" +:+ post)) as Hin.
      rewrite (bool_decide_eq_true_2 (is_Some (strstr _ "&lt;@present|"))) by exact Hin.
      by rewrite orb_true_r.
Qed.

End Inbound.

Lemma inbound_plain_text_unchanged_witness :
  @parse_inbound_mentions Sample.external "me-id" "a &lt; b" = (false, Some "a &lt; b").
Proof.
  apply (@inbound_plain_text_unchanged Sample.external "me-id" "a &lt; b"); reflexivity.
Defined.

Lemma inbound_mention_in_text_witness :
  let message := "ping " +:+ "&lt;@" +:+ "me-id" +:+ "|" +:+ "Me" +:+ "&gt;" +:+ " now" in
  (@parse_inbound_mentions Sample.external "me-id" message).2
  = Some ("ping " +:+ "<b>" +:+ "Me" +:+ "</b>" +:+ " now")
  ∧ ("me-id" = "me-id" → (@parse_inbound_mentions Sample.external "me-id" message).1 = true)
  ∧ ("me-id" = "all" ∨ "me-id" = "present"
     → (@parse_inbound_mentions Sample.external "me-id" message).1 = true).
Proof.
  apply (@inbound_mention_in_text Sample.external "me-id" "ping " "me-id" "Me" " now");
    try reflexivity. discriminate.
Defined.

End MentionEdgeProofs.

(** ** Chat rooms: attribution, the roster and the echo of a send *)

Module RosterProofs.
Import Json Glib Chat.

Section WithExternal.
Context `{External}.

(** X15. Every delivery [parse_incoming_msg] makes comes from a record
    with a Content and a Sender, goes to the conversation of the chat
    with the time it was given, and carries the escaped content with
    its mentions rewritten.  A message of the user's own profile is
    shown under the connection's display name with the flag SEND alone:
    it never raises a mention.  Any other message is shown under the
    sender's display name from the member table, or "Unknown sender",
    with the flag RECV, and with NICK besides exactly when the text
    mentions the user. *)
Theorem delivery_attribution
    (cxn : connection_info) (chat : chime_chat) (node : option JsonNode) (msg_time : Z)
    (id_ : Z) (who : option string) (flags : Z) (message : option string) (mtime : Z) :
  serv_got_chat_in id_ who flags message mtime ∈ parse_incoming_msg cxn chat node msg_time →
  ∃ content sender,
    parse_string node "Content" None = (true, Some content)
    ∧ parse_string node "Sender" None = (true, Some sender)
    ∧ id_ = conv chat ∧ mtime = msg_time
    ∧ message = (parse_inbound_mentions (profile_id cxn) (g_markup_escape_text content)).2
    ∧ (sender = profile_id cxn →
       who = connection_display_name cxn ∧ flags = PURPLE_MESSAGE_SEND)
    ∧ (sender ≠ profile_id cxn →
       who = Some (match members chat !! sender with
                   | Some member => display_name member
                   | None => "Unknown sender"
                   end)
       ∧ flags = if (parse_inbound_mentions (profile_id cxn)
                       (g_markup_escape_text content)).1
                 then Z.lor PURPLE_MESSAGE_RECV PURPLE_MESSAGE_NICK
                 else PURPLE_MESSAGE_RECV).
Proof.
  intros Hin. unfold parse_incoming_msg in Hin.
  destruct (parse_string node "Content" None) as [[] [content|]];
    try by apply elem_of_nil in Hin.
  destruct (parse_string node "Sender" None) as [[] [sender|]];
    try by apply elem_of_nil in Hin.
  exists content, sender. split; [done|]. split; [done|].
  destruct (parse_inbound_mentions (profile_id cxn) (g_markup_escape_text content))
    as [mentioned parsed].
  destruct (decide (sender = profile_id cxn)) as [Hme|Hother];
    destruct mentioned; cbn [andb negb fst snd] in *;
    apply list_elem_of_singleton in Hin; injection Hin as -> -> -> -> ->.
  all: repeat split; try done.
  all: by destruct (members chat !! sender).
Qed.


Lemma add_chat_member_eq chat node :
  add_chat_member chat node =
    match json_object_get_member (json_node_get_object node) "Member" with
    | None => (chat, [], false)
    | Some member =>
        match parse_string node "Presence" None with
        | (true, Some presence) =>
            match (if decide (presence = "notPresent") then Some PURPLE_CBFLAGS_AWAY
                   else if decide (presence = "present") then Some PURPLE_CBFLAGS_VOICE
                   else None) with
            | None => (chat, [], false)
            | Some flags =>
                match parse_string (Some member) "ProfileId" None,
                      parse_string (Some member) "Email" None,
                      parse_string (Some member) "DisplayName" None with
                | (true, Some id_), (true, Some email_), (true, Some display_name_) =>
                    match members chat !! id_ with
                    | None =>
                        (set_members chat
                           (<[id_ := {| member_id := id_; email := email_;
                                        display_name := display_name_ |}]> (members chat)),
                         [purple_conv_chat_add_user (conv chat) email_ flags
                            (members_done (msgs chat))],
                         true)
                    | Some _ =>
                        (chat, [purple_conv_chat_user_set_flags (conv chat) email_ flags], true)
                    end
                | _, _, _ => (chat, [], false)
                end
            end
        | _ => (chat, [], false)
        end
    end.
Proof. done. Qed.

Lemma add_chat_member_cases chat node :
  member_added chat node (add_chat_member chat node).
Proof.
  rewrite add_chat_member_eq.
  repeat case_match; try apply member_refused;
    (by apply member_new) || (by eapply member_known).
Qed.


Lemma foreach_member_roster chat elements :
  let r := foreach_member chat elements in
  members chat ⊆ members r.1
  ∧ size (members r.1)
    = (size (members chat) + length (filter (λ c, is_add_user c = true) r.2))%nat
  ∧ Forall (λ c, ∀ conv_ user flags arrival,
              c = purple_conv_chat_add_user conv_ user flags arrival →
              conv_ = conv chat ∧ arrival = members_done (msgs chat)) r.2
  ∧ ∃ table, r.1 = set_members chat table.
Proof.
  revert chat. induction elements as [|node rest IH]; intros chat; cbn [foreach_member].
  - split; [done|]. split; [simpl; lia|]. split; [done|].
    exists (members chat). by destruct chat.
  - pose proof (add_chat_member_cases chat (Some node)) as Hadd.
    destruct (add_chat_member chat (Some node)) as [[chat1 calls1] ok].
    specialize (IH chat1).
    destruct (foreach_member chat1 rest) as [chat2 calls2]. cbn [fst snd] in *.
    destruct IH as (Hsub & Hsize & Hcalls & [table Htable]).
    inversion Hadd as [|id_ email_ name flags Hnew|id_ email_ flags Hknown]; subst;
      cbn [members set_members msgs conv app] in *.
    + split; [done|]. split; [done|]. split; [done|]. by exists table.
    + split; [etrans; [by apply insert_subseteq|done]|].
      split.
      { rewrite Hsize, map_size_insert_None by done.
        rewrite filter_cons_True by done. simpl. lia. }
      split.
      { constructor; [by intros ? ? ? ? [= <- _ _ <-]|done]. }
      exists table. by destruct chat.
    + split; [done|]. split; [by rewrite filter_cons_False by done|].
      split; [|by exists table]. constructor; [done|done].
Qed.

(** X17. The roster of the host follows the member table.  While a
    membership page is handled, the table only grows, by exactly one
    entry for each user added to the conversation; every such call is
    for this chat and passes, as its new-arrival flag, the
    [members_done] the chat had before the page: members found while
    the first listing is still running are added without notice.  On a
    page that does not complete the room (no call of
    [chime_complete_messages]) the sent-message table and the history
    buffer are not touched; on the completing page they are handed to
    the history engine, which this statement leaves out. *)
Theorem roster_follows_member_table
    (cxn : connection_info) (queued : SoupMessage_ptr) (chat : chime_chat)
    (node : option JsonNode) :
  let r := fetch_members_cb cxn queued chat node in
  members chat ⊆ members r.1
  ∧ size (members r.1)
    = (size (members chat) + length (filter (λ c, is_add_user c = true) r.2))%nat
  ∧ Forall (λ c, ∀ conv_ user flags arrival,
              c = purple_conv_chat_add_user conv_ user flags arrival →
              conv_ = conv chat ∧ arrival = members_done (msgs chat)) r.2
  ∧ (filter (λ c, is_complete c = true) r.2 = [] →
     sent_msgs r.1 = sent_msgs chat
     ∧ messages (msgs r.1) = messages (msgs chat)).
Proof.
  unfold fetch_members_cb, fetch_chat_memberships.
  set (chat0 := set_members_msg chat None).
  assert (∃ chat1 calls1 table,
            match json_node_get_array
                    (json_object_get_member (json_node_get_object node) "RoomMemberships")
            with
            | Some elements => foreach_member chat0 elements
            | None => (chat0, [])
            end = (chat1, calls1)
            ∧ chat1 = set_members chat0 table
            ∧ members chat ⊆ table
            ∧ size table
              = (size (members chat)
                 + length (filter (λ c, is_add_user c = true) calls1))%nat
            ∧ Forall (λ c, ∀ conv_ user flags arrival,
                        c = purple_conv_chat_add_user conv_ user flags arrival →
                        conv_ = conv chat ∧ arrival = members_done (msgs chat)) calls1)
    as (chat1 & calls1 & table & -> & -> & Hsub & Hsize & Hcalls).
  { destruct (json_node_get_array _) as [elements|].
    - pose proof (foreach_member_roster chat0 elements) as (? & ? & ? & [table E]).
      destruct (foreach_member chat0 elements) as [c1 k1]. cbn [fst snd] in *.
      exists c1, k1, table. subst c1. done.
    - exists chat0, [], (members chat). split; [by destruct chat|].
      split; [done|]. split; [done|]. split; [simpl; lia|done]. }
  destruct (parse_string node "NextToken" None) as [[] [token|]]; cbn [fst snd].
  - rewrite filter_app, length_app. simpl.
    split; [done|]. split; [lia|]. split; [|done].
    apply Forall_app. split; [done|]. by constructor.
  - destruct (msgs_done _); cbn [fst snd]; rewrite ?filter_app, ?length_app; simpl;
      (split; [done|]); (split; [lia|]); (split; [|done]);
      rewrite ?Forall_app; repeat split; try done; by constructor.
  - destruct (msgs_done _); cbn [fst snd]; rewrite ?filter_app, ?length_app; simpl;
      (split; [done|]); (split; [lia|]); (split; [|done]);
      rewrite ?Forall_app; repeat split; try done; by constructor.
  - destruct (msgs_done _); cbn [fst snd]; rewrite ?filter_app, ?length_app; simpl;
      (split; [done|]); (split; [lia|]); (split; [|done]);
      rewrite ?Forall_app; repeat split; try done; by constructor.
Qed.




(** X19. [send_msg_cb] calls the host at most once.  A status outside
    200..299 gives, and only such a status gives, one error line in the
    conversation with the status and the reason phrase, and leaves the
    chat as it was; with a status inside, a call, if any, is a delivery.
    In every case the chat changes in its sent-message table at most,
    which keeps what it held. *)
Theorem send_reported_once
    (cxn : connection_info) (chat : chime_chat) (status : Z) (reason : string)
    (node : option JsonNode) (now : Z) (tv : GTimeVal) (last_seen : option string) :
  let r := send_msg_cb cxn chat status reason node now tv last_seen in
  (length r.2 ≤ 1)%nat
  ∧ (SOUP_STATUS_IS_SUCCESSFUL status = false ↔
     r.2 = [purple_conversation_write (conv chat)
              (Failed_to_deliver_message status reason) PURPLE_MESSAGE_ERROR now])
  ∧ (SOUP_STATUS_IS_SUCCESSFUL status = false → r.1 = chat)
  ∧ (SOUP_STATUS_IS_SUCCESSFUL status = true → Forall (λ c, is_delivery c = true) r.2)
  ∧ ∃ sent, r.1 = set_sent_msgs chat sent ∧ sent_msgs chat ⊆ sent.
Proof.
  intros r. subst r. unfold send_msg_cb.
  assert (Hsame : ∃ sent, chat = set_sent_msgs chat sent ∧ sent_msgs chat ⊆ sent).
  { exists (sent_msgs chat). by destruct chat. }
  destruct (SOUP_STATUS_IS_SUCCESSFUL status); cbn [negb fst snd].
  2:{ split; [simpl; lia|]. split; [done|]. split; [done|]. split; [done|]. done. }
  destruct (json_object_get_member _ "Message") as [msgnode|].
  2:{ split; [simpl; lia|]. split; [done|]. split; [done|]. split; [done|]. done. }
  cbv zeta. match goal with |- context [if ?b then _ else _] => destruct b end.
  { split; [simpl; lia|]. split; [done|]. split; [done|]. split; [done|]. done. }
  cbn [fst snd].
  match goal with
  | |- context [parse_incoming_msg cxn ?c ?n ?t] =>
      assert (Hcalls : parse_incoming_msg cxn c n t
                       = parse_incoming_msg cxn chat n t)
        by (by destruct (parse_string (Some msgnode) "MessageId" None) as [[] [m|]]);
      rewrite Hcalls;
      destruct (ChatProofs.parse_incoming_msg_calls cxn chat n t)
        as [->|(who & flags & message & ->)]
  end.
  - split; [simpl; lia|]. split; [done|]. split; [done|]. split; [done|].
    destruct (parse_string (Some msgnode) "MessageId" None) as [[] [m|]]; try done.
    eexists. split; [done|]. simpl. apply union_subseteq_r.
  - split; [simpl; lia|]. split; [done|]. split; [done|].
    split; [by repeat constructor|].
    destruct (parse_string (Some msgnode) "MessageId" None) as [[] [m|]]; try done.
    eexists. split; [done|]. simpl. apply union_subseteq_r.
Qed.

(** X20. A live message event is accepted exactly when it holds a
    record with a MessageId and either the history buffer exists or the
    CreatedOn of the record can be read.  An event that
    [chat_msg_jugg_cb] or [chat_membership_jugg_cb] refuses leaves the
    chat as it was and makes no call. *)
Theorem live_event_refused_without_effect
    (cxn : connection_info) (chat : chime_chat) (data_node : option JsonNode)
    (tv : GTimeVal) :
  let r := chat_msg_jugg_cb cxn chat data_node tv in
  let r' := chat_membership_jugg_cb chat data_node in
  (r.2 = true ↔
     ∃ record msg_id,
       json_object_get_member (json_node_get_object data_node) "record" = Some record
       ∧ parse_string (Some record) "MessageId" None = (true, Some msg_id)
       ∧ (is_Some (messages (msgs chat))
          ∨ (parse_time (Some record) "CreatedOn" None tv).1.1 = true))
  ∧ (r.2 = false → r.1 = (chat, []))
  ∧ (r'.2 = false → r'.1 = (chat, [])).
Proof.
  intros r r'. subst r r'. unfold chat_msg_jugg_cb, chat_membership_jugg_cb.
  destruct (json_object_get_member _ "record") as [record|].
  2:{ split; [|done]. split; [done|]. by intros (? & ? & ? & _). }
  split; [|split].
  - pose proof (JsonProofs.parse_string_spec (Some record) "MessageId" None) as Hspec.
    destruct (parse_string (Some record) "MessageId" None) as [[] [m|]] eqn:Hid.
    + destruct (messages (msgs chat)) as [table|].
      * split; [|done]. intros _. exists record, m.
        split; [done|]. split; [done|]. left. eauto.
      * destruct (parse_time _ _ _ _) as [[[] msg_time] tv'] eqn:Ht.
        -- destruct (chat_deliver_msg _ _ _ _). split; [|done].
           intros _. exists record, m. split; [done|]. split; [done|]. right.
           by rewrite Ht.
        -- split; [done|]. intros (? & ? & [= <-] & _ & [[? ?]|Hp]); [done|].
           by rewrite Ht in Hp.
    + exfalso. by destruct (json_node_get_string _).
    + split; [done|]. intros (? & ? & [= <-] & Hid' & _). congruence.
    + split; [done|]. intros (? & ? & [= <-] & Hid' & _). congruence.
  - destruct (parse_string (Some record) "MessageId" None) as [[] [m|]]; try done.
    destruct (messages (msgs chat)) as [table|]; [done|].
    destruct (parse_time _ _ _ _) as [[[] msg_time] tv']; [|done].
    by destruct (chat_deliver_msg _ _ _ _).
  - pose proof (add_chat_member_cases chat (Some record)) as Hadd.
    by inversion Hadd.
Qed.

End WithExternal.

Lemma delivery_attribution_witness :
  ∃ content sender,
    parse_string (Some (Sample.message "m1" "hello")) "Content" None = (true, Some content)
    ∧ parse_string (Some (Sample.message "m1" "hello")) "Sender" None = (true, Some sender)
    ∧ 1 = conv Sample.chat ∧ 5 = 5
    ∧ Some "hello"
      = (@parse_inbound_mentions Sample.external (profile_id Sample.cxn)
           (@g_markup_escape_text Sample.external content)).2
    ∧ (sender = profile_id Sample.cxn →
       Some "Me" = connection_display_name Sample.cxn
       ∧ PURPLE_MESSAGE_SEND = PURPLE_MESSAGE_SEND)
    ∧ (sender ≠ profile_id Sample.cxn →
       Some "Me" = Some (match members Sample.chat !! sender with
                         | Some member => display_name member
                         | None => "Unknown sender"
                         end)
       ∧ PURPLE_MESSAGE_SEND
         = if (@parse_inbound_mentions Sample.external (profile_id Sample.cxn)
                 (@g_markup_escape_text Sample.external content)).1
           then Z.lor PURPLE_MESSAGE_RECV PURPLE_MESSAGE_NICK
           else PURPLE_MESSAGE_RECV).
Proof.
  apply (@delivery_attribution Sample.external Sample.cxn Sample.chat
           (Some (Sample.message "m1" "hello")) 5 1 (Some "Me") PURPLE_MESSAGE_SEND
           (Some "hello") 5).
  vm_compute. left.
Defined.


End RosterProofs.

(** ** The device channel and the tables of live chats *)

Module DeviceProofs.
Import Json Glib Chat Device.

Lemma init_consistent priv device_channel :
  chats_consistent (chime_init_chats priv device_channel).1.
Proof. split; intros ? ? Hl; simpl in Hl; by rewrite lookup_empty in Hl. Qed.

(** A join keeps the tables in step as long as the counter can still
    count up. *)
Lemma join_consistent priv queued room_ :
  chats_consistent priv → INT_MIN ≤ chat_id priv < INT_MAX →
  chats_consistent (do_join_chat priv queued room_).1.1.
Proof.
  intros [Hlive Hroom] Hint. unfold do_join_chat.
  destruct room_ as [room_|]; [|done].
  destruct (chats_by_room priv !! room_ptr room_) as [c|] eqn:Hc; [done|].
  unfold fetch_chat_memberships. cbn [fst snd].
  rewrite (IntFacts.int_succ _ Hint).
  split; cbn [live_chats chats_by_room chat_id].
  - intros id_ chat. destruct (decide (id_ = chat_id priv + 1)) as [->|Hne].
    + rewrite lookup_insert_eq. intros [= <-]. cbn.
      by rewrite lookup_insert_eq.
    + rewrite lookup_insert_ne by done. intros Hl.
      destruct (Hlive _ _ Hl) as (Hconv & Hle & Hr).
      split; [done|]. split; [lia|].
      rewrite lookup_insert_ne; [done|]. intros E. rewrite <- E in Hr. congruence.
  - intros r id_. destruct (decide (r = room_ptr room_)) as [->|Hne].
    + rewrite lookup_insert_eq. intros [= <-]. eexists. by rewrite lookup_insert_eq.
    + rewrite lookup_insert_ne by done. intros Hr.
      destruct (Hroom _ _ Hr) as (chat & Hl & Hrp).
      exists chat. split; [|done]. rewrite lookup_insert_ne; [done|].
      intros <-. apply Hlive in Hl. lia.
Qed.

Lemma destroy_consistent priv id_ chat :
  chats_consistent priv → live_chats priv !! id_ = Some chat →
  chats_consistent (chime_destroy_chat priv chat).1.
Proof.
  intros [Hlive Hroom] Hl. destruct (Hlive _ _ Hl) as (Hconv & _ & Hr).
  unfold chime_destroy_chat. cbn [fst live_chats chats_by_room chat_id]. rewrite Hconv.
  split; cbn [live_chats chats_by_room chat_id].
  - intros i c. destruct (decide (i = id_)) as [->|Hne].
    + by rewrite lookup_delete_eq.
    + rewrite lookup_delete_ne by done. intros Hi.
      destruct (Hlive _ _ Hi) as (? & ? & Hri).
      split; [done|]. split; [done|].
      rewrite lookup_delete_ne; [done|]. intros E. rewrite E in Hr. congruence.
  - intros r i. destruct (decide (r = room_ptr (room chat))) as [->|Hne].
    + by rewrite lookup_delete_eq.
    + rewrite lookup_delete_ne by done. intros Hri.
      destruct (Hroom _ _ Hri) as (c & Hi & Hrc).
      exists c. split; [|done]. rewrite lookup_delete_ne; [done|].
      intros <-. congruence.
Qed.

Lemma set_live_chat_consistent priv chat_ptr chat chat' :
  chats_consistent priv → live_chats priv !! chat_ptr = Some chat →
  conv chat' = conv chat → room chat' = room chat →
  chats_consistent (set_live_chat priv chat_ptr chat').
Proof.
  intros [Hlive Hroom] Hl Hconv Hr. split; cbn [set_live_chat live_chats chats_by_room chat_id].
  - intros i c. destruct (decide (i = chat_ptr)) as [->|Hne].
    + rewrite lookup_insert_eq. intros [= <-]. rewrite Hconv, Hr. by apply Hlive.
    + rewrite lookup_insert_ne by done. apply Hlive.
  - intros r i Hri. destruct (Hroom _ _ Hri) as (c & Hi & Hrc).
    destruct (decide (i = chat_ptr)) as [->|Hne].
    + exists chat'. rewrite lookup_insert_eq. split; [done|]. congruence.
    + exists c. by rewrite lookup_insert_ne.
Qed.


Lemma leave_consistent priv id_ priv' calls :
  chats_consistent priv →
  chime_purple_chat_leave priv id_ = Returns (priv', calls) →
  chats_consistent priv' ∧ live_chats priv' !! id_ = None.
Proof.
  intros Hc. unfold chime_purple_chat_leave.
  destruct (live_chats priv !! id_) as [chat|] eqn:Hl; [|done].
  intros [= <- <-]. split; [by eapply destroy_consistent|].
  destruct Hc as [Hlive _]. destruct (Hlive _ _ Hl) as (<- & _).
  apply lookup_delete_eq.
Qed.

Lemma sample_priv_consistent : chats_consistent Chat.Sample.priv.
Proof.
  split.
  - intros id_ chat Hl. simpl in Hl.
    destruct (decide (id_ = 1)) as [->|Hne].
    + rewrite lookup_singleton_eq in Hl. by injection Hl as <-.
    + by rewrite lookup_singleton_ne in Hl.
  - intros r id_ Hr. simpl in Hr.
    destruct (decide (r = 7%nat)) as [->|Hne].
    + rewrite lookup_singleton_eq in Hr. injection Hr as <-.
      by exists Chat.Sample.chat_fetching.
    + by rewrite lookup_singleton_ne in Hr.
Qed.

Lemma sample_fresh_consistent : chats_consistent Sample.fresh.
Proof. split; intros ? ? Hl; simpl in Hl; by rewrite lookup_empty in Hl. Qed.

(** X22. Leaving a room and joining it again opens a new chat.  While
    the [int] counter [chat_id] is below [INT_MAX], the join after the
    leave returns the id after the last one counted, which no chat that
    was live carried, and tells the host of the new conversation first;
    the id that was left stays out of the table of live chats, and
    leaving it a second time reads a [NULL] chat. *)
Theorem rejoin_opens_new_chat
    (priv : ChimeConnectionPrivate) (id_ : Z) (chat : chime_chat)
    (queued : SoupMessage_ptr) :
  chats_consistent priv →
  INT_MIN ≤ chat_id priv < INT_MAX →
  live_chats priv !! id_ = Some chat →
  let left := chime_destroy_chat priv chat in
  let again := do_join_chat left.1 queued (Some (room chat)) in
  again.1.2 = Some (chat_id priv + 1)
  ∧ (∀ i, is_Some (live_chats priv !! i) → i ≠ chat_id priv + 1)
  ∧ head again.2 = Some (serv_got_joined_chat (chat_id priv + 1) (room_name (room chat)))
  ∧ live_chats again.1.1 !! id_ = None
  ∧ chime_purple_chat_leave left.1 id_ = Undefined.
Proof.
  intros [Hlive Hroom] Hint Hl left again. subst left again.
  destruct (Hlive _ _ Hl) as (Hconv & Hle & Hr).
  unfold do_join_chat, chime_destroy_chat, chime_purple_chat_leave, fetch_chat_memberships.
  cbn [fst snd live_chats chats_by_room chat_id].
  rewrite lookup_delete_eq. cbn [fst snd live_chats chats_by_room chat_id].
  rewrite (IntFacts.int_succ _ Hint).
  split; [done|]. split.
  { intros i [c Hi] ->. apply Hlive in Hi. lia. }
  split; [done|]. rewrite Hconv.
  split; [|by rewrite lookup_delete_eq].
  rewrite lookup_insert_ne by lia. apply lookup_delete_eq.
Qed.


Lemma rejoin_opens_new_chat_witness :
  let left := chime_destroy_chat Chat.Sample.priv Chat.Sample.chat_fetching in
  let again := do_join_chat left.1 12%nat (Some (room Chat.Sample.chat_fetching)) in
  again.1.2 = Some (chat_id Chat.Sample.priv + 1)
  ∧ (∀ i, is_Some (live_chats Chat.Sample.priv !! i) → i ≠ chat_id Chat.Sample.priv + 1)
  ∧ head again.2
    = Some (serv_got_joined_chat (chat_id Chat.Sample.priv + 1)
              (room_name (room Chat.Sample.chat_fetching)))
  ∧ live_chats again.1.1 !! 1 = None
  ∧ chime_purple_chat_leave left.1 1 = Undefined.
Proof.
  apply (rejoin_opens_new_chat Chat.Sample.priv 1 Chat.Sample.chat_fetching 12%nat).
  - exact sample_priv_consistent.
  - by vm_compute.
  - reflexivity.
Defined.

Section WithRooms.
Context `{External}.
Variable chime_connection_room_by_id : string → option ChimeRoom.
Variable fetch_messages_msgs : chime_msgs → chime_msgs.

Lemma chat_msg_jugg_cb_room cxn chat data_node tv :
  room (chat_msg_jugg_cb cxn chat data_node tv).1.1 = room chat.
Proof.
  unfold chat_msg_jugg_cb, chat_deliver_msg.
  destruct (json_object_get_member _ "record") as [record|]; [|done].
  destruct (parse_string (Some record) "MessageId" None) as [[] [m|]]; try done.
  destruct (messages (msgs chat)); [done|].
  destruct (parse_time _ _ _ _) as [[[] msg_time] tv']; [|done].
  by destruct (decide (m ∈ sent_msgs chat)).
Qed.

Lemma chat_membership_jugg_cb_room chat data_node :
  room (chat_membership_jugg_cb chat data_node).1.1 = room chat.
Proof.
  unfold chat_membership_jugg_cb.
  destruct (json_object_get_member _ "record") as [record|]; [|done].
  by destruct (ChatProofs.add_chat_member_frame chat (Some record)) as [[table ->] _].
Qed.

Lemma fetch_members_cb_room cxn queued chat node :
  room (fetch_members_cb cxn queued chat node).1 = room chat.
Proof.
  unfold fetch_members_cb, fetch_chat_memberships.
  set (chat0 := set_members_msg chat None).
  assert (∃ chat1 calls1,
            match json_node_get_array
                    (json_object_get_member (json_node_get_object node) "RoomMemberships")
            with
            | Some elements => foreach_member chat0 elements
            | None => (chat0, [])
            end = (chat1, calls1) ∧ room chat1 = room chat)
    as (chat1 & calls1 & -> & Hroom).
  { destruct (json_node_get_array _) as [elements|]; [|by eexists _, _].
    destruct (ChatProofs.foreach_member_frame chat0 elements) as [[table E] _].
    destruct (foreach_member chat0 elements) as [c1 k1]. simpl in E. subst c1.
    by eexists _, _. }
  destruct (parse_string node "NextToken" None) as [[] [token|]]; cbn [fst]; try done;
    by destruct (msgs_done _).
Qed.

Lemma send_msg_cb_room cxn chat status reason node now tv last_seen :
  room (send_msg_cb cxn chat status reason node now tv last_seen).1 = room chat.
Proof.
  unfold send_msg_cb.
  destruct (SOUP_STATUS_IS_SUCCESSFUL status); cbn [negb fst]; [|done].
  destruct (json_object_get_member _ "Message") as [msgnode|]; [|done].
  cbv zeta. match goal with |- context [if ?b then _ else _] => destruct b end; [done|].
  by destruct (parse_string (Some msgnode) "MessageId" None) as [[] [m|]].
Qed.

(** X21. The table of live chats and the table of chats by room stay
    in step.  [chime_init_chats] makes them so; a join made while the
    [int] counter [chat_id] is below [INT_MAX], a leave that returns,
    and each callback of chat.c that runs for a live chat and leaves the
    struct it changed in place keep them so; after a leave the id that
    was left is no longer live.  (A join at [INT_MAX] gives the new chat
    the id [INT_MIN], below the ids counted before.) *)
Theorem chats_stay_consistent :
  (∀ priv device_channel, chats_consistent (chime_init_chats priv device_channel).1)
  ∧ (∀ priv queued room_,
       chats_consistent priv → INT_MIN ≤ chat_id priv < INT_MAX →
       chats_consistent (do_join_chat priv queued room_).1.1)
  ∧ (∀ priv queued room_,
       chat_id priv = INT_MAX → chats_by_room priv !! room_ptr room_ = None →
       (do_join_chat priv queued (Some room_)).1.2 = Some INT_MIN)
  ∧ (∀ priv id_ priv' calls,
       chats_consistent priv →
       chime_purple_chat_leave priv id_ = Returns (priv', calls) →
       chats_consistent priv' ∧ live_chats priv' !! id_ = None)
  ∧ (∀ priv chat_ptr chat cxn queued node tv status reason now last_seen,
       chats_consistent priv → live_chats priv !! chat_ptr = Some chat →
       chats_consistent
         (set_live_chat priv chat_ptr (chat_msg_jugg_cb cxn chat node tv).1.1)
       ∧ chats_consistent
           (set_live_chat priv chat_ptr (chat_membership_jugg_cb chat node).1.1)
       ∧ chats_consistent
           (set_live_chat priv chat_ptr (fetch_members_cb cxn queued chat node).1)
       ∧ chats_consistent
           (set_live_chat priv chat_ptr
              (send_msg_cb cxn chat status reason node now tv last_seen).1)).
Proof.
  split; [apply init_consistent|]. split; [apply join_consistent|].
  split.
  { intros priv queued room_ Hmax Hnew. unfold do_join_chat. by rewrite Hnew, Hmax. }
  split; [apply leave_consistent|].
  intros priv chat_ptr chat cxn queued node tv status reason now last_seen Hc Hl.
  split; [|split; [|split]];
    eapply (set_live_chat_consistent priv chat_ptr chat); try done.
  - apply ChatProofs.chat_msg_jugg_cb_own.
  - apply chat_msg_jugg_cb_room.
  - apply ChatProofs.chat_membership_jugg_cb_own.
  - apply chat_membership_jugg_cb_room.
  - apply ChatProofs.fetch_members_cb_own.
  - apply fetch_members_cb_room.
  - apply ChatProofs.send_msg_cb_own.
  - apply send_msg_cb_room.
Qed.

(** X23. A RoomMessage on the device channel for a room that has a
    chat is handled by that chat and by nothing else: the callback
    returns what [chat_msg_jugg_cb] returns for the chat found under the
    room, makes the calls it makes, all about that chat, and leaves the
    struct it changed in place; no room is joined, and the two tables
    stay in step. *)
Theorem device_event_for_joined_room
    (priv : ChimeConnectionPrivate) (queued : SoupMessage_ptr)
    (data_node : option JsonNode) (tv : GTimeVal)
    (record : JsonNode) (room_id_ : string) (room_ : ChimeRoom) (chat_ptr : Z) :
  chats_consistent priv →
  json_object_get_member (json_node_get_object data_node) "record" = Some record →
  parse_string (Some record) "RoomId" None = (true, Some room_id_) →
  chime_connection_room_by_id room_id_ = Some room_ →
  chats_by_room priv !! room_ptr room_ = Some chat_ptr →
  ∃ chat,
    live_chats priv !! chat_ptr = Some chat
    ∧ room_ptr (room chat) = room_ptr room_
    ∧ let r := chat_msg_jugg_cb (info priv) chat data_node tv in
      chat_demuxing_jugg_cb chime_connection_room_by_id fetch_messages_msgs
        priv queued data_node tv
      = Returns (set_live_chat priv chat_ptr r.1.1, r.1.2, r.2)
      ∧ chats_consistent (set_live_chat priv chat_ptr r.1.1)
      ∧ Forall (own_call chat_ptr) r.1.2.
Proof.
  intros Hc Hrec Hid Hroom Hchat.
  destruct Hc as [Hlive Hrooms].
  destruct (Hrooms _ _ Hchat) as (chat & Hl & Hrp).
  exists chat. split; [done|]. split; [done|]. cbv zeta.
  unfold chat_demuxing_jugg_cb. rewrite Hrec, Hid, Hroom, Hchat, Hl.
  pose proof (ChatProofs.chat_msg_jugg_cb_own (info priv) chat data_node tv) as [Hconv Hown].
  pose proof (chat_msg_jugg_cb_room (info priv) chat data_node tv) as Hr.
  destruct (chat_msg_jugg_cb (info priv) chat data_node tv) as [[chat' calls'] handled].
  cbn [fst snd] in *. split; [done|]. split.
  - by eapply (set_live_chat_consistent priv chat_ptr chat chat').
  - destruct (Hlive _ _ Hl) as (<- & _). done.
Qed.


End WithRooms.

Lemma device_event_for_joined_room_witness :
  ∃ chat,
    live_chats Chat.Sample.priv !! 1 = Some chat
    ∧ room_ptr (room chat) = room_ptr Chat.Sample.room1
    ∧ let r := @chat_msg_jugg_cb Chat.Sample.external (info Chat.Sample.priv) chat
                 Sample.device_event Chat.Sample.tv0 in
      @chat_demuxing_jugg_cb Chat.Sample.external Sample.chime_connection_room_by_id
        Sample.fetch_messages_msgs Chat.Sample.priv 12%nat Sample.device_event
        Chat.Sample.tv0
      = Returns (set_live_chat Chat.Sample.priv 1 r.1.1, r.1.2, r.2)
      ∧ chats_consistent (set_live_chat Chat.Sample.priv 1 r.1.1)
      ∧ Forall (own_call 1) r.1.2.
Proof.
  eapply (@device_event_for_joined_room Chat.Sample.external
            Sample.chime_connection_room_by_id Sample.fetch_messages_msgs
            Chat.Sample.priv 12%nat Sample.device_event Chat.Sample.tv0).
  - exact sample_priv_consistent.
  - reflexivity.
  - reflexivity.
  - reflexivity.
  - reflexivity.
Defined.


(** The specification's sentence for C6 has no further callback for
    the room delivered to the host once the room is left.  Here the room
    is left while both fetches are in flight; the subscription of the
    device channel is still there, a RoomMessage for the room arriving
    on it is due to [chat_demuxing_jugg_cb], and that callback joins the
    room again under a new chat and tells the host of it. *)
Lemma left_room_joined_again_by_device_event :
  let left := chime_destroy_chat Chat.Sample.priv Chat.Sample.chat_fetching in
  let t' := apply_calls Chat.Sample.transport_fetching left.2 in
  tracks Chat.Sample.chat_fetching Chat.Sample.transport_fetching
  ∧ chats_by_room left.1 !! room_ptr Chat.Sample.room1 = None
  ∧ callbacks_due t' (jugg_event "chan-device" "RoomMessage" Sample.device_event)
    = [(on_event chat_demuxing_jugg_cb_ptr, cxn_data)]
  ∧ ∃ priv' calls,
      @chat_demuxing_jugg_cb Chat.Sample.external Sample.chime_connection_room_by_id
        Sample.fetch_messages_msgs left.1 12%nat Sample.device_event Chat.Sample.tv0
      = Returns (priv',
                 serv_got_joined_chat 2 (room_name Chat.Sample.room1) :: calls, true)
      ∧ host_call_of (serv_got_joined_chat 2 (room_name Chat.Sample.room1)) = Some 2
      ∧ chats_by_room priv' !! room_ptr Chat.Sample.room1 = Some 2.
Proof.
  cbv zeta. split; [exact SessionProofs.sample_tracks|].
  split; [reflexivity|]. split; [reflexivity|].
  eexists _, _. split; [reflexivity|]. split; reflexivity.
Qed.

End DeviceProofs.

(** ** Meeting PINs *)

Module MeetingProofs.
Import Glib Meeting StrFacts.

Lemma ungroup_app s t : ungroup (s +:+ t) = ungroup s +:+ ungroup t.
Proof.
  induction s as [|c s IH]; [done|]. rewrite str_app_cons. cbn [ungroup].
  destruct (decide (c = " "%char)); [done|]. by rewrite str_app_cons, IH.
Qed.

Lemma str_take_drop n s : Str.take n s +:+ Str.drop n s = s.
Proof.
  revert s. induction n as [|n IH]; intros [|c s]; try done.
  cbn [Str.take Str.drop]. by rewrite str_app_cons, IH.
Qed.

Lemma str_drop_drop n m s : Str.drop n (Str.drop m s) = Str.drop (m + n) s.
Proof.
  revert s. induction m as [|m IH]; intros s; [done|].
  destruct s as [|c s]; [by destruct n|]. apply IH.
Qed.

Lemma str_length_take n s : (n ≤ String.length s)%nat → String.length (Str.take n s) = n.
Proof.
  revert s. induction n as [|n IH]; intros [|c s]; simpl; try done; try lia.
  intros Hn. rewrite IH; lia.
Qed.

Lemma str_drop_all s : Str.drop (String.length s) s = "".
Proof. induction s; [done|]. done. Qed.

(** X25. [format_pin] only adds spaces: the text shown holds the bytes
    of the PIN in their order, with two spaces more for a PIN of 10
    bytes, three more for one of 13, and is the PIN itself for any
    other length. *)
Theorem format_pin_keeps_digits (pin : string) :
  ∃ shown,
    format_pin (Some pin) = Returns shown
    ∧ ungroup shown = ungroup pin
    ∧ String.length shown
      = (String.length pin
         + (if decide (String.length pin = 10%nat) then 2
            else if decide (String.length pin = 13%nat) then 3 else 0))%nat
    ∧ (String.length pin ≠ 10%nat → String.length pin ≠ 13%nat → shown = pin).
Proof.
  unfold format_pin.
  destruct (decide (String.length pin = 10%nat)) as [H10|H10].
  - eexists. split; [done|]. split; [|split; [|done]].
    + rewrite !ungroup_app. change (ungroup " ") with "". rewrite !str_app_nil_l.
      rewrite <- !ungroup_app. f_equal.
      rewrite <- (str_take_drop 4 pin) at 4. f_equal.
      rewrite <- (str_take_drop 2 (Str.drop 4 pin)) at 2. f_equal.
      rewrite str_drop_drop. change (4 + 2)%nat with 6%nat.
      rewrite <- (str_take_drop 4 (Str.drop 6 pin)) at 2.
      rewrite str_drop_drop. change (6 + 4)%nat with 10%nat.
      rewrite <- H10, str_drop_all. by rewrite str_app_nil_r.
    + rewrite !str_length_app, !str_length_take by (rewrite ?str_length_drop; lia).
      simpl. lia.
  - destruct (decide (String.length pin = 13%nat)) as [H13|H13].
    + eexists. split; [done|]. split; [|split; [|done]].
      * rewrite !ungroup_app. change (ungroup " ") with "". rewrite !str_app_nil_l.
        rewrite <- !ungroup_app. f_equal.
        rewrite <- (str_take_drop 4 pin) at 5. f_equal.
        rewrite <- (str_take_drop 2 (Str.drop 4 pin)) at 2. f_equal.
        rewrite str_drop_drop. change (4 + 2)%nat with 6%nat.
        rewrite <- (str_take_drop 4 (Str.drop 6 pin)) at 2. f_equal.
        rewrite str_drop_drop. change (6 + 4)%nat with 10%nat.
        rewrite <- (str_take_drop 3 (Str.drop 10 pin)) at 2.
        rewrite str_drop_drop. change (10 + 3)%nat with 13%nat.
        rewrite <- H13, str_drop_all. by rewrite str_app_nil_r.
      * rewrite !str_length_app, !str_length_take by (rewrite ?str_length_drop; lia).
        simpl. lia.
    + exists pin. split; [done|]. split; [done|]. split; [lia|done].
Qed.

End MeetingProofs.

(** ** Leaving a room: what a join set up is taken down *)

Module LeaveProofs.
Import Json Glib Chat Device.

Lemma cancelled_destroy priv chat :
  cancelled (chime_destroy_chat priv chat).2
  = option_list (soup_msg (msgs chat)) ++ option_list (members_msg chat).
Proof.
  unfold chime_destroy_chat, cancelled. cbn [snd]. rewrite !omap_app.
  destruct (soup_msg (msgs chat)), (members_msg chat); done.
Qed.

(** X26. Leaving a room right after joining it undoes the join.  For
    a room that was not joined, while the [int] counter [chat_id] is
    below [INT_MAX], [do_join_chat] subscribes the room's channel twice
    (messages, memberships) and queues one membership request;
    [chime_destroy_chat] of the chat it created, whatever the history
    engine has left in [chat->msgs], unsubscribes exactly those two
    subscriptions, cancels the history request if one is pending and
    then the membership request, puts both tables back as they were and
    ends with [serv_got_chat_left]; only the id counter stays advanced. *)
Theorem leave_undoes_join
    (priv : ChimeConnectionPrivate) (queued : SoupMessage_ptr) (room_ : ChimeRoom)
    (history : chime_msgs) :
  chats_consistent priv →
  INT_MIN ≤ chat_id priv < INT_MAX →
  chats_by_room priv !! room_ptr room_ = None →
  let joined := do_join_chat priv queued (Some room_) in
  ∃ chat,
    live_chats joined.1.1 !! (chat_id priv + 1) = Some chat
    ∧ let left := chime_destroy_chat joined.1.1 (set_msgs chat history) in
      subscribed joined.2
      = [(room_channel room_, "RoomMessage", chat_msg_jugg_cb_ptr,
          chat_data (chat_id priv + 1));
         (room_channel room_, "RoomMembership", chat_membership_jugg_cb_ptr,
          chat_data (chat_id priv + 1))]
      ∧ unsubscribed left.2 = subscribed joined.2
      ∧ queued_ids joined.2 = [queued]
      ∧ cancelled left.2 = option_list (soup_msg history) ++ queued_ids joined.2
      ∧ live_chats left.1 = live_chats priv
      ∧ chats_by_room left.1 = chats_by_room priv
      ∧ chat_id left.1 = chat_id priv + 1
      ∧ last left.2 = Some (serv_got_chat_left (chat_id priv + 1)).
Proof.
  intros [Hlive _] Hint Hnew joined. subst joined.
  unfold do_join_chat, fetch_chat_memberships. rewrite Hnew. cbn [fst snd live_chats].
  rewrite (IntFacts.int_succ _ Hint).
  rewrite lookup_insert_eq. eexists. split; [done|]. cbv zeta.
  rewrite cancelled_destroy.
  unfold chime_destroy_chat.
  cbn [fst snd live_chats chats_by_room chat_id conv room set_msgs set_members_msg
       members_msg msgs].
  split; [done|]. split.
  { unfold unsubscribed. rewrite !omap_app.
    by destruct (soup_msg history). }
  split; [done|]. split; [done|].
  split.
  { apply delete_insert_id.
    destruct (live_chats priv !! (chat_id priv + 1)) as [c|] eqn:Hc; [|done].
    apply Hlive in Hc. lia. }
  split; [by apply delete_insert_id|]. split; [done|].
  by destruct (soup_msg history).
Qed.

Lemma leave_undoes_join_witness :
  let priv := Device.Sample.fresh in
  let room_ := Chat.Sample.room1 in
  let history := msgs Chat.Sample.chat_fetching in
  let joined := do_join_chat priv 11%nat (Some room_) in
  ∃ chat,
    live_chats joined.1.1 !! (chat_id priv + 1) = Some chat
    ∧ let left := chime_destroy_chat joined.1.1 (set_msgs chat history) in
      subscribed joined.2
      = [(room_channel room_, "RoomMessage", chat_msg_jugg_cb_ptr,
          chat_data (chat_id priv + 1));
         (room_channel room_, "RoomMembership", chat_membership_jugg_cb_ptr,
          chat_data (chat_id priv + 1))]
      ∧ unsubscribed left.2 = subscribed joined.2
      ∧ queued_ids joined.2 = [11%nat]
      ∧ cancelled left.2 = option_list (soup_msg history) ++ queued_ids joined.2
      ∧ live_chats left.1 = live_chats priv
      ∧ chats_by_room left.1 = chats_by_room priv
      ∧ chat_id left.1 = chat_id priv + 1
      ∧ last left.2 = Some (serv_got_chat_left (chat_id priv + 1)).
Proof.
  apply (leave_undoes_join Device.Sample.fresh 11%nat Chat.Sample.room1
           (msgs Chat.Sample.chat_fetching)).
  - exact DeviceProofs.sample_fresh_consistent.
  - by vm_compute.
  - reflexivity.
Defined.

Lemma foreach_member_requests chat elements :
  queued_ids (foreach_member chat elements).2 = [].
Proof.
  revert chat. induction elements as [|node rest IH]; intros chat; [done|].
  cbn [foreach_member].
  pose proof (RosterProofs.add_chat_member_cases chat (Some node)) as Hadd.
  destruct (add_chat_member chat (Some node)) as [[chat1 calls1] ok].
  specialize (IH chat1). destruct (foreach_member chat1 rest) as [chat2 calls2].
  cbn [fst snd] in *. unfold queued_ids in *. rewrite omap_app, IH.
  by inversion Hadd.
Qed.

Lemma fetch_members_cb_request cxn queued chat node :
  let r := fetch_members_cb cxn queued chat node in
  soup_msg (msgs r.1) = soup_msg (msgs chat)
  ∧ if has_next_token node then
      queued_ids r.2 = [queued] ∧ members_msg r.1 = Some queued
    else queued_ids r.2 = [] ∧ members_msg r.1 = None.
Proof.
  unfold fetch_members_cb, fetch_chat_memberships, has_next_token.
  set (chat0 := set_members_msg chat None).
  assert (∃ chat1 calls1 table,
            match json_node_get_array
                    (json_object_get_member (json_node_get_object node) "RoomMemberships")
            with
            | Some elements => foreach_member chat0 elements
            | None => (chat0, [])
            end = (chat1, calls1)
            ∧ chat1 = set_members chat0 table ∧ queued_ids calls1 = [])
    as (chat1 & calls1 & table & -> & -> & Hq).
  { destruct (json_node_get_array _) as [elements|].
    - pose proof (foreach_member_requests chat0 elements) as Hq.
      destruct (ChatProofs.foreach_member_frame chat0 elements) as [[table E] _].
      destruct (foreach_member chat0 elements) as [c1 k1]. simpl in *. by eexists _, _, _.
    - exists chat0, [], (members chat0). by destruct chat. }
  pose proof (JsonProofs.parse_string_spec node "NextToken" None) as Hp.
  destruct (parse_string node "NextToken" None) as [[] [token|]]; cbn [fst snd].
  - unfold queued_ids in *. by rewrite omap_app, Hq.
  - exfalso. by destruct (json_node_get_string _).
  - exfalso. by destruct (json_node_get_string _).
  - destruct (msgs_done _); cbn [fst snd]; unfold queued_ids in *;
      rewrite ?omap_app, ?Hq; done.
Qed.

Lemma membership_pages_requests cxn queued chat pages :
  Forall (λ p, has_next_token p = true) pages →
  let r := membership_pages cxn queued chat pages in
  soup_msg (msgs r.1) = soup_msg (msgs chat)
  ∧ queued_ids r.2 = seq queued (length pages)
  ∧ members_msg r.1 = match pages with
                      | [] => members_msg chat
                      | _ => Some (queued + length pages - 1)%nat
                      end.
Proof.
  intros Hp. revert queued chat.
  induction Hp as [|p pages Hnext Hrest IH]; intros queued chat; [done|].
  cbn [membership_pages].
  pose proof (fetch_members_cb_request cxn queued chat p) as [Hs Hpage].
  rewrite Hnext in Hpage. destruct Hpage as [Hq Hm].
  destruct (fetch_members_cb cxn queued chat p) as [chat1 calls1]. cbn [fst snd] in *.
  pose proof (IH (S queued) chat1) as (Hs' & Hq' & Hm').
  destruct (membership_pages cxn (S queued) chat1 pages) as [chat2 calls2].
  cbn [fst snd] in *. unfold queued_ids in *.
  rewrite omap_app, Hq, Hq'. split; [congruence|]. split; [done|].
  rewrite Hm'. destruct pages; simpl; [rewrite Hm|]; f_equal; lia.
Qed.

(** X27. Membership paging and leaving: over a run of pages that each
    carry a [NextToken], one request is queued per page after the first,
    with consecutive ids, and [members_msg] is always the last one
    queued; leaving then cancels the pending history request and that
    one membership request only.  After a page without [NextToken]
    nothing is queued, [members_msg] is [NULL], and leaving cancels no
    membership request. *)
Theorem leave_cancels_request_in_flight
    (cxn : connection_info) (priv : ChimeConnectionPrivate) (queued : SoupMessage_ptr)
    (chat : chime_chat) (pages : list (option JsonNode)) (last_page : option JsonNode) :
  Forall (λ p, has_next_token p = true) pages →
  has_next_token last_page = false →
  let first := fetch_chat_memberships cxn queued chat None in
  let run := membership_pages cxn (S queued) first.1 pages in
  let final := fetch_members_cb cxn (S queued + length pages)%nat run.1 last_page in
  queued_ids (first.2 ++ run.2) = seq queued (S (length pages))
  ∧ members_msg run.1 = last (queued_ids (first.2 ++ run.2))
  ∧ cancelled (chime_destroy_chat priv run.1).2
    = option_list (soup_msg (msgs chat)) ++ [(queued + length pages)%nat]
  ∧ queued_ids final.2 = []
  ∧ members_msg final.1 = None
  ∧ cancelled (chime_destroy_chat priv final.1).2 = option_list (soup_msg (msgs chat)).
Proof.
  intros Hpages Hlast first run final.
  pose proof (membership_pages_requests cxn (S queued) first.1 pages Hpages)
    as (Hs & Hq & Hm). fold run in Hs, Hq, Hm.
  pose proof (fetch_members_cb_request cxn (S queued + length pages)%nat run.1 last_page)
    as [Hs' Hfinal]. fold final in Hs', Hfinal. rewrite Hlast in Hfinal.
  destruct Hfinal as [Hq' Hm'].
  assert (Hrun : members_msg run.1 = Some (queued + length pages)%nat).
  { rewrite Hm. destruct pages; simpl; f_equal; lia. }
  assert (Hall : queued_ids (first.2 ++ run.2) = seq queued (S (length pages))).
  { unfold queued_ids in *. by rewrite omap_app, Hq. }
  split; [done|]. split.
  { rewrite Hall, Hrun. rewrite seq_S, last_snoc. done. }
  rewrite !cancelled_destroy, Hs', Hs, Hrun, Hm'. cbn [option_list].
  by rewrite app_nil_r.
Qed.

Lemma leave_cancels_request_in_flight_witness :
  let cxn := Chat.Sample.cxn in
  let priv := Chat.Sample.priv in
  let chat := Chat.Sample.chat_fetching in
  let pages := [Chat.Sample.page ["ann"; "bob"] (Some "t1");
                Chat.Sample.page ["cy"; "di"] (Some "t2")] in
  let last_page := Chat.Sample.page ["ed"] None in
  let first := fetch_chat_memberships cxn 11%nat chat None in
  let run := membership_pages cxn 12%nat first.1 pages in
  let final := fetch_members_cb cxn (12 + length pages)%nat run.1 last_page in
  queued_ids (first.2 ++ run.2) = seq 11%nat (S (length pages))
  ∧ members_msg run.1 = last (queued_ids (first.2 ++ run.2))
  ∧ cancelled (chime_destroy_chat priv run.1).2
    = option_list (soup_msg (msgs chat)) ++ [(11 + length pages)%nat]
  ∧ queued_ids final.2 = []
  ∧ members_msg final.1 = None
  ∧ cancelled (chime_destroy_chat priv final.1).2 = option_list (soup_msg (msgs chat)).
Proof.
  apply (leave_cancels_request_in_flight Chat.Sample.cxn Chat.Sample.priv 11%nat
           Chat.Sample.chat_fetching
           [Chat.Sample.page ["ann"; "bob"] (Some "t1");
            Chat.Sample.page ["cy"; "di"] (Some "t2")]
           (Chat.Sample.page ["ed"] None)).
  - repeat constructor.
  - reflexivity.
Defined.

End LeaveProofs.

(** ** Mentions: from the text typed to the text displayed *)

Module RoundTripProofs.
Import Json Glib Chat StrFacts MentionProofs MentionEdgeProofs.


Section WithExternal.
Context `{External}.


End WithExternal.


End RoundTripProofs.
